(** * The TINETZ DLMS frame reader and the Kaifa TINETZ notification decoder

    A shallow embedding of [han/dlms_tinetz.py] and [han/kaifa_tinetz.py]:
    the declarative [construct] structures become parsers over byte lists,
    the stateful [DlmsTinetzFrameReader.read] becomes a step function on the
    reader state that is iterated by [read_loop]. *)

From Stdlib Require Import ZArith List Lia Bool String Ascii QArith.
From Stdlib Require Import Strings.Byte.
From stdpp Require Import base list option.
Import ListNotations.
Open Scope Z_scope.

(** ** Bytes *)

(** The integer value of a byte, as Python sees an element of [bytes]. *)
Definition b2z (b : byte) : Z := Z.of_N (Byte.to_N b).

(** The byte holding an integer's low eight bits. *)
Definition z2b (z : Z) : byte :=
  match Byte.of_N (Z.to_N (z mod 256)) with
  | Some b => b
  | None => x00
  end.

(** Python's [sum] over a [bytes] object. *)
Definition sum_bytes (l : list byte) : Z := fold_right (fun b a => b2z b + a) 0 l.

(** Python's [sum] over a list of integers. *)
Definition sum (l : list Z) : Z := fold_right Z.add 0 l.

(** Python's [range(lo, hi)] for naturals. *)
Definition range (lo hi : nat) : list Z := map Z.of_nat (seq lo (hi - lo)).

(** ** The part of the [construct] library the sources use *)

Module construct.

(** The subclasses of [construct.ConstructError] that the structures can
    raise.  [ExplicitError] is what the construct [Error] raises when it is
    reached, as the default of a [Switch] that is to refuse every other
    case. *)
Inductive ConstructError : Type :=
| StreamError
| ConstError
| CheckError
| ValidationError
| ChecksumError
| SelectError
| ExplicitError.

(** What a parse can raise: a [ConstructError], or a Python exception of
    another class ([TypeError] from a computed field, [binascii.Error],
    [ValueError] and [OverflowError] from the helpers the reader and the
    frame call).  [binascii.Error] is a subclass of [ValueError]; nothing
    here catches either. *)
Inductive exn : Type :=
| ConstructErr (e : ConstructError)
| TypeError
| ValueError
| binascii_Error
| OverflowError.

Inductive result (A : Type) : Type :=
| Ok (a : A)
| Err (e : exn).
Arguments Ok {A} a.
Arguments Err {A} e.

(** A construct parses from a stream: it returns the parsed value and the
    rest of the stream, or raises. *)
Definition Construct (A : Type) : Type := list byte -> result (A * list byte).

Definition ret {A} (a : A) : Construct A := fun s => Ok (a, s).

Definition raise {A} (e : exn) : Construct A := fun _ => Err e.

Definition fail {A} (e : ConstructError) : Construct A := raise (ConstructErr e).

Definition bind {A B} (p : Construct A) (k : A -> Construct B) : Construct B :=
  fun s =>
    match p s with
    | Ok (a, r) => k a r
    | Err e => Err e
    end.

Declare Scope construct_scope.
Delimit Scope construct_scope with construct.
Notation "'do' x <- p ;; k" := (bind p (fun x => k))
  (at level 10, x name, p at level 99, k at level 200, only parsing)
  : construct_scope.
Open Scope construct_scope.

(** [Subconstruct.parse(data)]: run on the whole input, forget the rest. *)
Definition parse {A} (p : Construct A) (data : list byte) : result A :=
  match p data with
  | Ok (a, _) => Ok a
  | Err e => Err e
  end.

Definition Int8ub : Construct Z :=
  fun s =>
    match s with
    | [] => Err (ConstructErr StreamError)
    | b :: r => Ok (b2z b, r)
    end.

Definition Int16ub : Construct Z :=
  do hi <- Int8ub ;; do lo <- Int8ub ;; ret (hi * 256 + lo).

Definition Const (value : Z) (subcon : Construct Z) : Construct Z :=
  do x <- subcon ;; if x =? value then ret x else fail ConstError.

Definition OneOf (subcon : Construct Z) (valids : list Z) : Construct Z :=
  do x <- subcon ;; if existsb (Z.eqb x) valids then ret x else fail ValidationError.

Definition Check (cond : bool) : Construct unit :=
  if cond then ret tt else fail CheckError.

(** [Bytes(n)]: a negative length and a short stream are both a
    [StreamError]. *)
Definition Bytes (n : Z) : Construct (list byte) :=
  fun s =>
    if n <? 0 then Err (ConstructErr StreamError)
    else if (length s <? Z.to_nat n)%nat then Err (ConstructErr StreamError)
    else Ok (take (Z.to_nat n) s, drop (Z.to_nat n) s).

Definition GreedyBytes : Construct (list byte) := fun s => Ok (s, []).

(** [subcon[count]] *)
Fixpoint Array {A} (count : nat) (subcon : Construct A) : Construct (list A) :=
  match count with
  | O => ret []
  | S n => do x <- subcon ;; do xs <- Array n subcon ;; ret (x :: xs)
  end.

(** [Peek] parses without consuming and turns a [ConstructError] into
    [None], except an [ExplicitError], which it lets through. *)
Definition Peek {A} (subcon : Construct A) : Construct (option A) :=
  fun s =>
    match subcon s with
    | Ok (a, _) => Ok (Some a, s)
    | Err (ConstructErr ExplicitError) => Err (ConstructErr ExplicitError)
    | Err (ConstructErr _) => Ok (None, s)
    | Err e => Err e
    end.

Definition If {A} (cond : bool) (subcon : Construct A) : Construct (option A) :=
  if cond then do x <- subcon ;; ret (Some x) else ret None.

(** [Checksum(field, hashfunc, bytesfunc)], with [data] the value of
    [bytesfunc] on the context. *)
Definition Checksum (checksumfield : Construct Z) (hashfunc : list Z -> Z)
    (data : list Z) : Construct Z :=
  do hash1 <- checksumfield ;;
  if hash1 =? hashfunc data then ret hash1 else fail ChecksumError.

(** [Select(p, q)]: the first alternative that parses.  An alternative
    that raises is passed over, whatever the exception, except an
    [ExplicitError], which is raised again at once; when none parses it is a
    [SelectError]. *)
Definition Select {A} (p q : Construct A) : Construct A :=
  fun s =>
    match p s with
    | Ok r => Ok r
    | Err (ConstructErr ExplicitError) => Err (ConstructErr ExplicitError)
    | Err _ =>
        match q s with
        | Ok r => Ok r
        | Err (ConstructErr ExplicitError) => Err (ConstructErr ExplicitError)
        | Err _ => Err (ConstructErr SelectError)
        end
    end.

(** [GreedyRange(subcon)]: parse items until one raises, then go back to
    where that one started and return the items.  The exception that ends
    the list is dropped, whatever it is, except an [ExplicitError], which is
    raised again and leaves no list.  [fuel] bounds the number of items,
    [None] says that it did not suffice. *)
Fixpoint GreedyRange {A} (fuel : nat) (subcon : Construct A) (s : list byte)
    : option (result (list A * list byte)) :=
  match fuel with
  | O => None
  | S n =>
      match subcon s with
      | Ok (e, r) =>
          match GreedyRange n subcon r with
          | Some (Ok (es, r')) => Some (Ok (e :: es, r'))
          | Some (Err err) => Some (Err err)
          | None => None
          end
      | Err (ConstructErr ExplicitError) => Some (Err (ConstructErr ExplicitError))
      | Err _ => Some (Ok ([], s))
      end
  end.

End construct.
Import construct.

(** ** [han/dlms_tinetz.py]: the envelope structures *)

Record MBusDataLinkHeader_t : Type := {
  Start_Character : Z;
  L_Field : Z;
  _L_Field : Z;
  C_Field : Z;
  A_Field : Z
}.

Definition MBusDataLinkHeader : Construct MBusDataLinkHeader_t :=
  do _ <- Const 0x68 Int8ub ;;
  do l <- Int8ub ;;
  do l' <- Int8ub ;;
  do _ <- Check (l' =? l) ;;
  do s <- Const 0x68 Int8ub ;;
  do c <- OneOf Int8ub [0x53; 0x73] ;;
  do a <- Const 0xFF Int8ub ;;
  ret {| Start_Character := s; L_Field := l; _L_Field := l'; C_Field := c; A_Field := a |}.

Record MBusTransportLayer_t : Type := {
  CI_Field : Z;
  STSAP : Z;
  DTSAP : Z
}.

Definition MBusTransportLayer : Construct MBusTransportLayer_t :=
  do ci <- OneOf Int8ub (range 0x00 0x1F) ;;
  do st <- Const 0x01 Int8ub ;;
  do dt <- Const 0x67 Int8ub ;;
  ret {| CI_Field := ci; STSAP := st; DTSAP := dt |}.

(** The field [Checksum] is [Checksum_] here, [Checksum] being the
    construct. *)
Record MBusDataLinkLayer_t : Type := {
  Header : MBusDataLinkHeader_t;
  TransportLayer : MBusTransportLayer_t;
  Data : list byte;
  Checksum_ : Z;
  Stop_Character : Z
}.

Definition MBusDataLinkLayer : Construct MBusDataLinkLayer_t :=
  do header <- MBusDataLinkHeader ;;
  do transport <- MBusTransportLayer ;;
  do data <- Bytes (L_Field header - 5) ;;
  do checksum <- Checksum Int8ub (fun data => sum data mod 256)
                [ sum_bytes data;
                  C_Field header;
                  A_Field header;
                  CI_Field transport;
                  STSAP transport;
                  DTSAP transport ] ;;
  do stop <- Const 0x16 Int8ub ;;
  ret {| Header := header; TransportLayer := transport; Data := data;
         Checksum_ := checksum; Stop_Character := stop |}.

Record DLMSApplicationLayer_t : Type := {
  Ciphering_Service : Z;
  System_Title_Length : Z;
  System_Title : list Z;
  _length_peek : option Z;
  Length_Prefix : option Z;
  Length : Z;
  Security_Control_Byte : Z;
  Frame_Counter : list Z;
  Encrypted_Payload : list byte
}.

Definition DLMSApplicationLayer : Construct DLMSApplicationLayer_t :=
  do cs <- Const 0xDB Int8ub ;;
  do tl <- Const 0x08 Int8ub ;;
  do title <- Array 8 Int8ub ;;
  do peek <- Peek Int8ub ;;
  do prefix <- If (bool_decide (peek = Some 0x82)) Int8ub ;;
  do len <- (if bool_decide (peek = Some 0x82) then Int16ub else Int8ub) ;;
  do sc <- Const 0x21 Int8ub ;;
  do fc <- Array 4 Int8ub ;;
  do payload <- GreedyBytes ;;
  ret {| Ciphering_Service := cs; System_Title_Length := tl; System_Title := title;
         _length_peek := peek; Length_Prefix := prefix; Length := len;
         Security_Control_Byte := sc; Frame_Counter := fc;
         Encrypted_Payload := payload |}.

(** ** [binascii.unhexlify] *)

Definition hex_digit (c : ascii) : option Z :=
  let n := Z.of_N (N_of_ascii c) in
  if (48 <=? n) && (n <=? 57) then Some (n - 48)
  else if (97 <=? n) && (n <=? 102) then Some (n - 87)
  else if (65 <=? n) && (n <=? 70) then Some (n - 55)
  else None.

(** The bytes that the pairs of hexadecimal digits stand for; [None] for
    an odd number of characters or a character that is no hexadecimal
    digit. *)
Fixpoint hex_decode (hexstr : string) : option (list byte) :=
  match hexstr with
  | EmptyString => Some []
  | String _ EmptyString => None
  | String a (String b rest) =>
      match hex_digit a, hex_digit b, hex_decode rest with
      | Some h, Some l, Some bs => Some (z2b (16 * h + l) :: bs)
      | _, _, _ => None
      end
  end.

(** [str.isascii]: a [str] is a [string] here, a character outside ASCII
    one of value 128 or more. *)
Definition isascii (s : string) : bool :=
  forallb (fun c => (N_of_ascii c <? 128)%N) (list_ascii_of_string s).

(** [binascii.unhexlify] of a [str].  A string with a character outside
    ASCII is refused with a plain [ValueError] before anything is decoded;
    an odd number of characters and a character that is no hexadecimal digit
    are a [binascii.Error]. *)
Definition unhexlify (hexstr : string) : result (list byte) :=
  if isascii hexstr then
    match hex_decode hexstr with
    | Some data => Ok data
    | None => Err binascii_Error
    end
  else Err ValueError.

(** ** [DlmsTinetzFrame] *)

Module DlmsTinetzFrame.

Record t : Type := {
  _key : list byte;
  _length : Z;
  _system_title : list byte;
  _frame_counter : list byte;
  _frame_data : list byte
}.

(** [__init__], with [key_hex] a [str] as annotated; it raises what
    [unhexlify] raises. *)
Definition init (key_hex : string) (length : Z) (system_title frame_counter : list byte)
    : result t :=
  match unhexlify key_hex with
  | Ok key =>
      Ok {| _key := key; _length := length; _system_title := system_title;
            _frame_counter := frame_counter; _frame_data := [] |}
  | Err e => Err e
  end.

Definition len (self : t) : Z := Z.of_nat (length (_frame_data self)).

Definition extend (self : t) (data_chunk : list byte) : t :=
  {| _key := _key self; _length := _length self; _system_title := _system_title self;
     _frame_counter := _frame_counter self;
     _frame_data := _frame_data self ++ data_chunk |}.

Definition is_valid (self : t) : bool :=
  Z.of_nat (length (_frame_data self)) =? _length self.

Definition as_bytes (self : t) : list byte := _frame_data self.

End DlmsTinetzFrame.

(** ** [_ReaderBuffer] *)

Definition START_CHARACTER : Z := 0x68.

Module _ReaderBuffer.

(** The object holds one [bytearray], [self._buffer]. *)
Definition t : Type := list byte.

Definition init : t := [].

Definition size (self : t) : Z := Z.of_nat (length self).

Definition as_bytes (self : t) : list byte := self.

Definition extend (self : t) (data_chunk : list byte) : t := self ++ data_chunk.

(** The first position of a byte of value [sub]. *)
Fixpoint index (sub : Z) (l : list byte) : option nat :=
  match l with
  | [] => None
  | b :: r => if b2z b =? sub then Some O else S <$> index sub r
  end.

(** [bytearray.find(sub, start)]: the lowest position at or after
    [start] that holds [sub], or [-1]. *)
Definition find (self : t) (sub : Z) (start : nat) : Z :=
  match index sub (drop start self) with
  | Some i => Z.of_nat (start + i)
  | None => -1
  end.

(** [self[pos:]] for Python's slices: a negative [pos] counts from the
    end. *)
Definition slice_from (self : t) (pos : Z) : t :=
  if pos <? 0 then drop (Z.to_nat (Z.max 0 (Z.of_nat (length self) + pos))) self
  else drop (Z.to_nat pos) self.

Definition trim_buffer_to_start_character_or_end (self : t) : t :=
  let pos := find self START_CHARACTER 1 in
  if pos =? -1 then []
  else if pos >=? 1 then slice_from self pos
  else self.

Definition trim_buffer_to_pos (self : t) (pos : Z) : t := slice_from self pos.

End _ReaderBuffer.

(** ** [DlmsTinetzFrameReader] *)

Module DlmsTinetzFrameReader.

Record t : Type := {
  _buffer : _ReaderBuffer.t;
  _frame : option DlmsTinetzFrame.t;
  _key_hex : string
}.

Definition init (key_hex : string) : t :=
  {| _buffer := _ReaderBuffer.init; _frame := None; _key_hex := key_hex |}.

Definition is_in_hunt_mode (self : t) : bool :=
  match _frame self with None => true | Some _ => false end.

(** Lines 133-145: a first segment opens a frame while hunting, a later
    segment is appended to the open frame, everything else leaves
    [self._frame] as it is. *)
Definition accumulate (key_hex : string) (frame : option DlmsTinetzFrame.t)
    (mbus_data : MBusDataLinkLayer_t) : exn + option DlmsTinetzFrame.t :=
  let ci_field := CI_Field (TransportLayer mbus_data) in
  match frame with
  | None =>
      if Z.land ci_field 0x0F =? 0 then
        match parse DLMSApplicationLayer (Data mbus_data) with
        | Err e => inl e
        | Ok dlms_data =>
            match DlmsTinetzFrame.init key_hex (Length dlms_data - 5)
                    (map z2b (System_Title dlms_data))
                    (map z2b (Frame_Counter dlms_data)) with
            | Err e => inl e
            | Ok frame' =>
                inr (Some (DlmsTinetzFrame.extend frame' (Encrypted_Payload dlms_data)))
            end
        end
      else inr None
  | Some frame' =>
      if Z.land ci_field 0x0F >? 0
      then inr (Some (DlmsTinetzFrame.extend frame' (Data mbus_data)))
      else inr (Some frame')
  end.

(** Lines 147-153: on the last segment the open frame is handed out when
    it is valid, and dropped in any case.  The result is the new
    [self._frame] and what was appended to [frames_received]. *)
Definition complete (frame : option DlmsTinetzFrame.t) (ci_field : Z)
    : option DlmsTinetzFrame.t * option DlmsTinetzFrame.t :=
  match frame with
  | Some frame' =>
      if Z.land ci_field 0x10 =? 0x10 then
        (None, if DlmsTinetzFrame.is_valid frame' then Some frame' else None)
      else (Some frame', None)
  | None => (None, None)
  end.

(** The body of the inner [try], lines 130-153. *)
Definition try_frame (key_hex : string) (frame : option DlmsTinetzFrame.t)
    (buffer : list byte)
    : exn + (option DlmsTinetzFrame.t * option DlmsTinetzFrame.t) :=
  match parse MBusDataLinkLayer buffer with
  | Err e => inl e
  | Ok mbus_data =>
      match accumulate key_hex frame mbus_data with
      | inl e => inl e
      | inr frame' => inr (complete frame' (CI_Field (TransportLayer mbus_data)))
      end
  end.

(** What one pass through the [while] loop of [read] does. *)
Inductive iteration : Type :=
| LoopExit
| Break
| Next (self : t) (received : option DlmsTinetzFrame.t)
| Raise (e : exn).

Definition resync (self : t) : t :=
  {| _buffer := _ReaderBuffer.trim_buffer_to_start_character_or_end (_buffer self);
     _frame := None; _key_hex := _key_hex self |}.

Definition read_iteration (self : t) : iteration :=
  if _ReaderBuffer.size (_buffer self) >=? 6 then
    match parse MBusDataLinkHeader (_ReaderBuffer.as_bytes (_buffer self)) with
    | Ok header =>
        let data_len := L_Field header + 6 in
        if _ReaderBuffer.size (_buffer self) >=? data_len then
          match try_frame (_key_hex self) (_frame self)
                  (_ReaderBuffer.as_bytes (_buffer self)) with
          | inr (frame', received) =>
              Next {| _buffer := _ReaderBuffer.trim_buffer_to_pos (_buffer self) data_len;
                      _frame := frame'; _key_hex := _key_hex self |} received
          | inl (ConstructErr ChecksumError) =>
              Next {| _buffer := _ReaderBuffer.trim_buffer_to_pos (_buffer self) data_len;
                      _frame := None; _key_hex := _key_hex self |} None
          | inl (ConstructErr _) => Next (resync self) None
          | inl e => Raise e
          end
        else Break
    | Err (ConstructErr _) => Next (resync self) None
    | Err e => Raise e
    end
  else LoopExit.

(** The result of a call of [read]: the list it returns with the reader
    it leaves, or the exception that escapes. *)
Inductive outcome : Type :=
| Returned (frames_received : list DlmsTinetzFrame.t) (self : t)
| Raised (e : exn) (self : t)
| OutOfFuel.

Fixpoint read_loop (fuel : nat) (self : t) (frames_received : list DlmsTinetzFrame.t)
    : outcome :=
  match fuel with
  | O => OutOfFuel
  | S n =>
      match read_iteration self with
      | LoopExit | Break => Returned frames_received self
      | Next self' received =>
          read_loop n self' (frames_received ++ option_list received)
      | Raise e => Raised e self
      end
  end.

Definition extend (self : t) (data_chunk : list byte) : t :=
  {| _buffer := _ReaderBuffer.extend (_buffer self) data_chunk;
     _frame := _frame self; _key_hex := _key_hex self |}.

(** [read]: every pass but the last shortens the buffer, so one more pass
    than the buffer has bytes is enough fuel. *)
Definition read (self : t) (data_chunk : list byte) : outcome :=
  let self' := extend self data_chunk in
  read_loop (S (length (_buffer self'))) self' [].

(** Successive calls of [read] on the chunks of a stream, with the
    returned lists concatenated. *)
Fixpoint read_chunks (self : t) (chunks : list (list byte)) : outcome :=
  match chunks with
  | [] => Returned [] self
  | chunk :: rest =>
      match read self chunk with
      | Returned frames self' =>
          match read_chunks self' rest with
          | Returned frames' self'' => Returned (frames ++ frames') self''
          | other => other
          end
      | other => other
      end
  end.

End DlmsTinetzFrameReader.

(** ** [DlmsTinetzFrame.payload] and the cipher it calls *)

Definition byte_xor (a b : byte) : byte := z2b (Z.lxor (b2z a) (b2z b)).

(** The big-endian value of a byte string, and the four-byte big-endian
    encoding of a number. *)
Definition be_int (l : list byte) : Z := fold_left (fun acc b => acc * 256 + b2z b) l 0.

Definition be32 (n : Z) : list byte :=
  [z2b (n / 16777216); z2b (n / 65536); z2b (n / 256); z2b n].

Section AES_GCM.

(** The AES block function, key first: PyCryptodome's, which is not part
    of this repository. *)
Variable AES_encrypt_block : list byte -> list byte -> list byte.

(** GCM's first counter block for a nonce that is not 96 bits long (a
    GHASH of the nonce). *)
Variable ghash_j0 : list byte -> list byte -> list byte.

(** GCM's first counter block: a 96-bit nonce is followed by the 32-bit
    counter 1. *)
Definition gcm_j0 (key nonce : list byte) : list byte :=
  if (length nonce =? 12)%nat then nonce ++ be32 1 else ghash_j0 key nonce.

(** The counter block [k] steps after [block]: the last 32 bits count,
    modulo 2^32. *)
Definition inc32 (block : list byte) (k : Z) : list byte :=
  take 12 block ++ be32 ((be_int (drop 12 block) + k) mod 4294967296).

(** The key stream of [nblocks] blocks; the data blocks use the counters
    after the first one. *)
Definition gcm_keystream (key nonce : list byte) (nblocks : nat) : list byte :=
  concat (map (fun i => AES_encrypt_block key (inc32 (gcm_j0 key nonce) (Z.of_nat i + 1)))
              (seq 0 nblocks)).

(** [Python's zip]: the shorter argument decides the length. *)
Fixpoint xor_bytes (data stream : list byte) : list byte :=
  match data, stream with
  | d :: data', k :: stream' => byte_xor d k :: xor_bytes data' stream'
  | _, _ => []
  end.

(** The counter mode of GCM: the data is combined with the key stream,
    byte by byte; a last block that is not full takes the first bytes of
    its key-stream block. *)
Definition gcm_decrypt (key nonce ciphertext : list byte) : list byte :=
  xor_bytes ciphertext (gcm_keystream key nonce (Nat.div (length ciphertext + 15) 16)).

(** [cipher.encrypt(plaintext)] of a GCM cipher, the tag aside: what the
    sender of a frame computes from the message. *)
Definition gcm_encrypt (key nonce plaintext : list byte) : list byte :=
  xor_bytes plaintext (gcm_keystream key nonce (Nat.div (length plaintext + 15) 16)).

(** [AES.new(key, AES.MODE_GCM, nonce=nonce)]: a key of 16, 24 or 32
    bytes and a nonce that is not empty, or [ValueError]. *)
Definition AES_new_GCM (key nonce : list byte) : exn + (list byte * list byte) :=
  if negb (existsb (Nat.eqb (length key)) [16; 24; 32]%nat) then inl ValueError
  else if (length nonce =? 0)%nat then inl ValueError
  else inr (key, nonce).

(** [cipher.decrypt(ciphertext)], the first call on a new GCM cipher:
    counter mode, with no tag given and none checked ([decrypt_and_verify]
    and [verify] are the calls that check one).  The counter has 32 bits, so
    there is key stream for [2^32] blocks; for more than these [2^36] bytes
    the call raises [OverflowError]. *)
Definition decrypt (cipher : list byte * list byte) (ciphertext : list byte)
    : exn + list byte :=
  if 2 ^ 36 <? Z.of_nat (length ciphertext) then inl OverflowError
  else inr (gcm_decrypt (fst cipher) (snd cipher) ciphertext).

Definition payload (self : DlmsTinetzFrame.t) : exn + list byte :=
  let i_v := DlmsTinetzFrame._system_title self ++ DlmsTinetzFrame._frame_counter self in
  match AES_new_GCM (DlmsTinetzFrame._key self) i_v with
  | inl e => inl e
  | inr cipher => decrypt cipher (DlmsTinetzFrame._frame_data self)
  end.

End AES_GCM.

(** ** [han/kaifa_tinetz.py] *)

Module cosem.

(** Modelled from the spec: [cosem.CommonDataTypes], the type tags of the
    value encoding; [han/cosem.py] is not among the sources.  The members
    are those [kaifa_tinetz.py] names, any other tag is [other_type]. *)
Inductive CommonDataTypes_t : Type :=
| structure
| octet_string
| visible_string
| double_long_unsigned
| long
| long_unsigned
| other_type (tag : Z).

(** Modelled from the spec: the scaler of [cosem.ScalerUnitField], a
    signed scale exponent; its [scale] is the power of ten the unscaled
    value is multiplied by. *)
Record Scaler_t : Type := { exponent : Z }.

Definition scale (s : Scaler_t) : Q := Qpower (inject_Z 10) (exponent s).

(** Modelled from the spec: the value of [cosem.ScalerUnitField], a
    scaler and a unit code. *)
Record ScalerUnit_t : Type := { scaler : Scaler_t; unit : Z }.

End cosem.
Import cosem.

Global Instance CommonDataTypes_eq_dec : EqDecision CommonDataTypes_t.
Proof. solve_decision. Defined.

Section kaifa_tinetz.

(** What [kaifa_tinetz.py] takes from [han/cosem.py]: the numbering of the
    type tags and the field parsers. *)
Variable data_type_of_tag : Z -> CommonDataTypes_t.
Variable ObisCodeOctedStringField : Construct string.
Variable FieldValue : Type.
Variable Field : Construct FieldValue.
Variable VisibleString : Construct string.
Variable OctedStringText : Construct string.
Variable DateTime_t : Type.
Variable DateTime : Construct DateTime_t.
Variable DoubleLongUnsigned : Construct Z.
Variable Long : Construct Z.
Variable LongUnsigned : Construct Z.
Variable ScalerUnitField : Construct ScalerUnit_t.

(** [cosem.CommonDataTypes]: an enumeration over [Int8ub]. *)
Definition CommonDataTypes : Construct CommonDataTypes_t :=
  do tag <- Int8ub ;; ret (data_type_of_tag tag).

(** [Const(member, cosem.CommonDataTypes)] *)
Definition ConstType (member : CommonDataTypes_t) : Construct CommonDataTypes_t :=
  do x <- CommonDataTypes ;;
  if bool_decide (x = member) then ret x else fail ConstError.

Record SimpleElement_t : Type := {
  simple__element_type : option CommonDataTypes_t;
  simple_obis : string;
  simple_value_type : option CommonDataTypes_t;
  simple_value : FieldValue;
  simple__cnt : Z
}.

Definition SimpleElement : Construct SimpleElement_t :=
  do element_type <- Peek CommonDataTypes ;;
  do obis <- ObisCodeOctedStringField ;;
  do value_type <- Peek CommonDataTypes ;;
  do value <- Field ;;
  ret {| simple__element_type := element_type; simple_obis := obis;
         simple_value_type := value_type; simple_value := value;
         simple__cnt := 2 |}.

(** What the [content] of a structured element can be: a text, a
    date-time, or the inner structure of a number. *)
Inductive content_t : Type :=
| ContentText (s : string)
| ContentDateTime (d : DateTime_t)
| ContentScaled (unscaled_value : option Z) (scaler_unit : ScalerUnit_t) (value : Q).

(** The value an element exposes. *)
Inductive value_t : Type :=
| Text (s : string)
| Timestamp (d : DateTime_t)
| Number (q : Q).

(** The inner [Switch] has no default: another content type parses
    nothing and gives [None]. *)
Definition unscaled_value_of (content_type : CommonDataTypes_t) : Construct (option Z) :=
  match content_type with
  | double_long_unsigned => do x <- DoubleLongUnsigned ;; ret (Some x)
  | long => do x <- Long ;; ret (Some x)
  | long_unsigned => do x <- LongUnsigned ;; ret (Some x)
  | _ => ret None
  end.

(** The default branch of the outer [Switch]; multiplying [None] is a
    [TypeError]. *)
Definition ScaledContent (content_type : CommonDataTypes_t) : Construct content_t :=
  do unscaled_value <- unscaled_value_of content_type ;;
  do scaler_unit <- ScalerUnitField ;;
  match unscaled_value with
  | Some u => ret (ContentScaled unscaled_value scaler_unit
                     (inject_Z u * scale (scaler scaler_unit))%Q)
  | None => raise TypeError
  end.

Definition StructContent (content_type : CommonDataTypes_t) : Construct content_t :=
  match content_type with
  | visible_string => do s <- VisibleString ;; ret (ContentText s)
  | octet_string =>
      Select (do d <- DateTime ;; ret (ContentDateTime d))
             (do s <- OctedStringText ;; ret (ContentText s))
  | _ => ScaledContent content_type
  end.

(** [ctx.content.value if hasattr(ctx.content, "value") else ctx.content] *)
Definition exposed_value (content : content_t) : value_t :=
  match content with
  | ContentScaled _ _ value => Number value
  | ContentText s => Text s
  | ContentDateTime d => Timestamp d
  end.

Record StructElement_t : Type := {
  struct_length : Z;
  struct_obis : string;
  struct_content_type : CommonDataTypes_t;
  struct_content : content_t;
  struct_value : value_t;
  struct__cnt : Z
}.

Definition StructElement : Construct StructElement_t :=
  do _ <- ConstType structure ;;
  do len <- Int8ub ;;
  do obis <- ObisCodeOctedStringField ;;
  do content_type <- CommonDataTypes ;;
  do content <- StructContent content_type ;;
  ret {| struct_length := len; struct_obis := obis; struct_content_type := content_type;
         struct_content := content; struct_value := exposed_value content;
         struct__cnt := 1 |}.

Inductive Element_t : Type :=
| Simple (e : SimpleElement_t)
| Struct (e : StructElement_t).

Definition _cnt (item : Element_t) : Z :=
  match item with
  | Simple e => simple__cnt e
  | Struct e => struct__cnt e
  end.

Definition Element : Construct Element_t :=
  Select (do e <- SimpleElement ;; ret (Simple e))
         (do e <- StructElement ;; ret (Struct e)).

Record NotificationBodyObisElements_t : Type := {
  _fields : Z;
  list_items : list Element_t
}.

(** [fuel] bounds the number of items [GreedyRange] reads; [None] when it
    does not suffice. *)
Definition NotificationBodyObisElements (fuel : nat) (s : list byte)
    : option (result (NotificationBodyObisElements_t * list byte)) :=
  match ConstType structure s with
  | Err e => Some (Err e)
  | Ok (_, s1) =>
      match Int8ub s1 with
      | Err e => Some (Err e)
      | Ok (fields, s2) =>
          match GreedyRange fuel Element s2 with
          | None => None
          | Some (Err e) => Some (Err e)
          | Some (Ok (items, s3)) =>
              Some ((do _ <- Check (fields =? sum (map _cnt items)) ;;
                     ret {| _fields := fields; list_items := items |}) s3)
          end
      end
  end.

End kaifa_tinetz.

Arguments Simple {FieldValue DateTime_t} e.
Arguments Struct {FieldValue DateTime_t} e.
Arguments ContentText {DateTime_t} s.
Arguments ContentDateTime {DateTime_t} d.
Arguments ContentScaled {DateTime_t} unscaled_value scaler_unit value.
Arguments Text {DateTime_t} s.
Arguments Timestamp {DateTime_t} d.
Arguments Number {DateTime_t} q.
Arguments _cnt {FieldValue DateTime_t} item.

(** ** Example frames *)

(** The bytes of a physical frame with control field 0x53, the given CI
    field and payload, and a correct checksum. *)
Definition physical_frame (ci : Z) (data : list byte) : list byte :=
  let l := Z.of_nat (length data) + 5 in
  [x68; z2b l; z2b l; x68; x53; xff; z2b ci; x01; x67] ++ data ++
  [z2b ((sum_bytes data + 0x53 + 0xFF + ci + 0x01 + 0x67) mod 256); x16].

(** A ciphering header with system title 01..08, a one-byte length field
    and frame counter 0000002a, followed by the ciphertext. *)
Definition ciphered (len : Z) (ciphertext : list byte) : list byte :=
  [xdb; x08; x01; x02; x03; x04; x05; x06; x07; x08; z2b len; x21; x00; x00; x00; x2a]
  ++ ciphertext.

(** A message of three ciphertext bytes in one physical frame. *)
Definition single_frame : list byte := physical_frame 0x10 (ciphered 8 [xaa; xbb; xcc]).

(** [single_frame] with its checksum byte changed. *)
Definition corrupted_frame : list byte := take 28 single_frame ++ [x00; x16].

(** The start of a physical frame with a good header, of length field
    0xFF, and the CI value 0x7F, which is not allowed. *)
Definition disallowed_ci_head : list byte := [x68; xff; xff; x68; x53; xff; x7f].

(** A frame that is being assembled: one byte of two is there. *)
Definition open_frame : DlmsTinetzFrame.t :=
  {| DlmsTinetzFrame._key := [x00]; DlmsTinetzFrame._length := 2;
     DlmsTinetzFrame._system_title := [x01; x02; x03; x04; x05; x06; x07; x08];
     DlmsTinetzFrame._frame_counter := [x00; x00; x00; x29];
     DlmsTinetzFrame._frame_data := [xaa] |}.

(** A key that is not ASCII: the two bytes of a small e with an acute
    accent. *)
Definition non_ascii_key : string := String "195" (String "169" EmptyString).

(** ** Notions the statements use *)

(** [pos] is the first position from 1 on at which [buf] holds the start
    character. *)
Definition first_start_from_1 (buf : list byte) (pos : nat) : Prop :=
  (1 <= pos)%nat /\
  (exists b, buf !! pos = Some b /\ b2z b = START_CHARACTER) /\
  (forall q b, (1 <= q < pos)%nat -> buf !! q = Some b -> b2z b <> START_CHARACTER).

(** [buf] holds no start character from position 1 on. *)
Definition no_start_from_1 (buf : list byte) : Prop :=
  forall q b, (1 <= q)%nat -> buf !! q = Some b -> b2z b <> START_CHARACTER.

(** The checksum a physical frame must carry. *)
Definition expected_checksum (header : MBusDataLinkHeader_t)
    (transport : MBusTransportLayer_t) (data : list byte) : Z :=
  (sum_bytes data + C_Field header + A_Field header
   + CI_Field transport + STSAP transport + DTSAP transport) mod 256.

(** What follows the length field in [DLMSApplicationLayer]. *)
Definition ciphering_rest (title : list Z) (peek prefix : option Z) (len : Z)
    : Construct DLMSApplicationLayer_t :=
  do sc <- Const 0x21 Int8ub ;;
  do fc <- Array 4 Int8ub ;;
  do payload <- GreedyBytes ;;
  ret {| Ciphering_Service := 0xDB; System_Title_Length := 0x08; System_Title := title;
         _length_peek := peek; Length_Prefix := prefix; Length := len;
         Security_Control_Byte := sc; Frame_Counter := fc;
         Encrypted_Payload := payload |}.


(** The structural weight of a list item. *)
Definition weight {FieldValue DateTime_t : Type} (item : Element_t FieldValue DateTime_t) : Z :=
  match item with
  | Simple _ => 2
  | Struct _ => 1
  end.

(** ** Example field parsers

    Field parsers with the standard DLMS tag numbers, to run the decoder
    on concrete notifications. *)
Module example_cosem.

Definition data_type_of_tag (tag : Z) : CommonDataTypes_t :=
  if tag =? 2 then structure
  else if tag =? 6 then double_long_unsigned
  else if tag =? 9 then octet_string
  else if tag =? 10 then visible_string
  else if tag =? 16 then long
  else if tag =? 18 then long_unsigned
  else other_type tag.

Definition Int8sb : Construct Z :=
  do x <- Int8ub ;; ret (if x <? 128 then x else x - 256).

Definition Int16sb : Construct Z :=
  do x <- Int16ub ;; ret (if x <? 32768 then x else x - 65536).

Definition Int32ub : Construct Z :=
  do hi <- Int16ub ;; do lo <- Int16ub ;; ret (hi * 65536 + lo).

Definition text (bs : list byte) : string :=
  string_of_list_ascii (map ascii_of_byte bs).

Definition ObisCodeOctedStringField : Construct string :=
  do _ <- Const 9 Int8ub ;;
  do _ <- Const 6 Int8ub ;;
  do code <- Bytes 6 ;;
  ret (text code).

(** A double-long-unsigned (tag 6), a long (tag 16) or a long-unsigned
    (tag 18) value; a value of any other type is refused by the construct
    [Error], the default of the [Switch] over the type tag. *)
Definition Field : Construct Z :=
  do tag <- Int8ub ;;
  if tag =? 6 then Int32ub
  else if tag =? 16 then Int16sb
  else if tag =? 18 then Int16ub
  else fail ExplicitError.

Definition VisibleString : Construct string :=
  do n <- Int8ub ;; do bs <- Bytes n ;; ret (text bs).

Definition OctedStringText : Construct string :=
  do n <- Int8ub ;; do bs <- Bytes n ;; ret (text bs).

Definition DateTime : Construct (list byte) :=
  do _ <- Const 12 Int8ub ;; Bytes 12.

Definition ScalerUnitField : Construct ScalerUnit_t :=
  do _ <- Const 2 Int8ub ;;
  do _ <- Const 2 Int8ub ;;
  do _ <- Const 15 Int8ub ;;
  do e <- Int8sb ;;
  do _ <- Const 22 Int8ub ;;
  do u <- Int8ub ;;
  ret {| scaler := {| exponent := e |}; unit := u |}.

Definition StructElement : Construct (StructElement_t (list byte)) :=
  StructElement data_type_of_tag ObisCodeOctedStringField VisibleString OctedStringText
    (list byte) DateTime Int32ub Int16sb Int16ub ScalerUnitField.

Definition Element : Construct (Element_t Z (list byte)) :=
  Element data_type_of_tag ObisCodeOctedStringField Z Field VisibleString OctedStringText
    (list byte) DateTime Int32ub Int16sb Int16ub ScalerUnitField.

Definition NotificationBodyObisElements :=
  NotificationBodyObisElements data_type_of_tag ObisCodeOctedStringField Z Field
    VisibleString OctedStringText (list byte) DateTime Int32ub Int16sb Int16ub
    ScalerUnitField.

(** The voltage 1-0:32.7.0.255 as a long-unsigned 2350 with scaler -1
    and unit 35. *)
Definition voltage_element : list byte :=
  [x02; x03; x09; x06; x01; x00; x20; x07; x00; xff; x12; x09; x2e;
   x02; x02; x0f; xff; x16; x23].

(** A simple element: an OBIS code and a long-unsigned 5. *)
Definition simple_element : list byte :=
  [x09; x06; x00; x00; x60; x01; x00; xff; x12; x00; x05].

(** A simple element whose value has the type tag 3, of a boolean. *)
Definition boolean_element : list byte :=
  [x09; x06; x00; x00; x60; x01; x00; xff; x03; x05].

End example_cosem.


(** ** Notions the proofs use *)

Import _ReaderBuffer.
Import DlmsTinetzFrameReader.

(** [ext r c]: the result [r] of a parse when [c] is appended to the
    stream. *)
Definition ext {A} (r : result (A * list byte)) (c : list byte) : result (A * list byte) :=
  match r with
  | Ok (a, s) => Ok (a, s ++ c)
  | Err e => Err e
  end.

(** A construct of fixed width [n]: with [n] bytes in the stream, more
    bytes behind them change nothing, and a success consumes [n] bytes. *)
Definition fixed {A} (n : nat) (p : Construct A) : Prop :=
  forall s,
    ((n <= length s)%nat -> forall c, p (s ++ c) = ext (p s) c) /\
    (forall a r, p s = Ok (a, r) -> length s = (length r + n)%nat).

(** What follows the header in [MBusDataLinkLayer]. *)
Definition frame_rest (header : MBusDataLinkHeader_t) : Construct MBusDataLinkLayer_t :=
  do transport <- MBusTransportLayer ;;
  do data <- Bytes (L_Field header - 5) ;;
  do checksum <- Checksum Int8ub (fun data => sum data mod 256)
                [ sum_bytes data;
                  C_Field header;
                  A_Field header;
                  CI_Field transport;
                  STSAP transport;
                  DTSAP transport ] ;;
  do stop <- Const 0x16 Int8ub ;;
  ret {| Header := header; TransportLayer := transport; Data := data;
         Checksum_ := checksum; Stop_Character := stop |}.

(** The buffer from its first start character on, or nothing. *)
Definition skip_to_start (c : list byte) : list byte :=
  match index START_CHARACTER c with
  | Some i => drop i c
  | None => []
  end.

(** The loop of [read], started on a reader as it is. *)
Definition run (self : t) : outcome := read_loop (S (length (_buffer self))) self [].

(** [frames] put in front of what a run returns. *)
Definition prepend (frames : list DlmsTinetzFrame.t) (o : outcome) : outcome :=
  match o with
  | Returned frames' self => Returned (frames ++ frames') self
  | other => other
  end.

(** A run ends in a reader on which the loop has nothing to do. *)
Definition at_rest (self : t) : Prop :=
  read_iteration self = LoopExit \/ read_iteration self = Break.

(** What the handlers of [read] make of the outcome of the inner [try]. *)
Definition handle (self : t) (data_len : Z)
    (res : exn + (option DlmsTinetzFrame.t * option DlmsTinetzFrame.t)) : iteration :=
  match res with
  | inr (frame', received) =>
      Next {| _buffer := trim_buffer_to_pos (_buffer self) data_len;
              _frame := frame'; _key_hex := _key_hex self |} received
  | inl (ConstructErr ChecksumError) =>
      Next {| _buffer := trim_buffer_to_pos (_buffer self) data_len;
              _frame := None; _key_hex := _key_hex self |} None
  | inl (ConstructErr _) => Next (resync self) None
  | inl e => Raise e
  end.

(** A reader in hunt mode: the given buffer and no open frame. *)
Definition hunting (buffer : list byte) (key_hex : string) : t :=
  {| _buffer := buffer; _frame := None; _key_hex := key_hex |}.

(** How a pass on the longer buffer relates to the pass [i] on the shorter
    one. *)
Definition pass_extends (self : t) (c : list byte) (i i' : iteration) : Prop :=
  match i with
  | LoopExit | Break => True
  | Raise e => i' = Raise e
  | Next self' received =>
      i' = Next (extend self' c) received \/
      (received = None /\ self' = hunting [] (_key_hex self) /\
       i' = Next (hunting (skip_to_start c) (_key_hex self)) None)
  end.

(** Two calls end alike: they return the same frames, or the same
    exception escapes. *)
Definition same_result (o1 o2 : outcome) : Prop :=
  match o1, o2 with
  | Returned f1 _, Returned f2 _ => f1 = f2
  | Raised e1 _, Raised e2 _ => e1 = e2
  | _, _ => False
  end.

(** A call of [read] after a run. *)
Definition then_read (o : outcome) (c : list byte) : outcome :=
  match o with
  | Returned frames self => prepend frames (read self c)
  | other => other
  end.

(** A construct that raises [ConstructError]s only. *)
Definition construct_errors {A} (p : Construct A) : Prop :=
  forall s e, p s = Err e -> exists ce, e = ConstructErr ce.

(** What [read] maintains of a frame: an eight-byte system title, a
    four-byte frame counter, the decoded key of the reader, and a declared
    length that comes from a field of two bytes at most. *)
Definition frame_of_reader (key_hex : string) (f : DlmsTinetzFrame.t) : Prop :=
  length (DlmsTinetzFrame._system_title f) = 8%nat /\
  length (DlmsTinetzFrame._frame_counter f) = 4%nat /\
  unhexlify key_hex = Ok (DlmsTinetzFrame._key f) /\
  DlmsTinetzFrame._length f < 65536.

Definition open_frame_of_reader (self : t) : Prop :=
  forall f, _frame self = Some f -> frame_of_reader (_key_hex self) f.

(** ** Segments on the wire *)

(** The bytes of a physical frame that carries [data]: the header with the
    length byte twice, control field [c] and address 0xFF, the transport
    sub-header with CI field [ci], the payload, its checksum and the stop
    character. *)
Definition mbus_frame (c ci : Z) (data : list byte) : list byte :=
  let l := Z.of_nat (length data) + 5 in
  [x68; z2b l; z2b l; x68; z2b c; xff; z2b ci; x01; x67] ++ data ++
  [z2b ((sum_bytes data + c + 0xFF + ci + 0x01 + 0x67) mod 256); x16].

(** The values [mbus_frame] may be built from: an allowed control field,
    a CI within [range(0x00, 0x1F)], and a payload that the length byte can
    count. *)
Definition segment_ok (c ci : Z) (data : list byte) : Prop :=
  (c = 0x53 \/ c = 0x73) /\ 0 <= ci < 0x1F /\ (length data <= 250)%nat.

(** What [MBusDataLinkLayer] reads from [mbus_frame c ci data]. *)
Definition mbus_frame_parsed (c ci : Z) (data : list byte) : MBusDataLinkLayer_t :=
  {| Header := {| Start_Character := 0x68; L_Field := Z.of_nat (length data) + 5;
                  _L_Field := Z.of_nat (length data) + 5; C_Field := c; A_Field := 0xFF |};
     TransportLayer := {| CI_Field := ci; STSAP := 0x01; DTSAP := 0x67 |};
     Data := data;
     Checksum_ := (sum_bytes data + c + 0xFF + ci + 0x01 + 0x67) mod 256;
     Stop_Character := 0x16 |}.

(** The frame [read] opens for a ciphering header [d], lines 136-142. *)
Definition frame_of_header (key : list byte) (d : DLMSApplicationLayer_t) : DlmsTinetzFrame.t :=
  {| DlmsTinetzFrame._key := key;
     DlmsTinetzFrame._length := Length d - 5;
     DlmsTinetzFrame._system_title := map z2b (System_Title d);
     DlmsTinetzFrame._frame_counter := map z2b (Frame_Counter d);
     DlmsTinetzFrame._frame_data := Encrypted_Payload d |}.

(** A reader that is assembling [f], with nothing buffered. *)
Definition assembling (f : DlmsTinetzFrame.t) (key_hex : string) : t :=
  {| _buffer := []; _frame := Some f; _key_hex := key_hex |}.

(** The bytes of continuation segments, one after the other; a segment is
    its control field, its CI field and its payload. *)
Definition segments_bytes (segments : list (Z * Z * list byte)) : list byte :=
  concat (map (fun s => mbus_frame (fst (fst s)) (snd (fst s)) (snd s)) segments).

(** A continuation segment that is not the last: the low nibble of CI is
    not 0 and bit 0x10 is clear. *)
Definition middle_segment (s : Z * Z * list byte) : Prop :=
  segment_ok (fst (fst s)) (snd (fst s)) (snd s) /\
  Z.land (snd (fst s)) 0x0F > 0 /\ Z.land (snd (fst s)) 0x10 <> 0x10.

(** ** [_normalize_parsed_obis_elements_frame] *)

(** A Python [dict] with string keys: the items in the order of their
    insertion.  Assigning to a key that is there replaces its value in
    place, assigning to a new key appends. *)
Module dict.

Definition t (V : Type) : Type := list (string * V).

Fixpoint setitem {V} (d : t V) (k : string) (v : V) : t V :=
match d with
| [] => [(k, v)]
| (k', v') :: rest =>
    if String.eqb k' k then (k', v) :: rest else (k', v') :: setitem rest k v
end.

Fixpoint get {V} (d : t V) (k : string) : option V :=
match d with
| [] => None
| (k', v') :: rest => if String.eqb k' k then Some v' else get rest k
end.

Definition keys {V} (d : t V) : list string := map fst d.

End dict.

Section normalize.

Variable FieldValue : Type.
Variable DateTime_t : Type.

(** The [datetime.datetime] objects. *)
Variable datetime_t : Type.

(** [Obis.from_string(obis).to_group_cdr_str()], of [han/obis.py]. *)
Variable to_group_cdr_str : string -> result string.

(** [obis_map.obis_name_map] and [obis_map.FIELD_METER_MANUFACTURER]. *)
Variable obis_name_map : dict.t string.
Variable FIELD_METER_MANUFACTURER : string.

(** The attribute [datetime] of a parsed date-time and of a field value,
  where it has one. *)
Variable DateTime_datetime : DateTime_t -> option datetime_t.
Variable Field_datetime : FieldValue -> option datetime_t.

(** The values that are stored in the dictionary. *)
Inductive py_value : Type :=
| PyStr (s : string)
| PyNumber (q : Q)
| PyDateTime (d : DateTime_t)
| PyField (v : FieldValue)
| PyDatetime (d : datetime_t).

(** [measure.obis] and [measure.value] *)
Definition measure_obis (measure : Element_t FieldValue DateTime_t) : string :=
match measure with
| Simple e => simple_obis _ e
| Struct e => struct_obis _ e
end.

Definition measure_value (measure : Element_t FieldValue DateTime_t) : py_value :=
match measure with
| Simple e => PyField (simple_value _ e)
| Struct e =>
    match struct_value _ e with
    | Text s => PyStr s
    | Timestamp d => PyDateTime d
    | Number q => PyNumber q
    end
end.

(** [value.datetime] where [hasattr(value, "datetime")]; strings and
  numbers have no such attribute. *)
Definition getattr_datetime (value : py_value) : option datetime_t :=
match value with
| PyDateTime d => DateTime_datetime d
| PyField v => Field_datetime v
| PyStr _ | PyNumber _ | PyDatetime _ => None
end.

(** Lines 73-82: the key and the value one measure is stored under. *)
Definition entry (measure : Element_t FieldValue DateTime_t) : result (string * py_value) :=
match to_group_cdr_str (measure_obis measure) with
| Err e => Err e
| Ok obis_group_cdr =>
    let element_name :=
      match dict.get obis_name_map obis_group_cdr with
      | Some name => name
      | None => obis_group_cdr
      end in
    Ok (element_name,
        match getattr_datetime (measure_value measure) with
        | Some d => PyDatetime d
        | None => measure_value measure
        end)
end.

(** The value stored last under [k] among [entries], if any. *)
Definition last_stored (entries : list (string * py_value)) (k : string)
  : option py_value :=
snd <$> List.find (fun e => String.eqb (fst e) k) (rev entries).

(** The [for] loop. *)
Fixpoint normalize_loop (list_items : list (Element_t FieldValue DateTime_t))
  (dictionary : dict.t py_value) : result (dict.t py_value) :=
match list_items with
| [] => Ok dictionary
| measure :: rest =>
    match entry measure with
    | Err e => Err e
    | Ok (element_name, v) => normalize_loop rest (dict.setitem dictionary element_name v)
    end
end.

(** What the function reads of the parsed [LlcPdu]. *)
Record LlcPdu_t : Type := {
notification_body : NotificationBodyObisElements_t FieldValue DateTime_t
}.

Definition _normalize_parsed_obis_elements_frame (frame : LlcPdu_t)
  : result (dict.t py_value) :=
normalize_loop (list_items _ _ (notification_body frame))
  [(FIELD_METER_MANUFACTURER, PyStr "KaifaTINETZ")].

End normalize.

Arguments PyStr {FieldValue DateTime_t datetime_t} s.
Arguments PyNumber {FieldValue DateTime_t datetime_t} q.
Arguments PyDateTime {FieldValue DateTime_t datetime_t} d.
Arguments PyField {FieldValue DateTime_t datetime_t} v.
Arguments PyDatetime {FieldValue DateTime_t datetime_t} d.

(** An OBIS name map with one entry, OBIS codes that are their own group
    and are refused when empty, and a notification of three measures, to
    run the function on. *)
Module example_obis.

Definition FIELD_METER_MANUFACTURER : string := "meter_manufacturer".

Definition obis_name_map : dict.t string := [("32.7.0"%string, "voltage_l1"%string)].

Definition to_group_cdr_str (obis : string) : result string :=
if String.eqb obis "" then Err ValueError else Ok obis.

Definition measure (obis : string) (q : Q) : Element_t Z (list byte) :=
Struct {| struct_length := 3; struct_obis := obis; struct_content_type := long_unsigned;
          struct_content :=
            ContentScaled (Some 0) {| scaler := {| exponent := 0 |}; unit := 0 |} q;
          struct_value := Number q; struct__cnt := 1 |}.

Definition frame : LlcPdu_t Z (list byte) :=
{| notification_body :=
     {| _fields := 3;
        list_items := [measure "32.7.0" 1; measure "1.8.0" 2; measure "32.7.0" 3] |} |}.

Definition entry : Element_t Z (list byte) -> result (string * py_value Z (list byte) (list byte)) :=
entry Z (list byte) (list byte) to_group_cdr_str obis_name_map
  (fun d => Some d) (fun _ => None).

Definition _normalize_parsed_obis_elements_frame
  : LlcPdu_t Z (list byte) -> result (dict.t (py_value Z (list byte) (list byte))) :=
_normalize_parsed_obis_elements_frame Z (list byte) (list byte) to_group_cdr_str
  obis_name_map FIELD_METER_MANUFACTURER (fun d => Some d) (fun _ => None).

Definition dictionary : dict.t (py_value Z (list byte) (list byte)) :=
[("meter_manufacturer"%string, PyStr "KaifaTINETZ");
 ("voltage_l1"%string, PyNumber 3);
 ("1.8.0"%string, PyNumber 2)].

End example_obis.

(** ** [reader_async.py]: the host argument *)

Module reader_async.

(** [str.split(sep)] for a separator of one character: the pieces
  between the separators, empty ones included. *)
Fixpoint str_split (sep : ascii) (s : string) : list string :=
match s with
| EmptyString => [EmptyString]
| String c rest =>
    if Ascii.eqb c sep then EmptyString :: str_split sep rest
    else
      match str_split sep rest with
      | part :: parts => String c part :: parts
      | [] => [String c EmptyString]
      end
end.

Inductive ArgumentTypeError : Type :=
| ArgumentTypeError_ (msg : string).

(** [valid_host_port], the [type] of the [-host] argument; [inl] is the
  exception raised. *)
Definition valid_host_port (host_port : string) : ArgumentTypeError + (string * string) :=
match str_split ":" host_port with
| [host; port] => inr (host, port)
| _ =>
    inl (ArgumentTypeError_
           (String.append "Not a valid host and port: '"
              (String.append host_port "'.")))
end.

End reader_async.

(** * Properties *)

(** ** Bytes and parsers *)

Lemma b2z_range (b : byte) : 0 <= b2z b < 256.
Proof.
  unfold b2z. pose proof (Byte.to_N_bounded b). lia.
Qed.

Lemma b2z_z2b (z : Z) : b2z (z2b z) = z mod 256.
Proof.
  unfold b2z, z2b. pose proof (Z.mod_pos_bound z 256 ltac:(lia)) as Hm.
  destruct (Byte.of_N (Z.to_N (z mod 256))) as [b|] eqn:E.
  - apply Byte.to_of_N in E. rewrite E. lia.
  - apply Byte.of_N_None_iff in E. lia.
Qed.

Lemma b2z_z2b_small (z : Z) : 0 <= z < 256 -> b2z (z2b z) = z.
Proof. intros H. rewrite b2z_z2b. apply Z.mod_small, H. Qed.

Lemma z2b_b2z (b : byte) : z2b (b2z b) = b.
Proof.
  unfold z2b. rewrite Z.mod_small by apply b2z_range.
  unfold b2z. rewrite N2Z.id, Byte.of_to_N. reflexivity.
Qed.

Lemma byte_of_b2z (b : byte) (z : Z) : b2z b = z -> b = z2b z.
Proof. intros <-. symmetry. apply z2b_b2z. Qed.

Lemma fixed_ret {A} (a : A) : fixed 0 (ret a).
Proof.
  intros s; split; [reflexivity|].
  unfold ret; intros a' r [= _ <-]; lia.
Qed.

Lemma fixed_raise {A} (e : exn) : fixed 0 (@raise A e).
Proof. intros s; split; [reflexivity|discriminate]. Qed.

Lemma fixed_bind {A B} (n m : nat) (p : Construct A) (k : A -> Construct B) :
  fixed n p -> (forall a, fixed m (k a)) -> fixed (n + m) (bind p k).
Proof.
  intros Hp Hk s; destruct (Hp s) as [Hp1 Hp2]; split.
  - intros Hlen c. unfold bind. rewrite Hp1 by lia.
    destruct (p s) as [[a r]|e]; simpl; [|reflexivity].
    specialize (Hp2 a r eq_refl). apply (Hk a r). lia.
  - intros b r. unfold bind.
    destruct (p s) as [[a r']|e]; [|discriminate].
    intros Hb. specialize (Hp2 a r' eq_refl). apply (Hk a r') in Hb. lia.
Qed.

Lemma fixed_Int8ub : fixed 1 Int8ub.
Proof.
  intros [|b s]; split; simpl; try lia; try discriminate.
  - reflexivity.
  - intros a r [= _ <-]; lia.
Qed.

Lemma fixed_if {A} (n : nat) (b : bool) (p q : Construct A) :
  fixed n p -> fixed n q -> fixed n (if b then p else q).
Proof. destruct b; trivial. Qed.

Lemma fixed_Const (v : Z) : fixed 1 (Const v Int8ub).
Proof.
  apply (fixed_bind 1 0); [apply fixed_Int8ub|].
  intros a; apply fixed_if; [apply fixed_ret|apply fixed_raise].
Qed.

Lemma fixed_OneOf (valids : list Z) : fixed 1 (OneOf Int8ub valids).
Proof.
  apply (fixed_bind 1 0); [apply fixed_Int8ub|].
  intros a; apply fixed_if; [apply fixed_ret|apply fixed_raise].
Qed.

Lemma fixed_Check (b : bool) : fixed 0 (Check b).
Proof. apply fixed_if; [apply fixed_ret|apply fixed_raise]. Qed.

Lemma fixed_Checksum (hashfunc : list Z -> Z) (data : list Z) :
  fixed 1 (Checksum Int8ub hashfunc data).
Proof.
  apply (fixed_bind 1 0); [apply fixed_Int8ub|].
  intros a; apply fixed_if; [apply fixed_ret|apply fixed_raise].
Qed.

Lemma fixed_Bytes (n : Z) : 0 <= n -> fixed (Z.to_nat n) (Bytes n).
Proof.
  intros Hn s; unfold Bytes.
  destruct (Z.ltb_spec n 0); [lia|]. split.
  - intros Hlen c.
    destruct (Nat.ltb_spec (length s) (Z.to_nat n)); [lia|].
    destruct (Nat.ltb_spec (length (s ++ c)) (Z.to_nat n)).
    + rewrite length_app in *; lia.
    + simpl. rewrite take_app_le, drop_app_le by lia. reflexivity.
  - intros a r. destruct (Nat.ltb_spec (length s) (Z.to_nat n)); [discriminate|].
    intros [= _ <-]. rewrite length_drop. lia.
Qed.

Lemma fixed_parse {A} (n : nat) (p : Construct A) (s c : list byte) :
  fixed n p -> (n <= length s)%nat -> parse p (s ++ c) = parse p s.
Proof.
  intros Hp Hlen. unfold parse. rewrite (proj1 (Hp s) Hlen).
  destruct (p s) as [[a r]|e]; reflexivity.
Qed.

Lemma fixed_MBusDataLinkHeader : fixed 6 MBusDataLinkHeader.
Proof.
  unfold MBusDataLinkHeader.
  apply (fixed_bind 1 5); [apply fixed_Const|intros _].
  apply (fixed_bind 1 4); [apply fixed_Int8ub|intros l].
  apply (fixed_bind 1 3); [apply fixed_Int8ub|intros l'].
  apply (fixed_bind 0 3); [apply fixed_Check|intros _].
  apply (fixed_bind 1 2); [apply fixed_Const|intros st].
  apply (fixed_bind 1 1); [apply fixed_OneOf|intros c].
  apply (fixed_bind 1 0); [apply fixed_Const|intros a].
  apply fixed_ret.
Qed.

Lemma fixed_MBusTransportLayer : fixed 3 MBusTransportLayer.
Proof.
  unfold MBusTransportLayer.
  apply (fixed_bind 1 2); [apply fixed_OneOf|intros ci].
  apply (fixed_bind 1 1); [apply fixed_Const|intros st].
  apply (fixed_bind 1 0); [apply fixed_Const|intros dt].
  apply fixed_ret.
Qed.

Lemma MBusDataLinkLayer_eq : MBusDataLinkLayer = bind MBusDataLinkHeader frame_rest.
Proof. reflexivity. Qed.

Lemma fixed_frame_rest (header : MBusDataLinkHeader_t) :
  5 <= L_Field header -> fixed (Z.to_nat (L_Field header)) (frame_rest header).
Proof.
  intros HL. unfold frame_rest.
  replace (Z.to_nat (L_Field header))
    with (3 + (Z.to_nat (L_Field header - 5) + (1 + (1 + 0))))%nat by lia.
  apply fixed_bind; [apply fixed_MBusTransportLayer|intros t].
  apply fixed_bind; [apply fixed_Bytes; lia|intros d].
  apply fixed_bind; [apply fixed_Checksum|intros cs].
  apply fixed_bind; [apply fixed_Const|intros st].
  apply fixed_ret.
Qed.

(** ** The data-link header *)

Lemma MBusDataLinkHeader_length (s : list byte) (h : MBusDataLinkHeader_t) :
  parse MBusDataLinkHeader s = Ok h -> (6 <= length s)%nat.
Proof.
  unfold parse. destruct (MBusDataLinkHeader s) as [[a r]|e] eqn:E; [|discriminate].
  intros _. apply (proj2 (fixed_MBusDataLinkHeader s)) in E. lia.
Qed.

(** The header on six explicit bytes. *)
Lemma MBusDataLinkHeader_bytes (b0 b1 b2 b3 b4 b5 : byte) (r : list byte) :
  MBusDataLinkHeader (b0 :: b1 :: b2 :: b3 :: b4 :: b5 :: r) =
    if negb (b2z b0 =? 0x68) then Err (ConstructErr ConstError)
    else if negb (b2z b2 =? b2z b1) then Err (ConstructErr CheckError)
    else if negb (b2z b3 =? 0x68) then Err (ConstructErr ConstError)
    else if negb ((b2z b4 =? 0x53) || (b2z b4 =? 0x73)) then Err (ConstructErr ValidationError)
    else if negb (b2z b5 =? 0xFF) then Err (ConstructErr ConstError)
    else Ok ({| Start_Character := b2z b3; L_Field := b2z b1; _L_Field := b2z b2;
                C_Field := b2z b4; A_Field := b2z b5 |}, r).
Proof.
  unfold MBusDataLinkHeader, Const, OneOf, Check, bind, Int8ub, ret, fail, raise, existsb.
  destruct (b2z b0 =? 104); simpl; [|reflexivity].
  destruct (b2z b2 =? b2z b1); simpl; [|reflexivity].
  destruct (b2z b3 =? 104); simpl; [|reflexivity].
  destruct (b2z b4 =? 83); simpl.
  - destruct (b2z b5 =? 255); reflexivity.
  - destruct (b2z b4 =? 115); simpl; [|reflexivity].
    destruct (b2z b5 =? 255); reflexivity.
Qed.

Lemma MBusDataLinkHeader_L_range (s : list byte) (h : MBusDataLinkHeader_t) :
  parse MBusDataLinkHeader s = Ok h -> 0 <= L_Field h < 256.
Proof.
  intros H. pose proof (MBusDataLinkHeader_length _ _ H) as Hlen.
  destruct s as [|b0 [|b1 [|b2 [|b3 [|b4 [|b5 r]]]]]]; simpl in Hlen; try lia.
  unfold parse in H. rewrite MBusDataLinkHeader_bytes in H.
  repeat match type of H with
         | context [if ?b then _ else _] => destruct b; try discriminate
         end.
  injection H as <-. simpl. apply b2z_range.
Qed.

(** Header errors are [ConstructError]s. *)
Lemma MBusDataLinkHeader_error (s : list byte) (e : exn) :
  parse MBusDataLinkHeader s = Err e -> exists ce, e = ConstructErr ce.
Proof.
  unfold parse.
  destruct s as [|b0 [|b1 [|b2 [|b3 [|b4 [|b5 r]]]]]];
    try rewrite MBusDataLinkHeader_bytes;
    unfold MBusDataLinkHeader, Const, OneOf, Check, bind, Int8ub, ret, fail, raise;
    repeat match goal with
           | |- context [if ?b then _ else _] => destruct b; simpl
           end;
    intros [= <-]; eauto.
Qed.

(** ** The buffer *)

Lemma index_lt (sub : Z) (l : list byte) (i : nat) :
  index sub l = Some i -> (i < length l)%nat.
Proof.
  revert i; induction l as [|b l IH]; intros i; simpl; [discriminate|].
  destruct (b2z b =? sub); [intros [= <-]; lia|].
  destruct (index sub l) as [j|]; simpl; [|discriminate].
  intros [= <-]. specialize (IH j eq_refl). lia.
Qed.

Lemma index_app (sub : Z) (l k : list byte) :
  index sub (l ++ k) =
    match index sub l with
    | Some i => Some i
    | None => (fun j => (length l + j)%nat) <$> index sub k
    end.
Proof.
  induction l as [|b l IH]; simpl.
  - destruct (index sub k); reflexivity.
  - destruct (b2z b =? sub); [reflexivity|].
    rewrite IH. destruct (index sub l); simpl; [reflexivity|].
    destruct (index sub k); reflexivity.
Qed.

Lemma trim_cons (b : byte) (r : list byte) :
  trim_buffer_to_start_character_or_end (b :: r) = skip_to_start r.
Proof.
  unfold trim_buffer_to_start_character_or_end, find, skip_to_start, slice_from.
  change (drop 1 (b :: r)) with r.
  destruct (index START_CHARACTER r) as [i|]; [|reflexivity].
  destruct (Z.eqb_spec (Z.of_nat (1 + i)) (-1)); [lia|].
  destruct (Z.geb_spec (Z.of_nat (1 + i)) 1); [|lia].
  destruct (Z.ltb_spec (Z.of_nat (1 + i)) 0); [lia|].
  rewrite Nat2Z.id. reflexivity.
Qed.

Lemma skip_to_start_length (c : list byte) : (length (skip_to_start c) <= length c)%nat.
Proof.
  unfold skip_to_start. destruct (index START_CHARACTER c); simpl; [|lia].
  rewrite length_drop. lia.
Qed.

Lemma trim_length (buf : list byte) :
  (0 < length buf)%nat ->
  (length (trim_buffer_to_start_character_or_end buf) < length buf)%nat.
Proof.
  destruct buf as [|b r]; simpl; [lia|]. intros _.
  rewrite trim_cons. pose proof (skip_to_start_length r). lia.
Qed.

Lemma skip_to_start_app (l k : list byte) :
  skip_to_start (l ++ k) =
    match index START_CHARACTER l with
    | Some _ => skip_to_start l ++ k
    | None => skip_to_start k
    end.
Proof.
  unfold skip_to_start. rewrite index_app.
  destruct (index START_CHARACTER l) as [i|] eqn:E.
  - apply index_lt in E. rewrite drop_app_le by lia. reflexivity.
  - destruct (index START_CHARACTER k) as [j|]; simpl; [|reflexivity].
    rewrite drop_app_add. reflexivity.
Qed.

Lemma slice_from_nonneg (buf : list byte) (pos : Z) :
  0 <= pos -> slice_from buf pos = drop (Z.to_nat pos) buf.
Proof. unfold slice_from. destruct (Z.ltb_spec pos 0); [lia|reflexivity]. Qed.

(** ** One pass of the loop *)

(** A pass that goes on leaves the buffer shorter: a consumed frame takes
    [L + 6] bytes, with [L + 6 >= 6], and a resynchronisation takes at
    least one. *)
Lemma read_iteration_shrinks (self self' : t) (received : option DlmsTinetzFrame.t) :
  read_iteration self = Next self' received ->
  (length (_buffer self') < length (_buffer self))%nat.
Proof.
  unfold read_iteration, size, as_bytes.
  destruct (Z.geb_spec (Z.of_nat (length (_buffer self))) 6) as [H6|]; [|discriminate].
  assert (Hre : (length (_buffer (resync self)) < length (_buffer self))%nat)
    by (apply trim_length; lia).
  destruct (parse MBusDataLinkHeader (_buffer self)) as [h|[ce| | | |]] eqn:Eh;
    try discriminate; [|intros [= <- _]; exact Hre].
  pose proof (MBusDataLinkHeader_L_range _ _ Eh) as HL.
  destruct (Z.geb_spec (Z.of_nat (length (_buffer self))) (L_Field h + 6)); [|discriminate].
  assert (Hpos : (length (trim_buffer_to_pos (_buffer self) (L_Field h + 6))
                  < length (_buffer self))%nat).
  { unfold trim_buffer_to_pos. rewrite slice_from_nonneg, length_drop by lia. lia. }
  destruct (try_frame _ _ _) as [[[| | | | | |]| | | |]|[f r]];
    try discriminate; intros [= <- _]; assumption.
Qed.

Lemma prepend_nil (o : outcome) : prepend [] o = o.
Proof. destruct o; reflexivity. Qed.

Lemma prepend_prepend (f g : list DlmsTinetzFrame.t) (o : outcome) :
  prepend f (prepend g o) = prepend (f ++ g) o.
Proof. destruct o; simpl; [rewrite app_assoc|..]; reflexivity. Qed.

Lemma read_loop_acc (fuel : nat) (self : t) (acc : list DlmsTinetzFrame.t) :
  read_loop fuel self acc = prepend acc (read_loop fuel self []).
Proof.
  revert self acc; induction fuel as [|n IH]; intros self acc; simpl; [reflexivity|].
  destruct (read_iteration self) as [| |self' r|e]; simpl;
    rewrite ?app_nil_r; try reflexivity.
  rewrite (IH self' (acc ++ option_list r)), (IH self' (option_list r)).
  rewrite prepend_prepend. reflexivity.
Qed.

(** More fuel than the buffer has bytes is as good as any. *)
Lemma read_loop_fuel (n m : nat) (self : t) (acc : list DlmsTinetzFrame.t) :
  (length (_buffer self) < n)%nat -> (length (_buffer self) < m)%nat ->
  read_loop n self acc = read_loop m self acc.
Proof.
  revert m self acc; induction n as [|n IH]; intros m self acc Hn Hm; [lia|].
  destruct m as [|m]; [lia|]. simpl.
  destruct (read_iteration self) as [| |self' r|e] eqn:E; try reflexivity.
  apply read_iteration_shrinks in E. apply IH; lia.
Qed.

Lemma run_unfold (self : t) :
  run self =
    match read_iteration self with
    | LoopExit | Break => Returned [] self
    | Next self' received => prepend (option_list received) (run self')
    | Raise e => Raised e self
    end.
Proof.
  unfold run at 1. simpl.
  destruct (read_iteration self) as [| |self' r|e] eqn:E; try reflexivity.
  apply read_iteration_shrinks in E.
  rewrite read_loop_acc. unfold run.
  f_equal. apply read_loop_fuel; lia.
Qed.

Lemma read_run (self : t) (data_chunk : list byte) :
  read self data_chunk = run (extend self data_chunk).
Proof. reflexivity. Qed.

(** Induction on the size of the reader's buffer. *)
Lemma reader_ind (P : t -> Prop) :
  (forall self,
      (forall self', (length (_buffer self') < length (_buffer self))%nat -> P self') ->
      P self) ->
  forall self, P self.
Proof.
  intros H self.
  induction self as [self IH] using (induction_ltof1 _ (fun s => length (_buffer s))).
  apply H. exact IH.
Qed.

Lemma run_total (self : t) : run self <> OutOfFuel.
Proof.
  induction self as [self IH] using reader_ind.
  rewrite run_unfold.
  destruct (read_iteration self) as [| |self' r|e] eqn:E; try discriminate.
  apply read_iteration_shrinks in E. specialize (IH self' E).
  destruct (run self'); simpl; congruence.
Qed.

Lemma run_at_rest (self self' : t) (frames : list DlmsTinetzFrame.t) :
  run self = Returned frames self' -> at_rest self'.
Proof.
  revert frames; induction self as [self IH] using reader_ind; intros frames.
  rewrite run_unfold.
  destruct (read_iteration self) as [| |self1 r|e] eqn:E; try discriminate.
  - intros [= _ <-]. left; assumption.
  - intros [= _ <-]. right; assumption.
  - apply read_iteration_shrinks in E.
    destruct (run self1) as [f s| |] eqn:E1; try discriminate.
    simpl. intros [= _ <-]. eapply IH; eauto.
Qed.

Lemma run_rest (self : t) : at_rest self -> run self = Returned [] self.
Proof. intros [H|H]; rewrite run_unfold, H; reflexivity. Qed.

(** ** More bytes behind a buffered frame *)

Lemma parse_Ok_inv {A} (p : Construct A) (s : list byte) (a : A) :
  parse p s = Ok a -> exists r, p s = Ok (a, r).
Proof.
  unfold parse. destruct (p s) as [[a' r]|e]; [|discriminate].
  intros [= <-]. eauto.
Qed.

Lemma MBusTransportLayer_error (s : list byte) (e : exn) :
  MBusTransportLayer s = Err e ->
  exists ce, e = ConstructErr ce /\ ce <> ChecksumError.
Proof.
  unfold MBusTransportLayer, OneOf, Const, bind, Int8ub, ret, fail, raise.
  destruct s as [|b0 [|b1 [|b2 r]]];
    repeat match goal with
           | |- context [if ?b then _ else _] => destruct b
           end;
    intros [= <-]; eexists; split; try reflexivity; discriminate.
Qed.

(** A declared length below 5 leaves no room for the transport header: the
    frame does not parse, and not for its checksum. *)
Lemma frame_rest_short (header : MBusDataLinkHeader_t) (s : list byte) :
  L_Field header < 5 ->
  exists ce, frame_rest header s = Err (ConstructErr ce) /\ ce <> ChecksumError.
Proof.
  intros HL. unfold frame_rest, bind at 1.
  destruct (MBusTransportLayer s) as [[t r]|e] eqn:E.
  - unfold bind, Bytes. destruct (Z.ltb_spec (L_Field header - 5) 0); [|lia].
    exists StreamError; split; [reflexivity|discriminate].
  - apply MBusTransportLayer_error in E as (ce & -> & Hce). eauto.
Qed.

Lemma parse_layer_header (s : list byte) (h : MBusDataLinkHeader_t) (r : list byte) :
  MBusDataLinkHeader s = Ok (h, r) ->
  parse MBusDataLinkLayer s = parse (frame_rest h) r.
Proof.
  intros H. unfold parse. rewrite MBusDataLinkLayer_eq. unfold bind at 1.
  rewrite H. reflexivity.
Qed.

Lemma parse_layer_extend (buf c : list byte) (h : MBusDataLinkHeader_t) :
  parse MBusDataLinkHeader buf = Ok h ->
  L_Field h + 6 <= Z.of_nat (length buf) ->
  parse MBusDataLinkLayer (buf ++ c) = parse MBusDataLinkLayer buf \/
  exists ce ce',
    parse MBusDataLinkLayer (buf ++ c) = Err (ConstructErr ce) /\
    parse MBusDataLinkLayer buf = Err (ConstructErr ce') /\
    ce <> ChecksumError /\ ce' <> ChecksumError.
Proof.
  intros Hh Hlen.
  pose proof (MBusDataLinkHeader_length _ _ Hh) as H6.
  apply parse_Ok_inv in Hh as [r Hr].
  pose proof (proj1 (fixed_MBusDataLinkHeader buf) H6 c) as Hext.
  pose proof (proj2 (fixed_MBusDataLinkHeader buf) _ _ Hr) as Hlr.
  rewrite Hr in Hext; simpl in Hext.
  rewrite (parse_layer_header _ _ _ Hr), (parse_layer_header _ _ _ Hext).
  destruct (Z.le_gt_cases 5 (L_Field h)) as [HL|HL].
  - left. apply (fixed_parse _ _ _ _ (fixed_frame_rest h HL)). lia.
  - right. unfold parse.
    destruct (frame_rest_short h (r ++ c)) as (ce & -> & Hce); [lia|].
    destruct (frame_rest_short h r) as (ce' & -> & Hce'); [lia|].
    exists ce, ce'. auto.
Qed.

Lemma read_iteration_eq (self : t) :
  read_iteration self =
    if size (_buffer self) >=? 6 then
      match parse MBusDataLinkHeader (_buffer self) with
      | Ok header =>
          if size (_buffer self) >=? L_Field header + 6
          then handle self (L_Field header + 6)
                 (try_frame (_key_hex self) (_frame self) (_buffer self))
          else Break
      | Err (ConstructErr _) => Next (resync self) None
      | Err e => Raise e
      end
    else LoopExit.
Proof. reflexivity. Qed.

Lemma resync_extend (self : t) (c : list byte) :
  (0 < length (_buffer self))%nat ->
  pass_extends self c (Next (resync self) None) (Next (resync (extend self c)) None).
Proof.
  destruct self as [[|b r] f k]; simpl; [lia|intros _].
  unfold resync, extend, _ReaderBuffer.extend; simpl.
  change (b :: r ++ c) with ((b :: r) ++ c).
  rewrite !trim_cons. simpl app. rewrite trim_cons, skip_to_start_app.
  unfold hunting. destruct (index START_CHARACTER r) eqn:E.
  - left; reflexivity.
  - right. unfold skip_to_start at 1. rewrite E. auto.
Qed.

Lemma read_iteration_extend (self : t) (c : list byte) :
  pass_extends self c (read_iteration self) (read_iteration (extend self c)).
Proof.
  rewrite !read_iteration_eq. unfold size.
  destruct (Z.geb_spec (Z.of_nat (length (_buffer self))) 6) as [H6|]; [|exact I].
  assert (H6' : (6 <= length (_buffer self))%nat) by lia.
  assert (Hre := resync_extend self c ltac:(lia)).
  change (_buffer (extend self c)) with (_buffer self ++ c).
  change (_frame (extend self c)) with (_frame self).
  change (_key_hex (extend self c)) with (_key_hex self).
  rewrite length_app.
  destruct (Z.geb_spec (Z.of_nat (length (_buffer self) + length c)) 6); [|lia].
  rewrite (fixed_parse _ _ _ _ fixed_MBusDataLinkHeader H6').
  destruct (parse MBusDataLinkHeader (_buffer self)) as [h|[ce| | | |]] eqn:Eh;
    try reflexivity; [|exact Hre].
  pose proof (MBusDataLinkHeader_L_range _ _ Eh) as HL.
  destruct (Z.geb_spec (Z.of_nat (length (_buffer self))) (L_Field h + 6)); [|exact I].
  destruct (Z.geb_spec (Z.of_nat (length (_buffer self) + length c)) (L_Field h + 6)); [|lia].
  assert (Hpos : trim_buffer_to_pos (_buffer self ++ c) (L_Field h + 6)
                 = trim_buffer_to_pos (_buffer self) (L_Field h + 6) ++ c).
  { unfold trim_buffer_to_pos. rewrite !slice_from_nonneg by lia.
    apply drop_app_le. lia. }
  unfold try_frame.
  destruct (parse_layer_extend _ c _ Eh ltac:(lia)) as [->|(ce & ce' & -> & -> & Hce & Hce')].
  - destruct (parse MBusDataLinkLayer (_buffer self)) as [m|e]; simpl.
    + destruct (accumulate _ _ m) as [e|f']; simpl.
      * destruct e as [[| | | | | |]| | | |]; simpl; unfold _ReaderBuffer.extend;
          rewrite ?Hpos; first [exact Hre | reflexivity | left; reflexivity].
      * destruct (complete f' _) as [f'' r]. simpl. unfold _ReaderBuffer.extend.
        rewrite Hpos. left; reflexivity.
    + destruct e as [[| | | | | |]| | | |]; simpl; unfold _ReaderBuffer.extend;
        rewrite ?Hpos; first [exact Hre | reflexivity | left; reflexivity].
  - simpl. destruct ce, ce'; try congruence; exact Hre.
Qed.

(** ** Runs on a stream and on its chunks *)

Lemma same_result_refl (o : outcome) : o <> OutOfFuel -> same_result o o.
Proof. destruct o; simpl; congruence. Qed.

Lemma same_result_sym (o1 o2 : outcome) : same_result o1 o2 -> same_result o2 o1.
Proof. destruct o1, o2; simpl; congruence. Qed.

Lemma same_result_trans (o1 o2 o3 : outcome) :
  same_result o1 o2 -> same_result o2 o3 -> same_result o1 o3.
Proof. destruct o1, o2, o3; simpl; try congruence; tauto. Qed.

Lemma same_result_prepend (f : list DlmsTinetzFrame.t) (o1 o2 : outcome) :
  same_result o1 o2 -> same_result (prepend f o1) (prepend f o2).
Proof. destruct o1, o2; simpl; congruence. Qed.

Lemma then_read_prepend (f : list DlmsTinetzFrame.t) (o : outcome) (c : list byte) :
  then_read (prepend f o) c = prepend f (then_read o c).
Proof. destruct o; simpl; [rewrite prepend_prepend|..]; reflexivity. Qed.

Lemma run_short (self : t) : (length (_buffer self) < 6)%nat -> run self = Returned [] self.
Proof.
  intros H. rewrite run_unfold, read_iteration_eq. unfold size.
  destruct (Z.geb_spec (Z.of_nat (length (_buffer self))) 6); [lia|reflexivity].
Qed.

Lemma skip_to_start_cons (b : byte) (r : list byte) :
  skip_to_start (b :: r) = if b2z b =? START_CHARACTER then b :: r else skip_to_start r.
Proof.
  unfold skip_to_start; simpl.
  destruct (b2z b =? START_CHARACTER); [reflexivity|].
  destruct (index START_CHARACTER r); reflexivity.
Qed.

(** While hunting, bytes in front of the first start character do not
    matter. *)
Lemma run_skip_to_start (c : list byte) (key_hex : string) :
  same_result (run (hunting (skip_to_start c) key_hex)) (run (hunting c key_hex)).
Proof.
  destruct c as [|b r]; [apply same_result_refl, run_total|].
  rewrite skip_to_start_cons.
  destruct (Z.eqb_spec (b2z b) START_CHARACTER) as [|Hb]; [apply same_result_refl, run_total|].
  destruct (Nat.lt_ge_cases (length (b :: r)) 6) as [Hlen|Hlen].
  - rewrite !run_short; [reflexivity|exact Hlen|].
    pose proof (skip_to_start_length r). simpl in *. lia.
  - rewrite (run_unfold (hunting (b :: r) key_hex)), read_iteration_eq.
    unfold size. simpl _buffer.
    destruct (Z.geb_spec (Z.of_nat (length (b :: r))) 6); [|lia].
    destruct r as [|b1 [|b2 [|b3 [|b4 [|b5 r]]]]]; simpl in Hlen; try lia.
    unfold parse. rewrite MBusDataLinkHeader_bytes.
    destruct (Z.eqb_spec (b2z b) 104) as [E|_]; [contradiction|]. simpl negb. cbv iota.
    unfold resync. simpl _buffer. rewrite trim_cons. simpl option_list.
    rewrite prepend_nil. apply same_result_refl, run_total.
Qed.

Lemma extend_app (self : t) (c d : list byte) :
  extend self (c ++ d) = extend (extend self c) d.
Proof. unfold extend, _ReaderBuffer.extend; simpl. rewrite app_assoc. reflexivity. Qed.

Lemma extend_nil (self : t) : extend self [] = self.
Proof.
  destruct self. unfold extend, _ReaderBuffer.extend; simpl.
  rewrite app_nil_r. reflexivity.
Qed.

(** The loop on a buffer with [c] appended does what the loop does on the
    buffer, followed by a call of [read] on [c]. *)
Lemma run_extend (self : t) (c : list byte) :
  same_result (run (extend self c)) (then_read (run self) c).
Proof.
  induction self as [self IH] using reader_ind.
  pose proof (read_iteration_extend self c) as Hext.
  rewrite (run_unfold self).
  destruct (read_iteration self) as [| |self' r|e] eqn:E; simpl in Hext.
  - simpl. rewrite prepend_nil. apply same_result_refl, run_total.
  - simpl. rewrite prepend_nil. apply same_result_refl, run_total.
  - apply read_iteration_shrinks in E.
    destruct Hext as [Hext|(-> & -> & Hext)];
      rewrite run_unfold, Hext, then_read_prepend.
    + apply same_result_prepend, IH, E.
    + simpl option_list. rewrite !prepend_nil.
      rewrite (run_short (hunting [] _)) by (simpl; lia).
      simpl. rewrite prepend_nil. apply run_skip_to_start.
  - rewrite run_unfold, Hext. reflexivity.
Qed.

Lemma read_chunks_cons (self : t) (chunk : list byte) (rest : list (list byte)) :
  read_chunks self (chunk :: rest) =
    match read self chunk with
    | Returned frames self' => prepend frames (read_chunks self' rest)
    | other => other
    end.
Proof.
  simpl. destruct (read self chunk) as [f s| |]; try reflexivity.
  destruct (read_chunks s rest); reflexivity.
Qed.

Lemma read_chunks_concat (self : t) (chunks : list (list byte)) :
  at_rest self ->
  same_result (read_chunks self chunks) (read self (concat chunks)).
Proof.
  revert self; induction chunks as [|c cs IH]; intros self Hrest.
  - simpl. rewrite read_run, extend_nil, (run_rest _ Hrest). reflexivity.
  - rewrite read_chunks_cons. simpl concat.
    rewrite (read_run self (c ++ _)), extend_app.
    pose proof (run_extend (extend self c) (concat cs)) as HB.
    rewrite read_run.
    destruct (run (extend self c)) as [f self'|e self'|] eqn:E.
    + apply run_at_rest in E. specialize (IH self' E).
      apply same_result_sym in HB. simpl in HB.
      eapply same_result_trans; [|exact HB].
      apply same_result_prepend, IH.
    + apply same_result_sym, HB.
    + exfalso. exact (run_total _ E).
Qed.

Lemma init_at_rest (key_hex : string) : at_rest (init key_hex).
Proof. left; reflexivity. Qed.

(** ** Which exceptions a parse can raise *)

Lemma ce_ret {A} (a : A) : construct_errors (ret a).
Proof. intros s e; discriminate. Qed.

Lemma ce_fail {A} (ce : ConstructError) : construct_errors (@fail A ce).
Proof. intros s e [= <-]; eauto. Qed.

Lemma ce_bind {A B} (p : Construct A) (k : A -> Construct B) :
  construct_errors p -> (forall a, construct_errors (k a)) -> construct_errors (bind p k).
Proof.
  intros Hp Hk s e. unfold bind.
  destruct (p s) as [[a r]|e'] eqn:E.
  - apply Hk.
  - intros [= <-]. eapply Hp, E.
Qed.

Lemma ce_if {A} (b : bool) (p q : Construct A) :
  construct_errors p -> construct_errors q -> construct_errors (if b then p else q).
Proof. destruct b; trivial. Qed.

Lemma ce_Int8ub : construct_errors Int8ub.
Proof. intros [|b s] e; [intros [= <-]; eauto|discriminate]. Qed.

Lemma ce_Int16ub : construct_errors Int16ub.
Proof.
  apply ce_bind; [apply ce_Int8ub|intros hi].
  apply ce_bind; [apply ce_Int8ub|intros lo]. apply ce_ret.
Qed.

Lemma ce_Const (v : Z) : construct_errors (Const v Int8ub).
Proof.
  apply ce_bind; [apply ce_Int8ub|intros x].
  apply ce_if; [apply ce_ret|apply ce_fail].
Qed.

Lemma ce_OneOf (valids : list Z) : construct_errors (OneOf Int8ub valids).
Proof.
  apply ce_bind; [apply ce_Int8ub|intros x].
  apply ce_if; [apply ce_ret|apply ce_fail].
Qed.

Lemma ce_Check (b : bool) : construct_errors (Check b).
Proof. apply ce_if; [apply ce_ret|apply ce_fail]. Qed.

Lemma ce_Checksum (hashfunc : list Z -> Z) (data : list Z) :
  construct_errors (Checksum Int8ub hashfunc data).
Proof.
  apply ce_bind; [apply ce_Int8ub|intros x].
  apply ce_if; [apply ce_ret|apply ce_fail].
Qed.

Lemma ce_Bytes (n : Z) : construct_errors (Bytes n).
Proof.
  intros s e. unfold Bytes.
  destruct (n <? 0); [intros [= <-]; eauto|].
  destruct (length s <? Z.to_nat n)%nat; [intros [= <-]; eauto|discriminate].
Qed.

Lemma ce_Array {A} (n : nat) (p : Construct A) :
  construct_errors p -> construct_errors (Array n p).
Proof.
  intros Hp; induction n as [|n IH]; simpl; [apply ce_ret|].
  apply ce_bind; [exact Hp|intros x].
  apply ce_bind; [exact IH|intros xs]. apply ce_ret.
Qed.

Lemma ce_Peek {A} (p : Construct A) : construct_errors p -> construct_errors (Peek p).
Proof.
  intros Hp s e. unfold Peek.
  destruct (p s) as [[a r]|e'] eqn:E; [discriminate|].
  destruct (Hp _ _ E) as [ce ->]. destruct ce; try discriminate.
  intros [= <-]. eauto.
Qed.

Lemma ce_If {A} (b : bool) (p : Construct A) : construct_errors p -> construct_errors (If b p).
Proof.
  intros Hp. unfold If. apply ce_if; [|apply ce_ret].
  apply ce_bind; [exact Hp|intros x; apply ce_ret].
Qed.

Lemma ce_GreedyBytes : construct_errors GreedyBytes.
Proof. intros s e; discriminate. Qed.

Lemma ce_MBusDataLinkLayer : construct_errors MBusDataLinkLayer.
Proof.
  unfold MBusDataLinkLayer, MBusDataLinkHeader, MBusTransportLayer.
  repeat first
    [ apply ce_ret | apply ce_Const | apply ce_OneOf | apply ce_Check | apply ce_Int8ub
    | apply ce_Bytes | apply ce_Checksum | (apply ce_bind; [|intros ?]) ].
Qed.

Lemma ce_DLMSApplicationLayer : construct_errors DLMSApplicationLayer.
Proof.
  unfold DLMSApplicationLayer.
  repeat first
    [ apply ce_ret | apply ce_Const | apply ce_Int8ub | apply ce_Int16ub
    | apply ce_GreedyBytes | apply ce_If | apply ce_Peek | apply ce_Array | apply ce_if
    | (apply ce_bind; [|intros ?]) ].
Qed.

Lemma ce_parse {A} (p : Construct A) (s : list byte) (e : exn) :
  construct_errors p -> parse p s = Err e -> exists ce, e = ConstructErr ce.
Proof.
  intros Hp. unfold parse. destruct (p s) as [[a r]|e'] eqn:E; [discriminate|].
  intros [= <-]. eapply Hp, E.
Qed.

(** What [unhexlify] raises is a [ValueError] for a string that is not
    ASCII and a [binascii.Error] for every other string it refuses. *)
Lemma unhexlify_Err (hexstr : string) (e : exn) :
  unhexlify hexstr = Err e ->
  e = (if isascii hexstr then binascii_Error else ValueError).
Proof.
  unfold unhexlify. destruct (isascii hexstr); [|intros [= <-]; reflexivity].
  destruct (hex_decode hexstr); [discriminate|intros [= <-]; reflexivity].
Qed.

(** The inner [try] raises a [ConstructError], or what [unhexlify] raises
    for the key. *)
Lemma try_frame_error (key_hex : string) (frame : option DlmsTinetzFrame.t)
    (buf : list byte) (e : exn) :
  try_frame key_hex frame buf = inl e ->
  (exists ce, e = ConstructErr ce) \/
  ((e = binascii_Error \/ e = ValueError) /\ unhexlify key_hex = Err e).
Proof.
  unfold try_frame.
  destruct (parse MBusDataLinkLayer buf) as [m|e'] eqn:Em.
  - unfold accumulate, DlmsTinetzFrame.init.
    destruct frame as [f|].
    + destruct (_ >? 0); discriminate.
    + destruct (_ =? 0); [|discriminate].
      destruct (parse DLMSApplicationLayer (Data m)) as [d|e'] eqn:Ed.
      * destruct (unhexlify key_hex) as [key|e''] eqn:Ek; [discriminate|].
        intros [= <-]. right. split; [|reflexivity].
        rewrite (unhexlify_Err _ _ Ek). destruct (isascii key_hex); auto.
      * intros [= <-]. left. eapply ce_parse, Ed. apply ce_DLMSApplicationLayer.
  - intros [= <-]. left. eapply ce_parse, Em. apply ce_MBusDataLinkLayer.
Qed.

Lemma read_iteration_Raise (self : t) (e : exn) :
  read_iteration self = Raise e ->
  (e = binascii_Error \/ e = ValueError) /\ unhexlify (_key_hex self) = Err e.
Proof.
  rewrite read_iteration_eq.
  destruct (_ >=? 6); [|discriminate].
  destruct (parse MBusDataLinkHeader (_buffer self)) as [h|e'] eqn:Eh.
  - destruct (_ >=? _); [|discriminate].
    destruct (try_frame _ _ _) as [e'|[f r]] eqn:Et; [|discriminate].
    apply try_frame_error in Et as [[ce ->]|[[-> | ->] Hk]].
    + destruct ce; discriminate.
    + intros [= <-]. auto.
    + intros [= <-]. auto.
  - apply MBusDataLinkHeader_error in Eh as [ce ->]. discriminate.
Qed.

Lemma read_iteration_key (self self' : t) (received : option DlmsTinetzFrame.t) :
  read_iteration self = Next self' received -> _key_hex self' = _key_hex self.
Proof.
  rewrite read_iteration_eq.
  destruct (_ >=? 6); [|discriminate].
  destruct (parse MBusDataLinkHeader (_buffer self)) as [h|[ce| | | |]];
    try discriminate; [|intros [= <- _]; reflexivity].
  destruct (_ >=? _); [|discriminate].
  destruct (try_frame _ _ _) as [[[| | | | | |]| | | |]|[f r]]; simpl;
    try discriminate; intros [= <- _]; reflexivity.
Qed.

(** With a key that [unhexlify] accepts, the loop returns. *)
Lemma run_returns (self : t) (key : list byte) :
  unhexlify (_key_hex self) = Ok key ->
  exists frames self', run self = Returned frames self'.
Proof.
  induction self as [self IH] using reader_ind. intros Hkey.
  rewrite run_unfold.
  destruct (read_iteration self) as [| |self' r|e] eqn:E; eauto.
  - pose proof (read_iteration_key _ _ _ E) as Hk.
    apply read_iteration_shrinks in E.
    destruct (IH self' E) as (f & s & ->); [congruence|].
    simpl. eauto.
  - apply read_iteration_Raise in E as [_ E]. congruence.
Qed.

(** ** Chunk-boundary independence and termination *)

(** C1: for every stream and every way of cutting it into consecutive
    chunks, calling [read] on the chunks of a fresh reader ends as one call
    of [read] on the whole stream does: the returned frames, concatenated in
    order, are the same (and so is every mapping decoded from them), or the
    same exception escapes; with a key that [unhexlify] accepts both return.
    A frame whose header is buffered but whose [L + 6] bytes are not all
    there yet is no failure: [read] returns nothing and keeps the buffer and
    the open frame. *)
Theorem read_chunk_boundary_independence (key_hex : string) (chunks : list (list byte)) :
  same_result (read_chunks (init key_hex) chunks) (read (init key_hex) (concat chunks)) /\
  (forall key, unhexlify key_hex = Ok key ->
     exists frames self1 self2,
       read_chunks (init key_hex) chunks = Returned frames self1 /\
       read (init key_hex) (concat chunks) = Returned frames self2) /\
  (forall self chunk header,
     parse MBusDataLinkHeader (_buffer (extend self chunk)) = Ok header ->
     size (_buffer (extend self chunk)) < L_Field header + 6 ->
     read self chunk = Returned [] (extend self chunk)).
Proof.
  pose proof (read_chunks_concat (init key_hex) chunks (init_at_rest key_hex)) as Hsame.
  split; [exact Hsame|split].
  - intros key Hkey.
    destruct (run_returns (extend (init key_hex) (concat chunks)) key Hkey)
      as (frames & self2 & Hrun).
    rewrite read_run, Hrun in *.
    destruct (read_chunks (init key_hex) chunks) as [f self1| |]; simpl in Hsame;
      try contradiction.
    subst f. eauto.
  - intros self chunk header Hh Hlen.
    rewrite read_run, run_unfold, read_iteration_eq, Hh.
    pose proof (MBusDataLinkHeader_length _ _ Hh). unfold size in *.
    destruct (Z.geb_spec (Z.of_nat (length (_buffer (extend self chunk)))) 6); [|lia].
    destruct (Z.geb_spec (Z.of_nat (length (_buffer (extend self chunk))))
                (L_Field header + 6)); [lia|reflexivity].
Qed.

Lemma read_chunk_boundary_independence_witness :
  (exists frames self1 self2,
     read_chunks (init "00") [[x00; x68]; take 5 single_frame; drop 5 single_frame]
       = Returned frames self1 /\
     read (init "00") (concat [[x00; x68]; take 5 single_frame; drop 5 single_frame])
       = Returned frames self2) /\
  read (init "00") (take 20 single_frame) = Returned [] (extend (init "00") (take 20 single_frame)).
Proof.
  destruct (read_chunk_boundary_independence "00"
              [[x00; x68]; take 5 single_frame; drop 5 single_frame]) as (_ & H2 & H3).
  split.
  - apply (H2 [x00]). reflexivity.
  - apply (H3 (init "00") (take 20 single_frame)
              {| Start_Character := 104; L_Field := 24; _L_Field := 24;
                 C_Field := 83; A_Field := 255 |}).
    + reflexivity.
    + reflexivity.
Defined.

(** C10: every call of [read] terminates.  A pass of the loop that does not
    leave it shortens the buffer: a consumed physical frame takes
    [L + 6 >= 6] bytes, and the resynchronisation, which looks for 0x68 from
    position 1 on, takes at least one byte or all of them.  So the loop ends
    within one more pass than the buffer has bytes, and any larger bound
    gives the same result. *)
Theorem read_terminates (self : t) (data_chunk : list byte) :
  read self data_chunk <> OutOfFuel /\
  (forall fuel, (length (_buffer (extend self data_chunk)) < fuel)%nat ->
     read_loop fuel (extend self data_chunk) [] = read self data_chunk) /\
  (forall (s s' : t) received,
     read_iteration s = Next s' received ->
     (length (_buffer s') < length (_buffer s))%nat /\
     ((exists header,
         parse MBusDataLinkHeader (_buffer s) = Ok header /\
         6 <= L_Field header + 6 <= size (_buffer s) /\
         _buffer s' = drop (Z.to_nat (L_Field header + 6)) (_buffer s)) \/
      (exists b rest,
         _buffer s = b :: rest /\
         _buffer s' = trim_buffer_to_start_character_or_end (_buffer s) /\
         (_buffer s' = [] \/ exists pos, (1 <= pos)%nat /\ _buffer s' = drop pos (_buffer s))))).
Proof.
  split; [apply run_total|split].
  - intros fuel Hfuel. unfold read. apply read_loop_fuel; lia.
  - intros s s' received E. split; [eapply read_iteration_shrinks, E|].
    revert E. rewrite read_iteration_eq. unfold size.
    destruct (Z.geb_spec (Z.of_nat (length (_buffer s))) 6) as [H6|]; [|discriminate].
    assert (Hre : exists b rest,
               _buffer s = b :: rest /\
               _buffer (resync s) = trim_buffer_to_start_character_or_end (_buffer s) /\
               (_buffer (resync s) = [] \/
                exists pos, (1 <= pos)%nat /\ _buffer (resync s) = drop pos (_buffer s))).
    { destruct (_buffer s) as [|b rest] eqn:Eb; [simpl in H6; lia|].
      exists b, rest. split; [reflexivity|]. unfold resync; simpl. rewrite Eb.
      split; [reflexivity|]. rewrite trim_cons. unfold skip_to_start.
      destruct (index START_CHARACTER rest) as [i|]; [|left; reflexivity].
      right. exists (S i). split; [lia|reflexivity]. }
    destruct (parse MBusDataLinkHeader (_buffer s)) as [h|[ce| | | |]] eqn:Eh;
      try discriminate; [|intros [= <- _]; right; exact Hre].
    pose proof (MBusDataLinkHeader_L_range _ _ Eh) as HL.
    destruct (Z.geb_spec (Z.of_nat (length (_buffer s))) (L_Field h + 6)); [|discriminate].
    assert (Hpos : trim_buffer_to_pos (_buffer s) (L_Field h + 6)
                   = drop (Z.to_nat (L_Field h + 6)) (_buffer s))
      by (apply slice_from_nonneg; lia).
    destruct (try_frame _ _ _) as [[[| | | | | |]| | | |]|[f r]]; simpl;
      try discriminate; intros [= <- _];
      first [ right; exact Hre
            | left; exists h; simpl; rewrite Hpos; repeat split; lia ].
Qed.

Lemma read_terminates_witness :
  read_loop 100 (extend (init "00") single_frame) [] = read (init "00") single_frame /\
  (length (_buffer (hunting [] "00")) < length (_buffer (hunting single_frame "00")))%nat.
Proof.
  destruct (read_terminates (init "00") single_frame) as (_ & H2 & H3).
  split.
  - apply H2. vm_compute. lia.
  - apply (H3 (hunting single_frame "00") (hunting [] "00")
              (Some {| DlmsTinetzFrame._key := [x00]; DlmsTinetzFrame._length := 3;
                       DlmsTinetzFrame._system_title := [x01; x02; x03; x04; x05; x06; x07; x08];
                       DlmsTinetzFrame._frame_counter := [x00; x00; x00; x2a];
                       DlmsTinetzFrame._frame_data := [xaa; xbb; xcc] |})).
    reflexivity.
Defined.

(** ** Emission *)

Lemma complete_Some (pending fr : option DlmsTinetzFrame.t) (ci : Z) (f : DlmsTinetzFrame.t) :
  complete pending ci = (fr, Some f) <->
  pending = Some f /\ Z.land ci 0x10 = 0x10 /\ DlmsTinetzFrame.is_valid f = true /\ fr = None.
Proof.
  unfold complete. split.
  - destruct pending as [p|]; [|discriminate].
    destruct (Z.eqb_spec (Z.land ci 16) 16); [|discriminate].
    destruct (DlmsTinetzFrame.is_valid p) eqn:E; [|discriminate].
    intros [= <- <-]. auto.
  - intros (-> & -> & -> & ->). reflexivity.
Qed.

Lemma is_valid_spec (f : DlmsTinetzFrame.t) :
  DlmsTinetzFrame.is_valid f = true <->
  Z.of_nat (length (DlmsTinetzFrame._frame_data f)) = DlmsTinetzFrame._length f.
Proof. unfold DlmsTinetzFrame.is_valid. apply Z.eqb_eq. Qed.

(** A pass hands out a frame exactly when it consumes a physical frame
    that leaves a valid frame open with the last-segment bit set. *)
Lemma read_iteration_received (self self' : t) (f : DlmsTinetzFrame.t) :
  read_iteration self = Next self' (Some f) <->
  exists header mbus_data,
    parse MBusDataLinkHeader (_buffer self) = Ok header /\
    L_Field header + 6 <= size (_buffer self) /\
    parse MBusDataLinkLayer (_buffer self) = Ok mbus_data /\
    accumulate (_key_hex self) (_frame self) mbus_data = inr (Some f) /\
    Z.land (CI_Field (TransportLayer mbus_data)) 0x10 = 0x10 /\
    Z.of_nat (length (DlmsTinetzFrame._frame_data f)) = DlmsTinetzFrame._length f /\
    self' = {| _buffer := drop (Z.to_nat (L_Field header + 6)) (_buffer self);
               _frame := None; _key_hex := _key_hex self |}.
Proof.
  rewrite read_iteration_eq. unfold size. split.
  - destruct (Z.geb_spec (Z.of_nat (length (_buffer self))) 6); [|discriminate].
    destruct (parse MBusDataLinkHeader (_buffer self)) as [h|[ce| | | |]] eqn:Eh;
      try discriminate.
    pose proof (MBusDataLinkHeader_L_range _ _ Eh) as HL.
    destruct (Z.geb_spec (Z.of_nat (length (_buffer self))) (L_Field h + 6)); [|discriminate].
    unfold try_frame.
    destruct (parse MBusDataLinkLayer (_buffer self)) as [m|e] eqn:Em.
    + destruct (accumulate _ _ m) as [e|pending] eqn:Ea.
      * destruct e as [[| | | | | |]| | | |]; discriminate.
      * destruct (complete pending _) as [fr r] eqn:Ec. simpl.
        intros [= <- ->]. apply complete_Some in Ec as (-> & Hci & Hv & ->).
        exists h, m. unfold trim_buffer_to_pos. rewrite slice_from_nonneg by lia.
        rewrite is_valid_spec in Hv. auto 10.
    + destruct e as [[| | | | | |]| | | |]; discriminate.
  - intros (h & m & Eh & Hlen & Em & Ea & Hci & Hv & ->).
    pose proof (MBusDataLinkHeader_L_range _ _ Eh) as HL.
    pose proof (MBusDataLinkHeader_length _ _ Eh) as H6.
    rewrite Eh. unfold try_frame. rewrite Em, Ea.
    destruct (Z.geb_spec (Z.of_nat (length (_buffer self))) 6); [|lia].
    destruct (Z.geb_spec (Z.of_nat (length (_buffer self))) (L_Field h + 6)); [|lia].
    apply is_valid_spec in Hv.
    rewrite (proj2 (complete_Some (Some f) None _ f)) by auto.
    simpl. unfold trim_buffer_to_pos. rewrite slice_from_nonneg by lia. reflexivity.
Qed.


(** Every frame a run returns has the length its header declared. *)
Lemma run_valid (self self' : t) (frames : list DlmsTinetzFrame.t) :
  run self = Returned frames self' ->
  Forall (fun f => Z.of_nat (length (DlmsTinetzFrame._frame_data f))
                   = DlmsTinetzFrame._length f) frames.
Proof.
  revert frames; induction self as [self IH] using reader_ind; intros frames.
  rewrite run_unfold.
  destruct (read_iteration self) as [| |self1 r|e] eqn:E; try discriminate;
    try (intros [= <- _]; constructor).
  pose proof (read_iteration_shrinks _ _ _ E) as Hlt.
  destruct (run self1) as [fs s| |] eqn:E1; try discriminate.
  simpl. intros [= <- <-]. apply Forall_app. split; [|eapply IH; eauto].
  destruct r as [f|]; simpl; [|constructor].
  apply read_iteration_received in E as (h & m & _ & _ & _ & _ & _ & Hv & _).
  constructor; [exact Hv|constructor].
Qed.



(** ** The checksum *)

(** The frame parse once header, transport sub-header and payload are
    read: the checksum decides, then the stop character. *)
Lemma parse_layer_checksum (buf r6 r9 rest : list byte)
    (header : MBusDataLinkHeader_t) (transport : MBusTransportLayer_t)
    (data : list byte) (checksum : byte) :
  MBusDataLinkHeader buf = Ok (header, r6) ->
  MBusTransportLayer r6 = Ok (transport, r9) ->
  Bytes (L_Field header - 5) r9 = Ok (data, checksum :: rest) ->
  parse MBusDataLinkLayer buf =
    if b2z checksum =? expected_checksum header transport data
    then parse (do stop <- Const 0x16 Int8ub ;;
                ret {| Header := header; TransportLayer := transport; Data := data;
                       Checksum_ := b2z checksum; Stop_Character := stop |}) rest
    else Err (ConstructErr ChecksumError).
Proof.
  intros Hh Ht Hd.
  rewrite (parse_layer_header _ _ _ Hh).
  unfold parse, frame_rest, Checksum, bind. rewrite Ht. cbv beta iota.
  rewrite Hd. cbv beta iota. unfold Int8ub at 1. cbv beta iota.
  replace (sum [sum_bytes data; C_Field header; A_Field header; CI_Field transport;
                STSAP transport; DTSAP transport] mod 256)
    with (expected_checksum header transport data)
    by (unfold expected_checksum, sum; simpl; f_equal; lia).
  destruct (b2z checksum =? expected_checksum header transport data); reflexivity.
Qed.

Lemma Bytes_error (n : Z) (s : list byte) (e : exn) :
  Bytes n s = Err e -> e = ConstructErr StreamError.
Proof.
  unfold Bytes. destruct (n <? 0); [intros [= <-]; reflexivity|].
  destruct (length s <? Z.to_nat n)%nat; [intros [= <-]; reflexivity|discriminate].
Qed.

(** A checksum error is raised only behind a well-formed header and
    transport sub-header, for a payload that is all there, by a checksum
    byte that differs from the expected one. *)
Lemma parse_layer_ChecksumError (buf r6 : list byte) (header : MBusDataLinkHeader_t) :
  MBusDataLinkHeader buf = Ok (header, r6) ->
  parse MBusDataLinkLayer buf = Err (ConstructErr ChecksumError) ->
  exists transport r9 data checksum rest,
    MBusTransportLayer r6 = Ok (transport, r9) /\
    Bytes (L_Field header - 5) r9 = Ok (data, checksum :: rest) /\
    b2z checksum <> expected_checksum header transport data.
Proof.
  intros Hh Hp.
  destruct (MBusTransportLayer r6) as [[transport r9]|e] eqn:Et.
  - destruct (Bytes (L_Field header - 5) r9) as [[data [|checksum rest]]|e] eqn:Ed.
    + exfalso. revert Hp. rewrite (parse_layer_header _ _ _ Hh).
      unfold parse, frame_rest, Checksum, bind. rewrite Et. cbv beta iota.
      rewrite Ed. discriminate.
    + exists transport, r9, data, checksum, rest.
      split; [reflexivity|split; [first [reflexivity|exact Ed]|]].
      rewrite (parse_layer_checksum _ _ _ _ _ _ _ _ Hh Et Ed) in Hp.
      destruct (Z.eqb_spec (b2z checksum) (expected_checksum header transport data))
        as [E|E]; [|exact E].
      exfalso. revert Hp. unfold parse, Const, bind, ret, Int8ub, fail, raise.
      destruct rest as [|st rest]; [discriminate|].
      destruct (b2z st =? 22); discriminate.
    + exfalso. revert Hp. rewrite (parse_layer_header _ _ _ Hh).
      unfold parse, frame_rest, bind. rewrite Et. cbv beta iota. rewrite Ed.
      apply Bytes_error in Ed as ->. discriminate.
  - exfalso. revert Hp. rewrite (parse_layer_header _ _ _ Hh).
    unfold parse, frame_rest, bind. rewrite Et.
    apply MBusTransportLayer_error in Et as (ce & -> & Hce). congruence.
Qed.

(** C6: take a buffered physical frame whose header and transport
    sub-header are well formed and whose payload and checksum byte are
    there.  It parses without a checksum error if and only if the checksum
    byte is the sum of the payload bytes, the control, address and CI
    fields and the two service-access-point bytes, modulo 256; a mismatch
    is raised as [ChecksumError], which is none of the errors a malformed
    structure raises.  Such frames are the only ones that raise it: behind
    a good header, a malformed transport sub-header or a missing payload
    byte is a structural error whatever the checksum byte. *)
Theorem checksum_error_iff_mismatch (buf r6 r9 rest : list byte)
    (header : MBusDataLinkHeader_t) (transport : MBusTransportLayer_t)
    (data : list byte) (checksum : byte) :
  MBusDataLinkHeader buf = Ok (header, r6) ->
  MBusTransportLayer r6 = Ok (transport, r9) ->
  Bytes (L_Field header - 5) r9 = Ok (data, checksum :: rest) ->
  (parse MBusDataLinkLayer buf <> Err (ConstructErr ChecksumError) <->
   b2z checksum = expected_checksum header transport data) /\
  (b2z checksum <> expected_checksum header transport data ->
   parse MBusDataLinkLayer buf = Err (ConstructErr ChecksumError)) /\
  ~ In ChecksumError [StreamError; ConstError; CheckError; ValidationError; SelectError] /\
  (forall buf' r6' header',
     MBusDataLinkHeader buf' = Ok (header', r6') ->
     parse MBusDataLinkLayer buf' = Err (ConstructErr ChecksumError) ->
     exists transport' r9' data' checksum' rest',
       MBusTransportLayer r6' = Ok (transport', r9') /\
       Bytes (L_Field header' - 5) r9' = Ok (data', checksum' :: rest') /\
       b2z checksum' <> expected_checksum header' transport' data').
Proof.
  intros Hh Ht Hd.
  assert (Honly := parse_layer_ChecksumError).
  rewrite (parse_layer_checksum _ _ _ _ _ _ _ _ Hh Ht Hd).
  destruct (Z.eqb_spec (b2z checksum) (expected_checksum header transport data)) as [E|E].
  - split; [|split].
    + split; [intros _; exact E|intros _].
      unfold parse, Const, bind, ret, Int8ub, fail, raise.
      destruct rest as [|st rest]; [discriminate|].
      destruct (b2z st =? 22); discriminate.
    + intros H; contradiction.
    + split; [simpl; intuition discriminate|exact Honly].
  - split; [|split].
    + split; [intros H; exfalso; apply H; reflexivity|intros H; contradiction].
    + reflexivity.
    + split; [simpl; intuition discriminate|exact Honly].
Qed.

Lemma checksum_error_iff_mismatch_witness :
  parse MBusDataLinkLayer corrupted_frame = Err (ConstructErr ChecksumError) /\
  parse MBusDataLinkLayer single_frame <> Err (ConstructErr ChecksumError).
Proof.
  split.
  - apply (checksum_error_iff_mismatch corrupted_frame (drop 6 corrupted_frame)
             (drop 9 corrupted_frame) [x16]
             {| Start_Character := 104; L_Field := 24; _L_Field := 24;
                C_Field := 83; A_Field := 255 |}
             {| CI_Field := 16; STSAP := 1; DTSAP := 103 |}
             (ciphered 8 [xaa; xbb; xcc]) x00); try reflexivity.
    vm_compute. discriminate.
  - apply (checksum_error_iff_mismatch single_frame (drop 6 single_frame)
             (drop 9 single_frame) [x16]
             {| Start_Character := 104; L_Field := 24; _L_Field := 24;
                C_Field := 83; A_Field := 255 |}
             {| CI_Field := 16; STSAP := 1; DTSAP := 103 |}
             (ciphered 8 [xaa; xbb; xcc]) x55); reflexivity.
Defined.

(** C7: when the buffer starts with a whole physical frame [bad], of
    [L + 6] bytes, that fails its checksum, [read] drops the open frame,
    trims the buffer past these [L + 6] bytes and goes on hunting: the call
    ends as the call of a fresh reader on the bytes [tail] behind that
    frame does, so a valid frame right behind the corrupted one is
    decoded. *)
Theorem checksum_mismatch_skips_frame (self : t) (data_chunk bad tail : list byte)
    (header : MBusDataLinkHeader_t) :
  _buffer self ++ data_chunk = bad ++ tail ->
  parse MBusDataLinkHeader bad = Ok header ->
  Z.of_nat (length bad) = L_Field header + 6 ->
  parse MBusDataLinkLayer bad = Err (ConstructErr ChecksumError) ->
  read_iteration (extend self data_chunk) =
    Next {| _buffer := tail; _frame := None; _key_hex := _key_hex self |} None /\
  read self data_chunk = read (init (_key_hex self)) tail.
Proof.
  intros Hbuf Hh0 Hlen Hm0.
  pose proof (MBusDataLinkHeader_length _ _ Hh0) as H60.
  assert (Hh : parse MBusDataLinkHeader (bad ++ tail) = Ok header)
    by (rewrite (fixed_parse _ _ _ _ fixed_MBusDataLinkHeader H60); exact Hh0).
  assert (Hm : parse MBusDataLinkLayer (bad ++ tail) = Err (ConstructErr ChecksumError)).
  { destruct (parse_layer_extend bad tail header Hh0 ltac:(lia))
      as [->|(ce & ce' & _ & Hce' & _ & Hne)]; [exact Hm0|congruence]. }
  assert (Hit : read_iteration (extend self data_chunk) =
                Next {| _buffer := tail; _frame := None; _key_hex := _key_hex self |} None).
  { rewrite read_iteration_eq. unfold size, try_frame.
    change (_buffer (extend self data_chunk)) with (_buffer self ++ data_chunk).
    rewrite Hbuf, Hh, Hm.
    pose proof (MBusDataLinkHeader_length _ _ Hh) as H6.
    pose proof (MBusDataLinkHeader_L_range _ _ Hh) as HL.
    rewrite length_app in *.
    destruct (Z.geb_spec (Z.of_nat (length bad + length tail)) 6); [|lia].
    destruct (Z.geb_spec (Z.of_nat (length bad + length tail)) (L_Field header + 6)); [|lia].
    simpl. unfold trim_buffer_to_pos, _ReaderBuffer.extend.
    rewrite Hbuf, slice_from_nonneg by lia.
    rewrite <- Hlen, Nat2Z.id, drop_app_length. reflexivity. }
  split; [exact Hit|].
  rewrite read_run, run_unfold, Hit. simpl. rewrite prepend_nil. reflexivity.
Qed.

Lemma checksum_mismatch_skips_frame_witness :
  read (init "00") (corrupted_frame ++ single_frame) = read (init "00") single_frame /\
  exists f self', read (init "00") (corrupted_frame ++ single_frame) = Returned [f] self'.
Proof.
  split.
  - apply (checksum_mismatch_skips_frame (init "00") (corrupted_frame ++ single_frame)
             corrupted_frame single_frame
             {| Start_Character := 104; L_Field := 24; _L_Field := 24;
                C_Field := 83; A_Field := 255 |}); reflexivity.
  - eexists _, _. vm_compute. reflexivity.
Defined.

(** ** Resynchronisation *)

Lemma index_Some (sub : Z) (l : list byte) (i : nat) :
  index sub l = Some i ->
  (exists b, l !! i = Some b /\ b2z b = sub) /\
  (forall j b, (j < i)%nat -> l !! j = Some b -> b2z b <> sub).
Proof.
  revert i; induction l as [|b l IH]; intros i; simpl; [discriminate|].
  destruct (Z.eqb_spec (b2z b) sub) as [E|E].
  - intros [= <-]. split; [exists b; auto|intros j b' Hj; lia].
  - destruct (index sub l) as [k|]; simpl; [|discriminate].
    intros [= <-]. destruct (IH k eq_refl) as [Hk Hlt]. split; [exact Hk|].
    intros [|j] b' Hj; simpl.
    + intros [= <-]. exact E.
    + apply Hlt. lia.
Qed.

Lemma index_None (sub : Z) (l : list byte) :
  index sub l = None -> forall j b, l !! j = Some b -> b2z b <> sub.
Proof.
  induction l as [|b l IH]; simpl; [intros _ j b'; rewrite lookup_nil; discriminate|].
  destruct (Z.eqb_spec (b2z b) sub) as [E|E]; [discriminate|].
  destruct (index sub l) as [k|]; simpl; [discriminate|]. intros _.
  intros [|j] b'; simpl; [intros [= <-]; exact E|apply IH; reflexivity].
Qed.

(** [trim_buffer_to_start_character_or_end] drops everything in front of
    the first start character from position 1 on, or everything. *)
Lemma trim_spec (buf : list byte) :
  (0 < length buf)%nat ->
  (exists pos, first_start_from_1 buf pos /\
               trim_buffer_to_start_character_or_end buf = drop pos buf) \/
  (no_start_from_1 buf /\ trim_buffer_to_start_character_or_end buf = []).
Proof.
  destruct buf as [|b r]; simpl; [lia|intros _].
  rewrite trim_cons. unfold skip_to_start.
  destruct (index START_CHARACTER r) as [i|] eqn:E.
  - left. exists (S i). destruct (index_Some _ _ _ E) as [Hi Hlt].
    split; [|reflexivity]. split; [lia|split; [exact Hi|]].
    intros [|q] b' Hq; [lia|]. simpl. apply Hlt. lia.
  - right. split; [|reflexivity].
    intros [|q] b' Hq; [lia|]. simpl. apply (index_None _ _ E).
Qed.

Lemma existsb_range (x : Z) (lo hi : nat) :
  existsb (Z.eqb x) (range lo hi) = true <-> Z.of_nat lo <= x < Z.of_nat hi.
Proof.
  unfold range. rewrite existsb_exists. split.
  - intros (y & Hy & E). apply Z.eqb_eq in E. subst y.
    apply in_map_iff in Hy as (n & <- & Hn). apply in_seq in Hn. lia.
  - intros H. exists x. split; [|apply Z.eqb_refl].
    apply in_map_iff. exists (Z.to_nat x). split; [lia|]. apply in_seq. lia.
Qed.

(** C8, as amended: a structural failure of the data-link header (bad
    start marker, mismatched duplicate of the length byte, disallowed
    control field), or of the frame behind a good header once its [L + 6]
    bytes are buffered (a disallowed CI value among these), makes [read]
    drop the open frame and trim the buffer to the next 0x68 at a position
    from 1 on, dropping everything in front of it, or empty the buffer when
    there is none; the loop then goes on with that reader.  What lies
    behind a good header, the CI value included, is not looked at before the
    [L + 6] bytes of the frame are buffered: until then the pass leaves the
    loop, and the reader stays as it is. *)
Theorem structural_failure_resyncs :
  (forall self : t,
     6 <= size (_buffer self) ->
     (exists ce, parse MBusDataLinkHeader (_buffer self) = Err (ConstructErr ce)) \/
     (exists header ce,
        parse MBusDataLinkHeader (_buffer self) = Ok header /\
        L_Field header + 6 <= size (_buffer self) /\
        try_frame (_key_hex self) (_frame self) (_buffer self) = inl (ConstructErr ce) /\
        ce <> ChecksumError) ->
     read_iteration self = Next (resync self) None /\
     _frame (resync self) = None /\
     ((exists pos, first_start_from_1 (_buffer self) pos /\
                   _buffer (resync self) = drop pos (_buffer self)) \/
      (no_start_from_1 (_buffer self) /\ _buffer (resync self) = [])) /\
     run self = run (resync self)) /\
  (forall (b0 l l' b3 c a : byte) (rest : list byte),
     b2z b0 <> 0x68 \/ b2z b3 <> 0x68 \/ b2z l' <> b2z l \/
     (b2z c <> 0x53 /\ b2z c <> 0x73) ->
     exists ce,
       parse MBusDataLinkHeader (b0 :: l :: l' :: b3 :: c :: a :: rest)
       = Err (ConstructErr ce)) /\
  (forall key_hex frame (buf : list byte) header (ci : byte),
     parse MBusDataLinkHeader buf = Ok header ->
     buf !! 6%nat = Some ci ->
     0x1F <= b2z ci ->
     exists ce, try_frame key_hex frame buf = inl (ConstructErr ce) /\ ce <> ChecksumError) /\
  (forall (self : t) header,
     parse MBusDataLinkHeader (_buffer self) = Ok header ->
     size (_buffer self) < L_Field header + 6 ->
     read_iteration self = Break).
Proof.
  split; [|split; [|split]].
  - intros self H6 Hcause. unfold size in *.
    assert (Hit : read_iteration self = Next (resync self) None).
    { rewrite read_iteration_eq. unfold size.
      destruct (Z.geb_spec (Z.of_nat (length (_buffer self))) 6); [|lia].
      destruct Hcause as [[ce ->]|(h & ce & -> & Hlen & -> & Hce)]; [reflexivity|].
      destruct (Z.geb_spec (Z.of_nat (length (_buffer self))) (L_Field h + 6)); [|lia].
      destruct ce; simpl; congruence. }
    split; [exact Hit|split; [reflexivity|split]].
    + apply trim_spec. lia.
    + rewrite run_unfold, Hit. simpl. apply prepend_nil.
  - intros b0 l l' b3 c a rest Hcause. unfold parse.
    rewrite MBusDataLinkHeader_bytes.
    destruct (Z.eqb_spec (b2z b0) 104); simpl; [|eauto].
    destruct (Z.eqb_spec (b2z l') (b2z l)); simpl; [|eauto].
    destruct (Z.eqb_spec (b2z b3) 104); simpl; [|eauto].
    destruct (Z.eqb_spec (b2z c) 83); simpl; [lia|].
    destruct (Z.eqb_spec (b2z c) 115); simpl; [lia|eauto].
  - intros key_hex frame buf header ci Hh Hci Hbad.
    pose proof (MBusDataLinkHeader_length _ _ Hh) as H6.
    destruct buf as [|b0 [|b1 [|b2 [|b3 [|b4 [|b5 r]]]]]]; simpl in H6; try lia.
    simpl in Hci. destruct r as [|ci' r]; [discriminate|]. injection Hci as ->.
    apply parse_Ok_inv in Hh as [r6 Hr]. pose proof Hr as Hr'.
    rewrite MBusDataLinkHeader_bytes in Hr'.
    repeat match type of Hr' with
           | context [if ?b then _ else _] => destruct b; try discriminate
           end.
    injection Hr' as _ <-.
    unfold try_frame. rewrite (parse_layer_header _ _ _ Hr).
    unfold parse, frame_rest, bind at 1.
    unfold MBusTransportLayer, OneOf, bind at 1. unfold bind at 1, Int8ub at 1.
    destruct (existsb (Z.eqb (b2z ci)) (range 0 31)) eqn:E.
    + apply existsb_range in E. lia.
    + exists ValidationError. split; [reflexivity|discriminate].
  - intros self header Hh Hlen. rewrite read_iteration_eq, Hh.
    pose proof (MBusDataLinkHeader_length _ _ Hh). unfold size in *.
    destruct (Z.geb_spec (Z.of_nat (length (_buffer self))) 6); [|lia].
    destruct (Z.geb_spec (Z.of_nat (length (_buffer self))) (L_Field header + 6));
      [lia|reflexivity].
Qed.

Lemma structural_failure_resyncs_witness :
  read_iteration (hunting ([x00; x68] ++ single_frame) "00")
    = Next (resync (hunting ([x00; x68] ++ single_frame) "00")) None /\
  (exists ce, parse MBusDataLinkHeader ([x68; x18; x19; x68; x53; xff] ++ [x10])
              = Err (ConstructErr ce)) /\
  (exists ce, try_frame "00"%string None (physical_frame 0x1F []) = inl (ConstructErr ce)
              /\ ce <> ChecksumError).
Proof.
  destruct structural_failure_resyncs as (H1 & H2 & H3 & _). split; [|split].
  - apply (H1 (hunting ([x00; x68] ++ single_frame) "00")).
    + vm_compute. discriminate.
    + left. exists ConstError. reflexivity.
  - apply (H2 x68 x18 x19 x68 x53 xff [x10]).
    right. right. left. vm_compute. discriminate.
  - apply (H3 "00"%string None (physical_frame 0x1F [])
              {| Start_Character := 104; L_Field := 5; _L_Field := 5;
                 C_Field := 83; A_Field := 255 |} x1f).
    + reflexivity.
    + reflexivity.
    + vm_compute. discriminate.
Defined.

(** C8 as it is stated does not hold for a disallowed CI value.  The
    header is good and announces a frame of 261 bytes, of which 37 are
    there; the CI value is 0x7F; a frame is open.  [read] returns nothing
    and keeps the buffer and the open frame.  The resynchronisation that the
    claim describes would have dropped the open frame and gone on to return
    the frame that follows in the buffer. *)
Lemma structural_failure_resyncs_counterexample :
  parse MBusDataLinkHeader (disallowed_ci_head ++ single_frame)
  = Ok {| Start_Character := 0x68; L_Field := 0xFF; _L_Field := 0xFF;
          C_Field := 0x53; A_Field := 0xFF |} /\
  (disallowed_ci_head ++ single_frame) !! 6%nat = Some x7f /\
  0x1F <= b2z x7f /\
  read_iteration (extend (assembling open_frame "00") (disallowed_ci_head ++ single_frame))
  = Break /\
  read (assembling open_frame "00") (disallowed_ci_head ++ single_frame)
  = Returned [] (extend (assembling open_frame "00") (disallowed_ci_head ++ single_frame)) /\
  run (resync (extend (assembling open_frame "00") (disallowed_ci_head ++ single_frame)))
  = Returned
      [{| DlmsTinetzFrame._key := [x00]; DlmsTinetzFrame._length := 3;
          DlmsTinetzFrame._system_title := [x01; x02; x03; x04; x05; x06; x07; x08];
          DlmsTinetzFrame._frame_counter := [x00; x00; x00; x2a];
          DlmsTinetzFrame._frame_data := [xaa; xbb; xcc] |}]
      (init "00").
Proof.
  repeat split; try reflexivity. vm_compute. discriminate.
Qed.

(** ** The length field of the ciphering header *)

Lemma list_length_8 {A} (l : list A) :
  length l = 8%nat -> exists a b c d e f g h, l = [a; b; c; d; e; f; g; h].
Proof.
  destruct l as [|a [|b [|c [|d [|e [|f [|g [|h [|i l]]]]]]]]]; try discriminate.
  intros _. eauto 10.
Qed.

Lemma list_length_4 {A} (l : list A) :
  length l = 4%nat -> exists a b c d, l = [a; b; c; d].
Proof.
  destruct l as [|a [|b [|c [|d [|e l]]]]]; try discriminate.
  intros _. eauto 10.
Qed.

Lemma DLMSApplicationLayer_length_field (title : list byte) (b : byte) (rest : list byte) :
  length title = 8%nat ->
  DLMSApplicationLayer ([xdb; x08] ++ title ++ b :: rest) =
    if b2z b =? 0x82
    then bind Int16ub
           (fun len => ciphering_rest (map b2z title) (Some 0x82) (Some 0x82) len) rest
    else ciphering_rest (map b2z title) (Some (b2z b)) None (b2z b) rest.
Proof.
  intros Ht. apply list_length_8 in Ht as (t0 & t1 & t2 & t3 & t4 & t5 & t6 & t7 & ->).
  unfold DLMSApplicationLayer, ciphering_rest, Const, If, Peek, Array, Int16ub, bind,
    Int8ub, ret.
  cbn [app map]. cbv beta iota.
  change (b2z xdb =? 219) with true. cbv beta iota.
  change (b2z x08 =? 8) with true. cbv beta iota.
  case_bool_decide as Hb.
  - injection Hb as Hb. rewrite Hb. reflexivity.
  - destruct (Z.eqb_spec (b2z b) 130) as [E|E]; [rewrite E in Hb; contradiction|].
    reflexivity.
Qed.

(** C5: in the ciphering header, when the byte behind the eight bytes of
    the system title is 0x82, that byte is consumed as a prefix and the
    length is the next two bytes, big-endian; any other byte is itself the
    length.  The security control byte, the frame counter and the payload
    are read behind the length field so found. *)
Theorem length_field_variable_width :
  (forall (title : list byte) (b : byte) (rest : list byte),
     length title = 8%nat ->
     DLMSApplicationLayer ([xdb; x08] ++ title ++ b :: rest) =
       if b2z b =? 0x82
       then bind Int16ub
              (fun len => ciphering_rest (map b2z title) (Some 0x82) (Some 0x82) len) rest
       else ciphering_rest (map b2z title) (Some (b2z b)) None (b2z b) rest) /\
  (forall (title fc payload : list byte) (hi lo : byte),
     length title = 8%nat -> length fc = 4%nat ->
     parse DLMSApplicationLayer
       ([xdb; x08] ++ title ++ [x82; hi; lo; x21] ++ fc ++ payload) =
     Ok {| Ciphering_Service := 0xDB; System_Title_Length := 0x08;
           System_Title := map b2z title;
           _length_peek := Some 0x82; Length_Prefix := Some 0x82;
           Length := b2z hi * 256 + b2z lo;
           Security_Control_Byte := 0x21; Frame_Counter := map b2z fc;
           Encrypted_Payload := payload |}) /\
  (forall (title fc payload : list byte) (b : byte),
     length title = 8%nat -> length fc = 4%nat -> b2z b <> 0x82 ->
     parse DLMSApplicationLayer
       ([xdb; x08] ++ title ++ [b; x21] ++ fc ++ payload) =
     Ok {| Ciphering_Service := 0xDB; System_Title_Length := 0x08;
           System_Title := map b2z title;
           _length_peek := Some (b2z b); Length_Prefix := None;
           Length := b2z b;
           Security_Control_Byte := 0x21; Frame_Counter := map b2z fc;
           Encrypted_Payload := payload |}).
Proof.
  split; [exact DLMSApplicationLayer_length_field|split].
  - intros title fc payload hi lo Ht Hf. unfold parse.
    change ([x82; hi; lo; x21] ++ fc ++ payload)
      with (x82 :: ([hi; lo; x21] ++ fc ++ payload)).
    rewrite (DLMSApplicationLayer_length_field _ _ _ Ht).
    apply list_length_4 in Hf as (f0 & f1 & f2 & f3 & ->).
    reflexivity.
  - intros title fc payload b Ht Hf Hb. unfold parse.
    change ([b; x21] ++ fc ++ payload) with (b :: ([x21] ++ fc ++ payload)).
    rewrite (DLMSApplicationLayer_length_field _ _ _ Ht).
    apply list_length_4 in Hf as (f0 & f1 & f2 & f3 & ->).
    destruct (Z.eqb_spec (b2z b) 130); [contradiction|]. reflexivity.
Qed.

Lemma length_field_variable_width_witness :
  (exists d, parse DLMSApplicationLayer
       ([xdb; x08] ++ [x01; x02; x03; x04; x05; x06; x07; x08]
        ++ [x82; x01; x2c; x21] ++ [x00; x00; x00; x2a] ++ [xaa])
     = Ok d /\ Length d = 300 /\ Encrypted_Payload d = [xaa]) /\
  (exists d, parse DLMSApplicationLayer
       ([xdb; x08] ++ [x01; x02; x03; x04; x05; x06; x07; x08]
        ++ [x81; x21] ++ [x00; x00; x00; x2a] ++ [xaa])
     = Ok d /\ Length d = 129 /\ Encrypted_Payload d = [xaa]).
Proof.
  destruct length_field_variable_width as (_ & H2 & H3). split.
  - eexists. split; [apply H2; reflexivity|]. split; reflexivity.
  - eexists. split; [apply H3; [reflexivity|reflexivity|vm_compute; discriminate]|].
    split; reflexivity.
Defined.

(** ** The payload *)

Lemma xor_bytes_length (data stream : list byte) :
  length (xor_bytes data stream) = Nat.min (length data) (length stream).
Proof.
  revert stream; induction data as [|d data IH]; intros [|k stream]; simpl; auto.
Qed.

Lemma gcm_keystream_length (AES_encrypt_block ghash_j0 : list byte -> list byte -> list byte)
    (key nonce : list byte) (nblocks : nat) :
  (forall k b, length (AES_encrypt_block k b) = 16%nat) ->
  length (gcm_keystream AES_encrypt_block ghash_j0 key nonce nblocks) = (16 * nblocks)%nat.
Proof.
  intros Hblock. unfold gcm_keystream.
  assert (H : forall l : list nat,
             length (concat (map (fun i => AES_encrypt_block key
                                   (inc32 (gcm_j0 ghash_j0 key nonce) (Z.of_nat i + 1))) l))
             = (16 * length l)%nat).
  { induction l as [|i l IH]; [reflexivity|].
    cbn [map concat]. rewrite length_app, Hblock, IH. simpl length. lia. }
  rewrite H, length_seq. reflexivity.
Qed.

Lemma gcm_decrypt_length (AES_encrypt_block ghash_j0 : list byte -> list byte -> list byte)
    (key nonce ciphertext : list byte) :
  (forall k b, length (AES_encrypt_block k b) = 16%nat) ->
  length (gcm_decrypt AES_encrypt_block ghash_j0 key nonce ciphertext) = length ciphertext.
Proof.
  intros Hblock. unfold gcm_decrypt.
  rewrite xor_bytes_length, gcm_keystream_length by exact Hblock.
  pose proof (Nat.div_mod_eq (length ciphertext + 15) 16).
  pose proof (Nat.mod_upper_bound (length ciphertext + 15) 16). lia.
Qed.

Lemma Array_length {A} (n : nat) (p : Construct A) (s r : list byte) (l : list A) :
  Array n p s = Ok (l, r) -> length l = n.
Proof.
  revert s r l; induction n as [|n IH]; intros s r l; simpl.
  - intros [= <- _]. reflexivity.
  - unfold bind at 1. destruct (p s) as [[x s1]|e]; [|discriminate].
    unfold bind at 1. destruct (Array n p s1) as [[xs s2]|e] eqn:E; [|discriminate].
    intros [= <- _]. simpl. f_equal. eapply IH, E.
Qed.

Lemma DLMSApplicationLayer_lengths (s : list byte) (d : DLMSApplicationLayer_t) :
  parse DLMSApplicationLayer s = Ok d ->
  length (System_Title d) = 8%nat /\ length (Frame_Counter d) = 4%nat.
Proof.
  unfold parse, DLMSApplicationLayer.
  repeat (unfold bind at 1;
          match goal with
          | |- context [match ?p ?s with Ok _ => _ | Err _ => _ end] =>
              let E := fresh "E" in destruct (p s) as [[? ?]|?] eqn:E; [|discriminate]
          end).
  unfold ret. intros [= <-]. simpl.
  split; eapply Array_length; eassumption.
Qed.

Lemma Int8ub_range (s r : list byte) (x : Z) : Int8ub s = Ok (x, r) -> 0 <= x < 256.
Proof.
  unfold Int8ub. destruct s as [|b s']; [discriminate|].
  intros [= <- _]. apply b2z_range.
Qed.

Lemma Int16ub_range (s r : list byte) (x : Z) : Int16ub s = Ok (x, r) -> 0 <= x < 65536.
Proof.
  unfold Int16ub, bind, ret.
  destruct (Int8ub s) as [[hi s1]|e] eqn:E1; [|discriminate].
  destruct (Int8ub s1) as [[lo s2]|e] eqn:E2; [|discriminate].
  intros [= <- _]. apply Int8ub_range in E1, E2. lia.
Qed.

Lemma DLMSApplicationLayer_Length_range (s : list byte) (d : DLMSApplicationLayer_t) :
  parse DLMSApplicationLayer s = Ok d -> 0 <= Length d < 65536.
Proof.
  unfold parse, DLMSApplicationLayer.
  do 5 (unfold bind at 1;
        match goal with
        | |- context [match ?p ?s with Ok _ => _ | Err _ => _ end] =>
            destruct (p s) as [[? ?]|?]; [|discriminate]
        end).
  unfold bind at 1.
  match goal with
  | |- context [match ?p ?s with Ok _ => _ | Err _ => _ end] =>
      destruct (p s) as [[len r]|?] eqn:El; [|discriminate]
  end.
  assert (Hlen : 0 <= len < 65536).
  { destruct (bool_decide _).
    - eapply Int16ub_range, El.
    - apply Int8ub_range in El. lia. }
  repeat (unfold bind at 1;
          match goal with
          | |- context [match ?p ?s with Ok _ => _ | Err _ => _ end] =>
              destruct (p s) as [[? ?]|?]; [|discriminate]
          end).
  unfold ret. intros [= <-]. exact Hlen.
Qed.

Lemma accumulate_frame_of_reader (key_hex : string) (frame : option DlmsTinetzFrame.t)
    (m : MBusDataLinkLayer_t) (f' : DlmsTinetzFrame.t) :
  (forall f, frame = Some f -> frame_of_reader key_hex f) ->
  accumulate key_hex frame m = inr (Some f') ->
  frame_of_reader key_hex f'.
Proof.
  intros Hinv. unfold accumulate, DlmsTinetzFrame.init.
  destruct frame as [f|].
  - specialize (Hinv f eq_refl).
    destruct (_ >? 0); intros [= <-]; exact Hinv.
  - destruct (_ =? 0); [|discriminate].
    destruct (parse DLMSApplicationLayer (Data m)) as [d|e] eqn:Ed; [|discriminate].
    destruct (unhexlify key_hex) as [key|] eqn:Ek; [|discriminate].
    intros [= <-]. pose proof (DLMSApplicationLayer_Length_range _ _ Ed) as Hr.
    apply DLMSApplicationLayer_lengths in Ed as [Ht Hc].
    unfold frame_of_reader; simpl. rewrite !length_map. repeat split; auto. lia.
Qed.

Lemma read_iteration_frame_of_reader (self self' : t) (received : option DlmsTinetzFrame.t) :
  open_frame_of_reader self ->
  read_iteration self = Next self' received ->
  open_frame_of_reader self' /\
  (forall f, received = Some f -> frame_of_reader (_key_hex self) f).
Proof.
  intros Hinv. rewrite read_iteration_eq.
  assert (Hnone : forall buf, open_frame_of_reader
                                {| _buffer := buf; _frame := None; _key_hex := _key_hex self |})
    by (intros buf f; discriminate).
  destruct (_ >=? 6); [|discriminate].
  destruct (parse MBusDataLinkHeader (_buffer self)) as [h|[ce| | | |]];
    try discriminate; [|intros [= <- <-]; split; [apply Hnone|discriminate]].
  destruct (_ >=? _); [|discriminate].
  unfold try_frame.
  destruct (parse MBusDataLinkLayer (_buffer self)) as [m|e].
  - destruct (accumulate _ _ m) as [e|pending] eqn:Ea.
    + destruct e as [[| | | | | |]| | | |]; simpl; try discriminate;
        intros [= <- <-]; split; try apply Hnone; discriminate.
    + assert (Hp : forall f, pending = Some f -> frame_of_reader (_key_hex self) f).
      { intros f ->. eapply accumulate_frame_of_reader; [exact Hinv|exact Ea]. }
      unfold complete. destruct pending as [p|]; simpl.
      * destruct (_ =? 16); simpl.
        -- intros [= <- <-]. split; [apply Hnone|].
           destruct (DlmsTinetzFrame.is_valid p); [|discriminate].
           intros f [= <-]. apply Hp. reflexivity.
        -- intros [= <- <-]. split; [|discriminate].
           intros f [= <-]. apply Hp. reflexivity.
      * intros [= <- <-]. split; [apply Hnone|discriminate].
  - destruct e as [[| | | | | |]| | | |]; simpl; try discriminate;
      intros [= <- <-]; split; try apply Hnone; discriminate.
Qed.

Lemma run_frame_of_reader (self self' : t) (frames : list DlmsTinetzFrame.t) :
  open_frame_of_reader self ->
  run self = Returned frames self' ->
  open_frame_of_reader self' /\ _key_hex self' = _key_hex self /\
  Forall (frame_of_reader (_key_hex self)) frames.
Proof.
  revert frames; induction self as [self IH] using reader_ind; intros frames Hinv.
  rewrite run_unfold.
  destruct (read_iteration self) as [| |self1 r|e] eqn:E; try discriminate;
    try (intros [= <- <-]; auto).
  pose proof (read_iteration_shrinks _ _ _ E) as Hlt.
  pose proof (read_iteration_key _ _ _ E) as Hk.
  destruct (read_iteration_frame_of_reader _ _ _ Hinv E) as [Hinv1 Hr].
  destruct (run self1) as [fs s| |] eqn:E1; try discriminate.
  simpl. intros [= <- <-].
  destruct (IH self1 Hlt fs Hinv1 E1) as (Hs & Hks & Hfs).
  rewrite Hk in *. split; [exact Hs|split; [exact Hks|]].
  apply Forall_app. split; [|exact Hfs].
  destruct r as [f|]; simpl; constructor; [apply Hr; reflexivity|constructor].
Qed.

Lemma read_chunks_frame_of_reader (self self' : t) (chunks : list (list byte))
    (frames : list DlmsTinetzFrame.t) :
  open_frame_of_reader self ->
  read_chunks self chunks = Returned frames self' ->
  Forall (frame_of_reader (_key_hex self)) frames.
Proof.
  revert self frames; induction chunks as [|c cs IH]; intros self frames Hinv.
  - intros [= <- _]. constructor.
  - rewrite read_chunks_cons, read_run.
    destruct (run (extend self c)) as [f s| |] eqn:E; try discriminate.
    destruct (run_frame_of_reader (extend self c) s f Hinv E) as (Hs & Hk & Hf).
    destruct (read_chunks s cs) as [f' s'| |] eqn:E'; try discriminate.
    simpl. intros [= <- <-]. apply Forall_app. split; [exact Hf|].
    specialize (IH s f' Hs E'). rewrite Hk in IH. exact IH.
Qed.

Lemma read_chunks_valid (self self' : t) (chunks : list (list byte))
    (frames : list DlmsTinetzFrame.t) :
  read_chunks self chunks = Returned frames self' ->
  Forall (fun f => Z.of_nat (length (DlmsTinetzFrame._frame_data f))
                   = DlmsTinetzFrame._length f) frames.
Proof.
  revert self frames; induction chunks as [|c cs IH]; intros self frames.
  - intros [= <- _]. constructor.
  - rewrite read_chunks_cons, read_run.
    destruct (run (extend self c)) as [f s| |] eqn:E; try discriminate.
    destruct (read_chunks s cs) as [f' s'| |] eqn:E'; try discriminate.
    simpl. intros [= <- <-]. apply Forall_app. split; [eapply run_valid, E|].
    eapply IH, E'.
Qed.

(** ** The counter mode *)

Lemma lxor_range (x y : Z) : 0 <= x < 256 -> 0 <= y < 256 -> 0 <= Z.lxor x y < 256.
Proof.
  intros Hx Hy.
  assert (H0 : 0 <= Z.lxor x y) by (apply Z.lxor_nonneg; lia).
  split; [exact H0|].
  destruct (Z.eq_dec (Z.lxor x y) 0) as [->|Hne]; [lia|].
  change 256 with (2 ^ 8). apply Z.log2_lt_pow2; [lia|].
  pose proof (Z.log2_lxor x y ltac:(lia) ltac:(lia)) as Hl.
  assert (Hlog : forall z, 0 <= z < 256 -> Z.log2 z < 8).
  { intros z Hz. destruct (Z.eq_dec z 0) as [->|]; [reflexivity|].
    apply Z.log2_lt_pow2; [lia|]. exact (proj2 Hz). }
  pose proof (Hlog x Hx). pose proof (Hlog y Hy). lia.
Qed.

Lemma byte_xor_involutive (a k : byte) : byte_xor (byte_xor a k) k = a.
Proof.
  unfold byte_xor.
  rewrite b2z_z2b_small by (apply lxor_range; apply b2z_range).
  rewrite Z.lxor_assoc, Z.lxor_nilpotent, Z.lxor_0_r. apply z2b_b2z.
Qed.

Lemma xor_bytes_lookup (data stream : list byte) (i : nat) (c k : byte) :
  data !! i = Some c -> stream !! i = Some k ->
  xor_bytes data stream !! i = Some (byte_xor c k).
Proof.
  revert stream i; induction data as [|d data IH]; intros [|k' stream] [|i];
    simpl; try discriminate.
  - intros [= ->] [= ->]. reflexivity.
  - apply IH.
Qed.

Lemma xor_bytes_involutive (data stream : list byte) :
  (length data <= length stream)%nat ->
  xor_bytes (xor_bytes data stream) stream = data.
Proof.
  revert stream; induction data as [|d data IH]; intros [|k stream]; simpl;
    try reflexivity; try lia.
  intros H. rewrite byte_xor_involutive, IH by lia. reflexivity.
Qed.

(** A position in blocks of one length: the block and the place in it. *)
Lemma lookup_concat_blocks {A} (n : nat) (blocks : list (list A)) (i : nat) :
  (0 < n)%nat -> Forall (fun b => length b = n) blocks ->
  concat blocks !! i =
    match blocks !! (i / n)%nat with
    | Some b => b !! (i mod n)%nat
    | None => None
    end.
Proof.
  intros Hn Hall. revert i. induction Hall as [|b blocks Hb _ IH]; intros i.
  - reflexivity.
  - cbn [concat]. destruct (Nat.lt_ge_cases i n) as [Hi|Hi].
    + rewrite lookup_app_l by lia.
      rewrite Nat.div_small, Nat.mod_small by exact Hi. reflexivity.
    + rewrite lookup_app_r by lia. rewrite IH, Hb.
      assert (Hq : ((i - n + 1 * n) / n = S ((i - n) / n) /\
                    (i - n + 1 * n) mod n = (i - n) mod n)%nat).
      { rewrite Nat.div_add, Nat.Div0.mod_add by lia. split; [lia|reflexivity]. }
      replace (i - n + 1 * n)%nat with i in Hq by lia.
      destruct Hq as [-> ->]. reflexivity.
Qed.

Section counter_mode.

Variable AES_encrypt_block : list byte -> list byte -> list byte.
Variable ghash_j0 : list byte -> list byte -> list byte.
Hypothesis AES_block : forall k b, length (AES_encrypt_block k b) = 16%nat.

(** The key stream, byte by byte. *)
Lemma gcm_keystream_lookup (key nonce : list byte) (nblocks i : nat) :
  (i < 16 * nblocks)%nat ->
  gcm_keystream AES_encrypt_block ghash_j0 key nonce nblocks !! i
  = AES_encrypt_block key (inc32 (gcm_j0 ghash_j0 key nonce) (Z.of_nat (i / 16) + 1))
      !! (i mod 16)%nat.
Proof.
  intros Hi. unfold gcm_keystream.
  rewrite (lookup_concat_blocks 16) by
    (first [lia | induction (seq 0 nblocks); constructor; auto]).
  assert (Hj : (i / 16 < nblocks)%nat) by (apply Nat.Div0.div_lt_upper_bound; lia).
  rewrite list_lookup_fmap, lookup_seq_lt by exact Hj. reflexivity.
Qed.

(** With a nonce of 12 bytes the counter blocks are the nonce followed by
    the numbers from 2 on. *)
Lemma inc32_nonce (key nonce : list byte) (k : Z) :
  length nonce = 12%nat -> 0 <= k -> k + 1 < 2 ^ 32 ->
  inc32 (gcm_j0 ghash_j0 key nonce) k = nonce ++ be32 (k + 1).
Proof.
  intros Hn Hk Hlt. unfold gcm_j0, inc32. rewrite Hn. cbn [Nat.eqb].
  rewrite take_app_length', drop_app_length' by (symmetry; exact Hn).
  change (be_int (be32 1)) with 1.
  rewrite Z.mod_small by lia. do 2 f_equal. lia.
Qed.

Lemma gcm_decrypt_lookup (key nonce data : list byte) (i : nat) (c : byte) :
  length nonce = 12%nat ->
  Z.of_nat (length data) <= 2 ^ 36 - 32 ->
  data !! i = Some c ->
  exists k,
    AES_encrypt_block key (nonce ++ be32 (Z.of_nat (i / 16) + 2)) !! (i mod 16)%nat = Some k /\
    gcm_decrypt AES_encrypt_block ghash_j0 key nonce data !! i = Some (byte_xor c k).
Proof.
  intros Hn Hlen Hc.
  assert (Hi : (i < length data)%nat) by (eapply lookup_lt_Some, Hc).
  pose proof (Nat.div_mod_eq (length data + 15) 16) as Hd.
  pose proof (Nat.mod_upper_bound (length data + 15) 16 ltac:(lia)) as Hm.
  pose proof (Nat.div_mod_eq i 16) as Hdi.
  pose proof (Nat.mod_upper_bound i 16 ltac:(lia)) as Hmi.
  assert (Hks : gcm_keystream AES_encrypt_block ghash_j0 key nonce
                  ((length data + 15) / 16) !! i
                = AES_encrypt_block key (nonce ++ be32 (Z.of_nat (i / 16) + 2))
                    !! (i mod 16)%nat).
  { rewrite gcm_keystream_lookup by lia.
    rewrite inc32_nonce by (try exact Hn; lia).
    replace (Z.of_nat (i / 16) + 1 + 1) with (Z.of_nat (i / 16) + 2) by lia.
    reflexivity. }
  destruct (AES_encrypt_block key (nonce ++ be32 (Z.of_nat (i / 16) + 2)) !! (i mod 16)%nat)
    as [k|] eqn:Ek.
  - exists k. split; [reflexivity|]. unfold gcm_decrypt.
    apply xor_bytes_lookup; assumption.
  - apply lookup_ge_None in Ek. rewrite AES_block in Ek. lia.
Qed.

Lemma gcm_decrypt_encrypt (key nonce message : list byte) :
  gcm_decrypt AES_encrypt_block ghash_j0 key nonce
    (gcm_encrypt AES_encrypt_block ghash_j0 key nonce message) = message.
Proof.
  unfold gcm_decrypt, gcm_encrypt.
  pose proof (Nat.div_mod_eq (length message + 15) 16) as Hd.
  pose proof (Nat.mod_upper_bound (length message + 15) 16 ltac:(lia)) as Hm.
  assert (Hl : length (xor_bytes message
                         (gcm_keystream AES_encrypt_block ghash_j0 key nonce
                            ((length message + 15) / 16))) = length message).
  { rewrite xor_bytes_length, gcm_keystream_length by exact AES_block. lia. }
  rewrite Hl. apply xor_bytes_involutive.
  rewrite gcm_keystream_length by exact AES_block. lia.
Qed.

End counter_mode.

(** C9: [payload] decrypts the accumulated ciphertext with AES-GCM, under
    the frame's key and the nonce made of the system title followed by the
    frame counter.  For a key of an AES length, a title of 8 and a counter
    of 4 bytes, and a ciphertext within the length GCM allows, the nonce has
    12 bytes and the result is a plaintext as long as the ciphertext, whose
    byte [i] is byte [i] of the ciphertext combined by exclusive or with
    byte [i mod 16] of the AES encryption, under the key, of the block made
    of the nonce and the 32-bit number [i / 16 + 2].  So [payload] gives
    back the message whose GCM encryption the frame carries.  No tag is
    looked for and none is checked: every byte of the frame is ciphertext,
    and a wrong key or a changed ciphertext gives other plaintext bytes,
    never an error.  Every frame [read] returns meets these conditions on
    title, counter and length, and has the reader's decoded key. *)
Theorem payload_decrypts_without_verification
    (AES_encrypt_block ghash_j0 : list byte -> list byte -> list byte) :
  (forall k b, length (AES_encrypt_block k b) = 16%nat) ->
  (forall self : DlmsTinetzFrame.t,
     In (length (DlmsTinetzFrame._key self)) [16; 24; 32]%nat ->
     length (DlmsTinetzFrame._system_title self) = 8%nat ->
     length (DlmsTinetzFrame._frame_counter self) = 4%nat ->
     Z.of_nat (length (DlmsTinetzFrame._frame_data self)) <= 2 ^ 36 - 32 ->
     let nonce := DlmsTinetzFrame._system_title self ++ DlmsTinetzFrame._frame_counter self in
     length nonce = 12%nat /\
     (exists plaintext,
        payload AES_encrypt_block ghash_j0 self = inr plaintext /\
        length plaintext = length (DlmsTinetzFrame._frame_data self) /\
        forall (i : nat) (c : byte),
          DlmsTinetzFrame._frame_data self !! i = Some c ->
          exists k,
            AES_encrypt_block (DlmsTinetzFrame._key self)
              (nonce ++ be32 (Z.of_nat (i / 16) + 2)) !! (i mod 16)%nat = Some k /\
            plaintext !! i = Some (byte_xor c k)) /\
     (forall message,
        DlmsTinetzFrame._frame_data self
        = gcm_encrypt AES_encrypt_block ghash_j0 (DlmsTinetzFrame._key self) nonce message ->
        payload AES_encrypt_block ghash_j0 self = inr message)) /\
  (forall key_hex chunks frames self',
     read_chunks (init key_hex) chunks = Returned frames self' ->
     Forall (fun f => length (DlmsTinetzFrame._system_title f) = 8%nat /\
                      length (DlmsTinetzFrame._frame_counter f) = 4%nat /\
                      unhexlify key_hex = Ok (DlmsTinetzFrame._key f) /\
                      Z.of_nat (length (DlmsTinetzFrame._frame_data f)) <= 2 ^ 36 - 32)
       frames).
Proof.
  intros Hblock. split.
  - intros self Hkey Ht Hc Hlen nonce.
    assert (Hn : length nonce = 12%nat) by (unfold nonce; rewrite length_app; lia).
    assert (Hp : payload AES_encrypt_block ghash_j0 self =
                 inr (gcm_decrypt AES_encrypt_block ghash_j0 (DlmsTinetzFrame._key self)
                        nonce (DlmsTinetzFrame._frame_data self))).
    { unfold payload, AES_new_GCM, decrypt. fold nonce. rewrite Hn.
      assert (Hk : existsb (Nat.eqb (length (DlmsTinetzFrame._key self))) [16; 24; 32]%nat
                   = true).
      { apply existsb_exists. exists (length (DlmsTinetzFrame._key self)).
        split; [exact Hkey|apply Nat.eqb_refl]. }
      rewrite Hk. cbn [negb Nat.eqb fst snd].
      destruct (Z.ltb_spec (2 ^ 36) (Z.of_nat (length (DlmsTinetzFrame._frame_data self))));
        [lia|reflexivity]. }
    split; [exact Hn|split].
    + eexists. split; [exact Hp|split].
      * apply gcm_decrypt_length, Hblock.
      * intros i c Hi. apply gcm_decrypt_lookup; assumption.
    + intros message Hm. rewrite Hp, Hm. f_equal.
      apply gcm_decrypt_encrypt, Hblock.
  - intros key_hex chunks frames self' H.
    pose proof (read_chunks_valid _ _ _ _ H) as Hv.
    apply (read_chunks_frame_of_reader (init key_hex)) in H; [|intros f; discriminate].
    apply Forall_forall. intros f Hf.
    rewrite Forall_forall in H, Hv.
    destruct (H f Hf) as (H1 & H2 & H3 & H4). specialize (Hv f Hf).
    repeat split; try assumption. lia.
Qed.

(** ** How much a construct consumes *)














(** [Select] raises a [SelectError], or the [ExplicitError] of an
    alternative. *)
Lemma Select_error {A} (p q : Construct A) (s : list byte) (e : exn) :
  Select p q s = Err e ->
  e = ConstructErr SelectError \/
  (e = ConstructErr ExplicitError /\
   (p s = Err (ConstructErr ExplicitError) \/
    (exists e', p s = Err e' /\ q s = Err (ConstructErr ExplicitError)))).
Proof.
  unfold Select.
  destruct (p s) as [[x r1]|e1] eqn:E; [discriminate|].
  assert (Hsecond : match q s with
                    | Ok r => Ok r
                    | Err (ConstructErr ExplicitError) => Err (ConstructErr ExplicitError)
                    | Err _ => Err (ConstructErr SelectError)
                    end = Err e ->
                    e = ConstructErr SelectError \/
                    (e = ConstructErr ExplicitError /\
                     q s = Err (ConstructErr ExplicitError))).
  { destruct (q s) as [[x r1]|[[]| | | |]]; try discriminate;
      intros [= <-]; auto. }
  destruct e1 as [[]| | | |];
    try (intros H; apply Hsecond in H as [H|[H1 H2]]; [left; exact H|right; eauto]).
  intros [= <-]. right. auto.
Qed.

(** What [Select] returns is what its first alternative returns, or
    what the second returns where the first raises. *)
Lemma Select_Ok {A} (p q : Construct A) (s r : list byte) (a : A) :
  Select p q s = Ok (a, r) ->
  p s = Ok (a, r) \/
  (exists e, p s = Err e /\ e <> ConstructErr ExplicitError /\ q s = Ok (a, r)).
Proof.
  unfold Select.
  destruct (p s) as [[x r1]|e1] eqn:E; [intros [= <- <-]; auto|].
  assert (Hsecond : match q s with
                    | Ok r => Ok r
                    | Err (ConstructErr ExplicitError) => Err (ConstructErr ExplicitError)
                    | Err _ => Err (ConstructErr SelectError)
                    end = Ok (a, r) -> q s = Ok (a, r)).
  { destruct (q s) as [[x r1]|[[]| | | |]]; try discriminate. auto. }
  destruct e1 as [[]| | | |]; try discriminate;
    intros H; right; eexists; (split; [reflexivity|split; [discriminate|auto]]).
Qed.

(** An alternative that raises anything but an [ExplicitError] is passed
    over. *)
Lemma Select_second {A} (p q : Construct A) (s : list byte) (e : exn) :
  p s = Err e -> e <> ConstructErr ExplicitError ->
  Select p q s =
    match q s with
    | Ok r => Ok r
    | Err (ConstructErr ExplicitError) => Err (ConstructErr ExplicitError)
    | Err _ => Err (ConstructErr SelectError)
    end.
Proof.
  intros E Hne. unfold Select. rewrite E.
  destruct e as [[]| | | |]; try reflexivity. contradiction.
Qed.

(** ** The notification body *)


(** The only exception that leaves [GreedyRange] is an [ExplicitError]:
    the items in front of it parse one after the other, and the next one
    raises it. *)
Lemma GreedyRange_Err {A} (p : Construct A) (fuel : nat) (s : list byte) (e : exn) :
  GreedyRange fuel p s = Some (Err e) ->
  e = ConstructErr ExplicitError /\
  exists items s',
    Array (length items) p s = Ok (items, s') /\
    p s' = Err (ConstructErr ExplicitError).
Proof.
  revert s; induction fuel as [|n IH]; intros s; simpl; [discriminate|].
  destruct (p s) as [[x s1]|err] eqn:E.
  - destruct (GreedyRange n p s1) as [[[xs r']|err]|] eqn:Eg; try discriminate.
    intros [= <-]. destruct (IH s1 Eg) as (-> & items & s' & Ha & He).
    split; [reflexivity|]. exists (x :: items), s'. split; [|exact He].
    simpl. unfold bind. rewrite E, Ha. reflexivity.
  - destruct err as [[]| | | |]; try discriminate.
    intros [= <-]. split; [reflexivity|]. exists [], s. auto.
Qed.

Section kaifa_tinetz_properties.

Variable data_type_of_tag : Z -> CommonDataTypes_t.
Variable ObisCodeOctedStringField : Construct string.
Variable FieldValue : Type.
Variable Field : Construct FieldValue.
Variable VisibleString : Construct string.
Variable OctedStringText : Construct string.
Variable DateTime_t : Type.
Variable DateTime : Construct DateTime_t.
Variable DoubleLongUnsigned : Construct Z.
Variable Long : Construct Z.
Variable LongUnsigned : Construct Z.
Variable ScalerUnitField : Construct ScalerUnit_t.

Local Abbreviation SimpleElement' :=
  (SimpleElement data_type_of_tag ObisCodeOctedStringField FieldValue Field).
Local Abbreviation StructElement' :=
  (StructElement data_type_of_tag ObisCodeOctedStringField VisibleString OctedStringText
     DateTime_t DateTime DoubleLongUnsigned Long LongUnsigned ScalerUnitField).
Local Abbreviation Element' :=
  (Element data_type_of_tag ObisCodeOctedStringField FieldValue Field VisibleString
     OctedStringText DateTime_t DateTime DoubleLongUnsigned Long LongUnsigned
     ScalerUnitField).
Local Abbreviation StructContent' :=
  (StructContent VisibleString OctedStringText DateTime_t DateTime
     DoubleLongUnsigned Long LongUnsigned ScalerUnitField).
Local Abbreviation NotificationBodyObisElements' :=
  (NotificationBodyObisElements data_type_of_tag ObisCodeOctedStringField FieldValue Field
     VisibleString OctedStringText DateTime_t DateTime DoubleLongUnsigned Long
     LongUnsigned ScalerUnitField).

Lemma SimpleElement_cnt (s r : list byte) (e : SimpleElement_t FieldValue) :
  SimpleElement' s = Ok (e, r) -> simple__cnt _ e = 2.
Proof.
  unfold SimpleElement.
  repeat (unfold bind at 1;
          match goal with
          | |- context [match ?p ?s with Ok _ => _ | Err _ => _ end] =>
              destruct (p s) as [[? ?]|?]; [|discriminate]
          end).
  intros [= <- _]. reflexivity.
Qed.

Lemma StructElement_cnt (s r : list byte) (e : StructElement_t DateTime_t) :
  StructElement' s = Ok (e, r) -> struct__cnt _ e = 1.
Proof.
  unfold StructElement.
  repeat (unfold bind at 1;
          match goal with
          | |- context [match ?p ?s with Ok _ => _ | Err _ => _ end] =>
              destruct (p s) as [[? ?]|?]; [|discriminate]
          end).
  intros [= <- _]. reflexivity.
Qed.

(** A simple element counts 2, a structured element 1. *)
Lemma Element_cnt (s r : list byte) (item : Element_t FieldValue DateTime_t) :
  Element' s = Ok (item, r) -> _cnt item = weight item.
Proof.
  unfold Element. intros H.
  apply Select_Ok in H as [H|(err & _ & _ & H)]; revert H; unfold bind, ret.
  - destruct (SimpleElement' s) as [[e r1]|err] eqn:E1; [|discriminate].
    intros [= <- _]. simpl. eapply SimpleElement_cnt, E1.
  - destruct (StructElement' s) as [[e r2]|err'] eqn:E2; [|discriminate].
    intros [= <- _]. simpl. eapply StructElement_cnt, E2.
Qed.

Lemma GreedyRange_cnt (fuel : nat) (s r : list byte)
    (items : list (Element_t FieldValue DateTime_t)) :
  GreedyRange fuel Element' s = Some (Ok (items, r)) ->
  Forall (fun item => _cnt item = weight item) items.
Proof.
  revert s r items; induction fuel as [|n IH]; intros s r items; simpl; [discriminate|].
  destruct (Element' s) as [[e r1]|err] eqn:E.
  - destruct (GreedyRange n Element' r1) as [[[es r2]|err]|] eqn:Eg; try discriminate.
    intros [= <- <-]. constructor; [eapply Element_cnt, E|eapply IH, Eg].
  - destruct err as [[]| | | |]; try discriminate; intros [= <- _]; constructor.
Qed.

(** The parse of a structured element, step by step. *)
Lemma StructElement_inv (s r : list byte) (e : StructElement_t DateTime_t) :
  StructElement' s = Ok (e, r) ->
  exists s1 content,
    StructContent' (struct_content_type _ e) s1 = Ok (content, r) /\
    struct_content _ e = content /\
    struct_value _ e = exposed_value _ content.
Proof.
  unfold StructElement.
  do 4 (unfold bind at 1;
        match goal with
        | |- context [match ?p ?s with Ok _ => _ | Err _ => _ end] =>
            destruct (p s) as [[? ?]|?]; [|discriminate]
        end).
  unfold bind at 1.
  match goal with
  | |- context [match ?p ?s with Ok _ => _ | Err _ => _ end] =>
      destruct (p s) as [[content r']|?] eqn:Ec; [|discriminate]
  end.
  intros [= <- <-]. simpl. eauto.
Qed.


Lemma ScaledContent_inv (content_type : CommonDataTypes_t) (numeric : Construct Z)
    (s1 r : list byte) (content : content_t DateTime_t) :
  unscaled_value_of DoubleLongUnsigned Long LongUnsigned content_type
    = (do x <- numeric ;; ret (Some x)) ->
  ScaledContent DateTime_t DoubleLongUnsigned Long LongUnsigned ScalerUnitField
    content_type s1 = Ok (content, r) ->
  exists unscaled scaler_unit s2,
    numeric s1 = Ok (unscaled, s2) /\
    ScalerUnitField s2 = Ok (scaler_unit, r) /\
    content = ContentScaled (Some unscaled) scaler_unit
                (inject_Z unscaled * scale (scaler scaler_unit))%Q.
Proof.
  intros Hnum. unfold ScaledContent. rewrite Hnum. unfold bind, ret.
  destruct (numeric s1) as [[u s2]|err] eqn:Eu; [|discriminate].
  destruct (ScalerUnitField s2) as [[su s3]|err] eqn:Es; [|discriminate].
  intros [= <- <-]. exists u, su, s2. auto.
Qed.


(** C4: in a structured element whose content type is
    double-long-unsigned, long or long-unsigned, the raw integer is read
    by the parser of that type, the scaler-and-unit structure behind it,
    and the exposed value is the raw integer times ten to the power of
    the signed scale exponent. *)
Theorem numeric_struct_value_is_scaled (s r : list byte)
    (e : StructElement_t DateTime_t) :
  StructElement' s = Ok (e, r) ->
  In (struct_content_type _ e) [double_long_unsigned; long; long_unsigned] ->
  exists unscaled scaler_unit s1 s2,
    match struct_content_type _ e with
    | double_long_unsigned => DoubleLongUnsigned
    | long => Long
    | _ => LongUnsigned
    end s1 = Ok (unscaled, s2) /\
    ScalerUnitField s2 = Ok (scaler_unit, r) /\
    struct_content _ e =
      ContentScaled (Some unscaled) scaler_unit
        (inject_Z unscaled * scale (scaler scaler_unit))%Q /\
    struct_value _ e =
      Number (inject_Z unscaled * Qpower (inject_Z 10) (exponent (scaler scaler_unit)))%Q.
Proof.
  intros Hparse Htype.
  apply StructElement_inv in Hparse as (s1 & content & Hc & Hcontent & Hvalue).
  rewrite Hcontent, Hvalue. clear Hcontent Hvalue.
  simpl in Htype.
  destruct Htype as [H|[H|[H|[]]]]; rewrite <- H in *; simpl in Hc;
    eapply ScaledContent_inv in Hc as (u & su & s2 & Hu & Hsu & ->);
    try reflexivity; exists u, su, s1, s2; auto.
Qed.

End kaifa_tinetz_properties.

(** ** The example field parsers *)




Lemma numeric_struct_value_is_scaled_witness :
  exists e q,
    example_cosem.StructElement example_cosem.voltage_element = Ok (e, []) /\
    struct_value _ e = Number q /\ (q == 235)%Q.
Proof.
  destruct (example_cosem.StructElement example_cosem.voltage_element)
    as [[e r]|err] eqn:E; [|discriminate E].
  destruct (numeric_struct_value_is_scaled
              example_cosem.data_type_of_tag example_cosem.ObisCodeOctedStringField
              example_cosem.VisibleString example_cosem.OctedStringText
              (list byte) example_cosem.DateTime
              example_cosem.Int32ub example_cosem.Int16sb Int16ub
              example_cosem.ScalerUnitField example_cosem.voltage_element r e E)
    as (u & su & s1 & s2 & _ & _ & Hc & Hv).
  - injection E as <- _. simpl. auto.
  - injection E as <- <-. simpl in Hc. injection Hc as <- <-.
    eexists _, _. split; [reflexivity|split; [exact Hv|reflexivity]].
Defined.

Lemma payload_decrypts_without_verification_witness :
  exists plaintext,
    payload (fun _ _ => repeat x5a 16) (fun _ nonce => nonce)
      {| DlmsTinetzFrame._key := repeat x00 16; DlmsTinetzFrame._length := 3;
         DlmsTinetzFrame._system_title := [x01; x02; x03; x04; x05; x06; x07; x08];
         DlmsTinetzFrame._frame_counter := [x00; x00; x00; x2a];
         DlmsTinetzFrame._frame_data := [xaa; xbb; xcc] |} = inr plaintext /\
    length plaintext = 3%nat /\
    plaintext !! 0%nat = Some (byte_xor xaa x5a).
Proof.
  destruct (payload_decrypts_without_verification
              (fun _ _ => repeat x5a 16) (fun _ nonce => nonce)) as [H1 H2].
  - intros k b. reflexivity.
  - destruct (H1 {| DlmsTinetzFrame._key := repeat x00 16; DlmsTinetzFrame._length := 3;
                    DlmsTinetzFrame._system_title := [x01; x02; x03; x04; x05; x06; x07; x08];
                    DlmsTinetzFrame._frame_counter := [x00; x00; x00; x2a];
                    DlmsTinetzFrame._frame_data := [xaa; xbb; xcc] |})
      as (_ & (plaintext & Hp & Hlen & Hb) & _).
    + simpl. auto.
    + reflexivity.
    + reflexivity.
    + vm_compute. discriminate.
    + exists plaintext. split; [exact Hp|split; [exact Hlen|]].
      destruct (Hb 0%nat xaa eq_refl) as (k & Hk & H0).
      injection Hk as <-. exact H0.
Defined.

(** * Further properties of the reader *)

(** ** Segments on the wire *)


Lemma mbus_frame_length (c ci : Z) (data : list byte) :
  length (mbus_frame c ci data) = (length data + 11)%nat.
Proof. unfold mbus_frame. cbn [app length]. rewrite length_app. simpl. lia. Qed.

Lemma mbus_frame_header (c ci : Z) (data tail : list byte) :
  segment_ok c ci data ->
  MBusDataLinkHeader (mbus_frame c ci data ++ tail) =
    Ok (Header (mbus_frame_parsed c ci data),
        drop 6 (mbus_frame c ci data ++ tail)).
Proof.
  intros (Hc & Hci & Hlen). unfold mbus_frame. cbn [app].
  rewrite MBusDataLinkHeader_bytes.
  change (b2z x68) with 104. change (b2z xff) with 255.
  rewrite !b2z_z2b_small by lia. rewrite !Z.eqb_refl.
  assert (Hcc : (c =? 83) || (c =? 115) = true) by (destruct Hc; subst; reflexivity).
  rewrite Hcc. reflexivity.
Qed.

Lemma mbus_frame_transport (ci : Z) (rest : list byte) :
  0 <= ci < 0x1F ->
  MBusTransportLayer (z2b ci :: x01 :: x67 :: rest) =
    Ok ({| CI_Field := ci; STSAP := 0x01; DTSAP := 0x67 |}, rest).
Proof.
  intros Hci. unfold MBusTransportLayer, OneOf, Const, bind, Int8ub, ret.
  rewrite b2z_z2b_small by lia.
  rewrite (proj2 (existsb_range ci 0 31)) by lia. reflexivity.
Qed.

(** A well-built frame parses, whatever follows it. *)
Lemma mbus_frame_layer (c ci : Z) (data tail : list byte) :
  segment_ok c ci data ->
  parse MBusDataLinkHeader (mbus_frame c ci data ++ tail)
    = Ok (Header (mbus_frame_parsed c ci data)) /\
  parse MBusDataLinkLayer (mbus_frame c ci data ++ tail) = Ok (mbus_frame_parsed c ci data).
Proof.
  intros Hok. pose proof (mbus_frame_header c ci data tail Hok) as Hh.
  split; [unfold parse; rewrite Hh; reflexivity|].
  destruct Hok as (Hc & Hci & Hlen).
  assert (Hrest : drop 6 (mbus_frame c ci data ++ tail) =
                  z2b ci :: x01 :: x67 :: data ++
                  z2b ((sum_bytes data + c + 0xFF + ci + 0x01 + 0x67) mod 256)
                  :: x16 :: tail).
  { unfold mbus_frame. cbn [app drop]. rewrite <- app_assoc. reflexivity. }
  rewrite Hrest in Hh.
  set (cs := (sum_bytes data + c + 0xFF + ci + 0x01 + 0x67) mod 256) in *.
  assert (Hd : Bytes (L_Field (Header (mbus_frame_parsed c ci data)) - 5)
                 (data ++ z2b cs :: x16 :: tail) = Ok (data, z2b cs :: x16 :: tail)).
  { cbn [Header mbus_frame_parsed L_Field]. unfold Bytes.
    replace (Z.of_nat (length data) + 5 - 5) with (Z.of_nat (length data)) by lia.
    destruct (Z.ltb_spec (Z.of_nat (length data)) 0); [lia|].
    rewrite Nat2Z.id, length_app.
    destruct (Nat.ltb_spec (length data + length (z2b cs :: x16 :: tail)) (length data));
      [lia|].
    rewrite take_app_length, drop_app_length. reflexivity. }
  rewrite (parse_layer_checksum _ _ _ _ _ _ _ _ Hh (mbus_frame_transport ci _ Hci) Hd).
  assert (Hcs : expected_checksum (Header (mbus_frame_parsed c ci data))
                  {| CI_Field := ci; STSAP := 1; DTSAP := 103 |} data = cs) by reflexivity.
  assert (Hm : 0 <= cs < 256) by (apply Z.mod_pos_bound; lia).
  rewrite Hcs, b2z_z2b_small, Z.eqb_refl by exact Hm.
  unfold parse, Const, bind, Int8ub, ret. change (b2z x16 =? 22) with true.
  reflexivity.
Qed.

(** The pass of the loop on a buffer that starts with a well-built frame:
    the frame is consumed, and [accumulate] and [complete] decide the
    rest. *)
Lemma read_iteration_mbus_frame (self : t) (c ci : Z) (data tail : list byte) :
  _buffer self = mbus_frame c ci data ++ tail ->
  segment_ok c ci data ->
  read_iteration self =
    match accumulate (_key_hex self) (_frame self) (mbus_frame_parsed c ci data) with
    | inr frame' =>
        Next {| _buffer := tail; _frame := fst (complete frame' ci);
                _key_hex := _key_hex self |} (snd (complete frame' ci))
    | inl (ConstructErr ChecksumError) =>
        Next {| _buffer := tail; _frame := None; _key_hex := _key_hex self |} None
    | inl (ConstructErr _) => Next (resync self) None
    | inl e => Raise e
    end.
Proof.
  intros Hbuf Hok. destruct (mbus_frame_layer c ci data tail Hok) as [Hh Hl].
  rewrite read_iteration_eq, Hbuf, Hh. unfold try_frame. rewrite Hl.
  unfold size. rewrite length_app, mbus_frame_length.
  cbn [Header mbus_frame_parsed L_Field TransportLayer CI_Field].
  destruct (Z.geb_spec (Z.of_nat (length data + 11 + length tail)) 6); [|lia].
  destruct (Z.geb_spec (Z.of_nat (length data + 11 + length tail))
              (Z.of_nat (length data) + 5 + 6)); [|lia].
  assert (Hpos : trim_buffer_to_pos (_buffer self) (Z.of_nat (length data) + 5 + 6) = tail).
  { unfold trim_buffer_to_pos. rewrite slice_from_nonneg, Hbuf by lia.
    apply drop_app_length'. rewrite mbus_frame_length. lia. }
  destruct (accumulate _ _ _) as [[[| | | | | |]| | | |]|frame']; simpl;
    rewrite ?Hpos; try reflexivity.
  destruct (complete frame' ci); reflexivity.
Qed.

(** ** What [read] makes of each kind of segment *)

Lemma read_mbus_frame (self : t) (data_chunk : list byte) (c ci : Z)
    (data tail : list byte) :
  _buffer self ++ data_chunk = mbus_frame c ci data ++ tail ->
  segment_ok c ci data ->
  read self data_chunk =
    match accumulate (_key_hex self) (_frame self) (mbus_frame_parsed c ci data) with
    | inr frame' =>
        prepend (option_list (snd (complete frame' ci)))
          (run {| _buffer := tail; _frame := fst (complete frame' ci);
                  _key_hex := _key_hex self |})
    | inl (ConstructErr ChecksumError) => run (hunting tail (_key_hex self))
    | inl (ConstructErr _) => run (resync (extend self data_chunk))
    | inl e => Raised e (extend self data_chunk)
    end.
Proof.
  intros Hbuf Hok. rewrite read_run, run_unfold.
  rewrite (read_iteration_mbus_frame (extend self data_chunk) c ci data tail Hbuf Hok).
  change (_key_hex (extend self data_chunk)) with (_key_hex self).
  change (_frame (extend self data_chunk)) with (_frame self).
  destruct (accumulate _ _ _) as [[[| | | | | |]| | | |]|frame']; simpl;
    rewrite ?prepend_nil; reflexivity.
Qed.

(** X1: a continuation segment (low nibble of CI not 0) that arrives while
    no frame is open is consumed and contributes nothing: [read] ends as a
    fresh reader's [read] on the bytes behind it. *)
Theorem continuation_segment_while_hunting_is_skipped (self : t)
    (data_chunk : list byte) (c ci : Z) (data tail : list byte) :
  _frame self = None ->
  _buffer self ++ data_chunk = mbus_frame c ci data ++ tail ->
  segment_ok c ci data ->
  Z.land ci 0x0F <> 0 ->
  read self data_chunk = read (init (_key_hex self)) tail.
Proof.
  intros Hf Hbuf Hok Hci.
  rewrite (read_mbus_frame self data_chunk c ci data tail Hbuf Hok), Hf.
  unfold accumulate. cbn [TransportLayer mbus_frame_parsed CI_Field].
  destruct (Z.eqb_spec (Z.land ci 15) 0); [contradiction|].
  simpl. rewrite prepend_nil. reflexivity.
Qed.

Lemma continuation_segment_while_hunting_is_skipped_witness :
  read (init "00") (mbus_frame 0x53 0x11 [xdd; xee] ++ single_frame)
  = read (init "00") single_frame.
Proof.
  apply (continuation_segment_while_hunting_is_skipped (init "00")
           (mbus_frame 0x53 0x11 [xdd; xee] ++ single_frame) 0x53 0x11 [xdd; xee]
           single_frame).
  - reflexivity.
  - reflexivity.
  - unfold segment_ok. simpl. lia.
  - vm_compute. discriminate.
Defined.

Lemma accumulate_first_segment (key_hex : string) (key : list byte) (c ci : Z)
    (data : list byte) (d : DLMSApplicationLayer_t) :
  Z.land ci 0x0F = 0 ->
  parse DLMSApplicationLayer data = Ok d ->
  unhexlify key_hex = Ok key ->
  accumulate key_hex None (mbus_frame_parsed c ci data) = inr (Some (frame_of_header key d)).
Proof.
  intros Hci Hd Hkey. unfold accumulate, DlmsTinetzFrame.init.
  cbn [TransportLayer mbus_frame_parsed CI_Field Data].
  rewrite Hci, Hd, Hkey. reflexivity.
Qed.

(** X2: a message in one segment (CI 0x10) that arrives while no frame is
    open, with a ciphering header [d] that parses and a key that
    [unhexlify] accepts: [read] returns the frame with the header's system
    title, frame counter and ciphertext exactly when the ciphertext has
    [Length - 5] bytes, returns nothing for it otherwise, and in both cases
    goes on with the bytes behind the segment as a fresh reader would. *)
Theorem single_segment_message_is_decoded (self : t) (data_chunk : list byte)
    (c : Z) (data tail : list byte) (d : DLMSApplicationLayer_t) (key : list byte) :
  _frame self = None ->
  _buffer self ++ data_chunk = mbus_frame c 0x10 data ++ tail ->
  segment_ok c 0x10 data ->
  parse DLMSApplicationLayer data = Ok d ->
  unhexlify (_key_hex self) = Ok key ->
  read self data_chunk =
    prepend (if Z.of_nat (length (Encrypted_Payload d)) =? Length d - 5
             then [frame_of_header key d] else [])
      (read (init (_key_hex self)) tail).
Proof.
  intros Hf Hbuf Hok Hd Hkey.
  rewrite (read_mbus_frame self data_chunk c 0x10 data tail Hbuf Hok), Hf.
  rewrite (accumulate_first_segment _ key c 0x10 data d eq_refl Hd Hkey).
  unfold complete, DlmsTinetzFrame.is_valid. cbn [frame_of_header DlmsTinetzFrame._frame_data
    DlmsTinetzFrame._length]. simpl (Z.land 16 16 =? 16).
  destruct (Z.of_nat (length (Encrypted_Payload d)) =? Length d - 5); reflexivity.
Qed.

Lemma single_segment_message_is_decoded_witness :
  exists d,
    read (init "00") (mbus_frame 0x73 0x10 (ciphered 8 [xaa; xbb; xcc]) ++ [x00])
    = prepend [frame_of_header [x00] d] (read (init "00") [x00]) /\
    Encrypted_Payload d = [xaa; xbb; xcc].
Proof.
  destruct (parse DLMSApplicationLayer (ciphered 8 [xaa; xbb; xcc])) as [d|e] eqn:E;
    [|discriminate E].
  exists d. split.
  - rewrite (single_segment_message_is_decoded (init "00")
               (mbus_frame 0x73 0x10 (ciphered 8 [xaa; xbb; xcc]) ++ [x00]) 0x73
               (ciphered 8 [xaa; xbb; xcc]) [x00] d [x00]).
    + injection E as <-. reflexivity.
    + reflexivity.
    + reflexivity.
    + unfold segment_ok. simpl. lia.
    + exact E.
    + reflexivity.
  - injection E as <-. reflexivity.
Defined.

Lemma complete_last (f : DlmsTinetzFrame.t) (ci : Z) :
  Z.land ci 0x10 = 0x10 ->
  complete (Some f) ci = (None, if DlmsTinetzFrame.is_valid f then Some f else None).
Proof. intros H. unfold complete. rewrite H. reflexivity. Qed.

Lemma extend_extend (f : DlmsTinetzFrame.t) (a b : list byte) :
  DlmsTinetzFrame.extend (DlmsTinetzFrame.extend f a) b = DlmsTinetzFrame.extend f (a ++ b).
Proof. unfold DlmsTinetzFrame.extend; simpl. rewrite app_assoc. reflexivity. Qed.

Lemma extend_nil_frame (f : DlmsTinetzFrame.t) : DlmsTinetzFrame.extend f [] = f.
Proof. destruct f. unfold DlmsTinetzFrame.extend; simpl. rewrite app_nil_r. reflexivity. Qed.

Lemma run_segment (frame : option DlmsTinetzFrame.t) (key_hex : string) (c ci : Z)
    (data tail : list byte) :
  segment_ok c ci data ->
  run {| _buffer := mbus_frame c ci data ++ tail; _frame := frame; _key_hex := key_hex |} =
    match accumulate key_hex frame (mbus_frame_parsed c ci data) with
    | inr frame' =>
        prepend (option_list (snd (complete frame' ci)))
          (run {| _buffer := tail; _frame := fst (complete frame' ci);
                  _key_hex := key_hex |})
    | inl (ConstructErr ChecksumError) => run (hunting tail key_hex)
    | inl (ConstructErr _) =>
        run (resync {| _buffer := mbus_frame c ci data ++ tail; _frame := frame;
                       _key_hex := key_hex |})
    | inl e => Raised e {| _buffer := mbus_frame c ci data ++ tail; _frame := frame;
                           _key_hex := key_hex |}
    end.
Proof.
  intros Hok.
  exact (read_mbus_frame {| _buffer := []; _frame := frame; _key_hex := key_hex |}
           (mbus_frame c ci data ++ tail) c ci data tail eq_refl Hok).
Qed.

(** Continuation segments that are not the last are appended to the open
    frame, one after the other. *)
Lemma run_middle_segments (segments : list (Z * Z * list byte)) (f : DlmsTinetzFrame.t)
    (rest : list byte) (key_hex : string) :
  Forall middle_segment segments ->
  run {| _buffer := segments_bytes segments ++ rest; _frame := Some f; _key_hex := key_hex |}
  = run {| _buffer := rest; _frame := Some (DlmsTinetzFrame.extend f (concat (map snd segments)));
           _key_hex := key_hex |}.
Proof.
  intros Hall. revert f. induction Hall as [|[[c ci] data] segments (Hok & Hlow & Hbit) _ IH];
    intros f.
  - simpl. rewrite extend_nil_frame. reflexivity.
  - cbn [fst snd] in *. unfold segments_bytes. cbn [map concat fst snd].
    fold (segments_bytes segments). rewrite <- app_assoc.
    rewrite (run_segment _ _ c ci data (segments_bytes segments ++ rest) Hok).
    unfold accumulate. cbn [TransportLayer mbus_frame_parsed CI_Field Data].
    destruct (Z.gtb_spec (Z.land ci 15) 0); [|lia].
    unfold complete. destruct (Z.eqb_spec (Z.land ci 16) 16); [contradiction|].
    simpl. rewrite prepend_nil, IH, extend_extend. reflexivity.
Qed.

(** X3: a message spread over several segments is put together: a first
    segment (CI 0x00) with a ciphering header [d], any number of
    continuation segments without the last-segment bit, and a last
    continuation segment with bit 0x10.  [read] returns one frame whose
    ciphertext is the header's rest followed by the payloads in order,
    exactly when that has [Length - 5] bytes; otherwise it returns nothing
    for the message.  Then it goes on as a fresh reader would. *)
Theorem segmented_message_is_reassembled (self : t) (data_chunk : list byte)
    (c0 : Z) (data0 : list byte) (segments : list (Z * Z * list byte))
    (c ci : Z) (data tail : list byte) (d : DLMSApplicationLayer_t) (key : list byte) :
  _frame self = None ->
  _buffer self ++ data_chunk =
    mbus_frame c0 0x00 data0 ++ segments_bytes segments ++ mbus_frame c ci data ++ tail ->
  segment_ok c0 0x00 data0 ->
  Forall middle_segment segments ->
  segment_ok c ci data -> Z.land ci 0x0F > 0 -> Z.land ci 0x10 = 0x10 ->
  parse DLMSApplicationLayer data0 = Ok d ->
  unhexlify (_key_hex self) = Ok key ->
  let ciphertext := Encrypted_Payload d ++ concat (map snd segments) ++ data in
  read self data_chunk =
    prepend (if Z.of_nat (length ciphertext) =? Length d - 5
             then [DlmsTinetzFrame.extend (frame_of_header key d)
                     (concat (map snd segments) ++ data)]
             else [])
      (read (init (_key_hex self)) tail).
Proof.
  intros Hf Hbuf Hok0 Hmid Hok Hlow Hbit Hd Hkey ciphertext.
  rewrite (read_mbus_frame self data_chunk c0 0x00 data0 _ Hbuf Hok0), Hf.
  rewrite (accumulate_first_segment _ key c0 0x00 data0 d eq_refl Hd Hkey).
  unfold complete at 1 2. simpl (Z.land 0 16 =? 16). cbn [fst snd option_list].
  rewrite prepend_nil, (run_middle_segments segments _ _ _ Hmid).
  rewrite (run_segment _ _ c ci data tail Hok).
  unfold accumulate. cbn [TransportLayer mbus_frame_parsed CI_Field Data].
  destruct (Z.gtb_spec (Z.land ci 15) 0); [|lia].
  rewrite extend_extend, (complete_last _ ci Hbit). cbn [fst snd].
  change (DlmsTinetzFrame.is_valid
            (DlmsTinetzFrame.extend (frame_of_header key d)
               (concat (map snd segments) ++ data)))
    with (Z.of_nat (length ciphertext) =? Length d - 5).
  destruct (Z.of_nat (length ciphertext) =? Length d - 5); reflexivity.
Qed.

Lemma segmented_message_is_reassembled_witness :
  exists d,
    parse DLMSApplicationLayer (ciphered 11 [xaa; xbb; xcc]) = Ok d /\
    read (init "00")
      (mbus_frame 0x53 0x00 (ciphered 11 [xaa; xbb; xcc])
       ++ segments_bytes [(0x73, 0x01, [xdd])]
       ++ mbus_frame 0x53 0x12 [xee; xff] ++ [])
    = prepend
        (if Z.of_nat (length (Encrypted_Payload d
                              ++ concat (map snd [(0x73, 0x01, [xdd])]) ++ [xee; xff]))
            =? Length d - 5
         then [DlmsTinetzFrame.extend (frame_of_header [x00] d)
                 (concat (map snd [(0x73, 0x01, [xdd])]) ++ [xee; xff])]
         else [])
        (read (init "00") []).
Proof.
  destruct (parse DLMSApplicationLayer (ciphered 11 [xaa; xbb; xcc])) as [d|e] eqn:E;
    [|discriminate E].
  exists d. split; [reflexivity|].
  apply (segmented_message_is_reassembled (init "00") _ 0x53
           (ciphered 11 [xaa; xbb; xcc]) [(0x73, 0x01, [xdd])] 0x53 0x12 [xee; xff] []
           d [x00]).
  - reflexivity.
  - reflexivity.
  - unfold segment_ok. simpl. lia.
  - constructor; [|constructor]. unfold middle_segment, segment_ok. simpl.
    repeat split; try lia. discriminate.
  - unfold segment_ok. simpl. lia.
  - reflexivity.
  - reflexivity.
  - exact E.
  - reflexivity.
Defined.

(** X4: a segment with low CI nibble 0 (the start of a message) that
    arrives while a frame [f] is open is never parsed as a message.  With
    bit 0x10 clear it changes nothing but the buffer; with bit 0x10 set it
    closes [f], which is returned when it is valid and dropped when it is
    not. *)
Theorem first_segment_while_assembling (self : t) (f : DlmsTinetzFrame.t)
    (data_chunk : list byte) (c ci : Z) (data tail : list byte) :
  _frame self = Some f ->
  _buffer self ++ data_chunk = mbus_frame c ci data ++ tail ->
  segment_ok c ci data ->
  Z.land ci 0x0F = 0 ->
  read self data_chunk =
    if Z.land ci 0x10 =? 0x10
    then prepend (if DlmsTinetzFrame.is_valid f then [f] else [])
           (read (init (_key_hex self)) tail)
    else read (assembling f (_key_hex self)) tail.
Proof.
  intros Hf Hbuf Hok Hci.
  rewrite (read_mbus_frame self data_chunk c ci data tail Hbuf Hok), Hf.
  unfold accumulate. cbn [TransportLayer mbus_frame_parsed CI_Field].
  rewrite Hci. simpl (0 >? 0). unfold complete.
  destruct (Z.land ci 16 =? 16); simpl.
  - destruct (DlmsTinetzFrame.is_valid f); reflexivity.
  - rewrite prepend_nil. reflexivity.
Qed.

Lemma first_segment_while_assembling_witness :
  read (assembling {| DlmsTinetzFrame._key := [x00]; DlmsTinetzFrame._length := 1;
                      DlmsTinetzFrame._system_title := [];
                      DlmsTinetzFrame._frame_counter := [];
                      DlmsTinetzFrame._frame_data := [xaa] |} "00") single_frame
  = prepend [{| DlmsTinetzFrame._key := [x00]; DlmsTinetzFrame._length := 1;
                DlmsTinetzFrame._system_title := [];
                DlmsTinetzFrame._frame_counter := [];
                DlmsTinetzFrame._frame_data := [xaa] |}]
      (read (init "00") []).
Proof.
  pose (f := {| DlmsTinetzFrame._key := [x00]; DlmsTinetzFrame._length := 1;
                DlmsTinetzFrame._system_title := [];
                DlmsTinetzFrame._frame_counter := [];
                DlmsTinetzFrame._frame_data := [xaa] |}).
  apply (first_segment_while_assembling (assembling f "00") f single_frame 0x53 0x10
           (ciphered 8 [xaa; xbb; xcc]) []).
  - reflexivity.
  - reflexivity.
  - unfold segment_ok. simpl. lia.
  - reflexivity.
Defined.

(** ** Exceptions, the buffer, and noise *)

Lemma run_Raised (self self' : t) (e : exn) :
  run self = Raised e self' ->
  read_iteration self' = Raise e /\ _key_hex self' = _key_hex self.
Proof.
  revert self' e; induction self as [self IH] using reader_ind; intros self' e.
  rewrite run_unfold.
  destruct (read_iteration self) as [| |self1 r|e1] eqn:E; try discriminate.
  - pose proof (read_iteration_key _ _ _ E) as Hk.
    apply read_iteration_shrinks in E.
    destruct (run self1) as [f s|e2 s|] eqn:E1; try discriminate.
    simpl. intros [= <- <-]. destruct (IH self1 E s e2 E1) as [H1 H2].
    split; congruence.
  - intros [= <- <-]. auto.
Qed.

(** X5: the only exceptions that leave [read] are those [unhexlify]
    raises for the key of the reader, a [str]: a [ValueError] when the key
    has a character outside ASCII, a [binascii.Error] when it is ASCII and
    no hexadecimal string.  No error of [construct] escapes.  The exception
    is raised before the buffer is trimmed, so every later call of [read] on
    that reader raises it again, whatever is fed. *)
Theorem read_raises_only_for_a_bad_key (self self' : t) (data_chunk : list byte) (e : exn) :
  read self data_chunk = Raised e self' ->
  unhexlify (_key_hex self) = Err e /\
  e = (if isascii (_key_hex self) then binascii_Error else ValueError) /\
  (forall more, read self' more = Raised e (extend self' more)).
Proof.
  intros H. rewrite read_run in H. apply run_Raised in H as [Hit Hk].
  destruct (read_iteration_Raise _ _ Hit) as [_ Hkey]. rewrite Hk in Hkey.
  split; [exact Hkey|split; [apply unhexlify_Err, Hkey|]].
  intros more. rewrite read_run, run_unfold.
  pose proof (read_iteration_extend self' more) as Hext. rewrite Hit in Hext.
  simpl in Hext. rewrite Hext. reflexivity.
Qed.

Lemma read_raises_only_for_a_bad_key_witness :
  (unhexlify "0g" = Err binascii_Error /\
   read (extend (init "0g") single_frame) [x00]
   = Raised binascii_Error (extend (extend (init "0g") single_frame) [x00])) /\
  (unhexlify non_ascii_key = Err ValueError /\
   read (extend (init non_ascii_key) single_frame) [x00]
   = Raised ValueError (extend (extend (init non_ascii_key) single_frame) [x00])).
Proof.
  split.
  - destruct (read_raises_only_for_a_bad_key (init "0g") (extend (init "0g") single_frame)
                single_frame binascii_Error) as (H1 & _ & H3).
    + reflexivity.
    + split; [exact H1|apply H3].
  - destruct (read_raises_only_for_a_bad_key (init non_ascii_key)
                (extend (init non_ascii_key) single_frame)
                single_frame ValueError) as (H1 & _ & H3).
    + reflexivity.
    + split; [exact H1|apply H3].
Defined.

Lemma read_iteration_suffix (self self' : t) (received : option DlmsTinetzFrame.t) :
  read_iteration self = Next self' received ->
  exists n, _buffer self' = drop n (_buffer self).
Proof.
  rewrite read_iteration_eq. unfold size.
  destruct (_ >=? 6); [|discriminate].
  assert (Hre : exists n, _buffer (resync self) = drop n (_buffer self)).
  { unfold resync; simpl. destruct (_buffer self) as [|b r]; [exists O; reflexivity|].
    rewrite trim_cons. unfold skip_to_start.
    destruct (index START_CHARACTER r) as [i|]; [exists (S i); reflexivity|].
    exists (length (b :: r)). rewrite drop_all. reflexivity. }
  destruct (parse MBusDataLinkHeader (_buffer self)) as [h|[ce| | | |]] eqn:Eh;
    try discriminate; [|intros [= <- _]; exact Hre].
  pose proof (MBusDataLinkHeader_L_range _ _ Eh) as HL.
  destruct (_ >=? _); [|discriminate].
  assert (Hpos : exists n, trim_buffer_to_pos (_buffer self) (L_Field h + 6)
                           = drop n (_buffer self)).
  { exists (Z.to_nat (L_Field h + 6)). apply slice_from_nonneg. lia. }
  destruct (try_frame _ _ _) as [[[| | | | | |]| | | |]|[f r]]; simpl;
    try discriminate; intros [= <- _]; assumption.
Qed.

Lemma run_suffix (self self' : t) (frames : list DlmsTinetzFrame.t) :
  run self = Returned frames self' ->
  (exists n, _buffer self' = drop n (_buffer self)) /\ _key_hex self' = _key_hex self.
Proof.
  revert frames; induction self as [self IH] using reader_ind; intros frames.
  rewrite run_unfold.
  destruct (read_iteration self) as [| |self1 r|e] eqn:E; try discriminate;
    try (intros [= _ <-]; split; [exists O; reflexivity|reflexivity]).
  pose proof (read_iteration_key _ _ _ E) as Hk.
  destruct (read_iteration_suffix _ _ _ E) as [m Hm].
  apply read_iteration_shrinks in E.
  destruct (run self1) as [fs s| |] eqn:E1; try discriminate.
  simpl. intros [= _ <-]. destruct (IH self1 E fs E1) as [[n Hn] Hks].
  split; [|congruence]. exists (m + n)%nat. rewrite Hn, Hm, drop_drop. reflexivity.
Qed.

Lemma at_rest_bound (self : t) : at_rest self -> (length (_buffer self) <= 260)%nat.
Proof.
  unfold at_rest. rewrite read_iteration_eq. unfold size.
  destruct (Z.geb_spec (Z.of_nat (length (_buffer self))) 6); [|lia].
  destruct (parse MBusDataLinkHeader (_buffer self)) as [h|[ce| | | |]] eqn:Eh;
    try (intros [|]; discriminate).
  pose proof (MBusDataLinkHeader_L_range _ _ Eh) as HL.
  destruct (Z.geb_spec (Z.of_nat (length (_buffer self))) (L_Field h + 6)); [|lia].
  destruct (try_frame _ _ _) as [[[| | | | | |]| | | |]|[f r]]; simpl; intros [|]; discriminate.
Qed.

(** X6: when [read] returns, the reader holds at most 260 bytes, however
    much was fed: fewer than 6, or a good header with fewer than the
    [L + 6 <= 261] bytes of its frame.  These bytes are an end piece of
    what the buffer held with the chunk appended, the key is unchanged, and
    feeding the empty chunk afterwards returns nothing and changes
    nothing. *)
Theorem read_leaves_a_short_buffer (self self' : t) (data_chunk : list byte)
    (frames : list DlmsTinetzFrame.t) :
  read self data_chunk = Returned frames self' ->
  (length (_buffer self') <= 260)%nat /\
  ((length (_buffer self') < 6)%nat \/
   exists header, parse MBusDataLinkHeader (_buffer self') = Ok header /\
                  size (_buffer self') < L_Field header + 6) /\
  (exists n, _buffer self' = drop n (_buffer self ++ data_chunk)) /\
  _key_hex self' = _key_hex self /\
  read self' [] = Returned [] self'.
Proof.
  intros H. rewrite read_run in H.
  pose proof (run_at_rest _ _ _ H) as Hrest.
  destruct (run_suffix _ _ _ H) as [Hsuf Hk].
  split; [apply at_rest_bound, Hrest|split; [|split; [exact Hsuf|split; [exact Hk|]]]].
  - clear H Hsuf Hk. revert Hrest. unfold at_rest. rewrite read_iteration_eq. unfold size.
    destruct (Z.geb_spec (Z.of_nat (length (_buffer self'))) 6); [|intros _; left; lia].
    destruct (parse MBusDataLinkHeader (_buffer self')) as [h|[ce| | | |]] eqn:Eh;
      try (intros [|]; discriminate).
    destruct (Z.geb_spec (Z.of_nat (length (_buffer self'))) (L_Field h + 6)).
    + destruct (try_frame _ _ _) as [[[| | | | | |]| | | |]|[f r]]; simpl;
        intros [|]; discriminate.
    + intros _. right. exists h. split; [reflexivity|lia].
  - rewrite read_run, extend_nil. apply run_rest, Hrest.
Qed.

Lemma read_leaves_a_short_buffer_witness :
  (length (_buffer (hunting (take 20 single_frame) "00")) <= 260)%nat /\
  read (hunting (take 20 single_frame) "00") [] = Returned [] (hunting (take 20 single_frame) "00").
Proof.
  destruct (read_leaves_a_short_buffer (init "00") (hunting (take 20 single_frame) "00")
              (single_frame ++ take 20 single_frame)
              [{| DlmsTinetzFrame._key := [x00]; DlmsTinetzFrame._length := 3;
                  DlmsTinetzFrame._system_title := [x01; x02; x03; x04; x05; x06; x07; x08];
                  DlmsTinetzFrame._frame_counter := [x00; x00; x00; x2a];
                  DlmsTinetzFrame._frame_data := [xaa; xbb; xcc] |}])
    as (H1 & _ & _ & _ & H5).
  - reflexivity.
  - split; [exact H1|exact H5].
Defined.

Lemma skip_to_start_noise (noise data : list byte) :
  Forall (fun b => b2z b <> START_CHARACTER) noise ->
  skip_to_start (noise ++ data) = skip_to_start data.
Proof.
  induction 1 as [|b noise Hb _ IH]; [reflexivity|].
  cbn [app]. rewrite skip_to_start_cons.
  destruct (Z.eqb_spec (b2z b) START_CHARACTER); [contradiction|exact IH].
Qed.

(** X7: bytes without a start character in front of a stream do not
    change what a fresh reader returns for it. *)
Theorem leading_noise_is_ignored (key_hex : string) (noise data : list byte) :
  Forall (fun b => b2z b <> START_CHARACTER) noise ->
  same_result (read (init key_hex) (noise ++ data)) (read (init key_hex) data).
Proof.
  intros Hnoise.
  change (read (init key_hex) (noise ++ data)) with (run (hunting (noise ++ data) key_hex)).
  change (read (init key_hex) data) with (run (hunting data key_hex)).
  eapply same_result_trans; [apply same_result_sym, run_skip_to_start|].
  rewrite (skip_to_start_noise _ _ Hnoise). apply run_skip_to_start.
Qed.

Lemma leading_noise_is_ignored_witness :
  same_result (read (init "00") ([x00; x01; xff] ++ single_frame))
              (read (init "00") single_frame).
Proof.
  apply (leading_noise_is_ignored "00" [x00; x01; xff] single_frame).
  repeat constructor; vm_compute; discriminate.
Defined.

(** X8: the key is looked at only when a message starts.  A first
    segment (low CI nibble 0) that arrives while no frame is open, with a
    ciphering header that parses, makes [read] raise what [unhexlify] raises
    for the reader's key: a [ValueError] for a key with a character outside
    ASCII, a [binascii.Error] for an ASCII key that is no hexadecimal
    string.  Nothing is trimmed, the reader keeps the whole buffer. *)
Theorem first_segment_with_a_bad_key_raises (self : t) (data_chunk : list byte)
    (c ci : Z) (data tail : list byte) (d : DLMSApplicationLayer_t) (e : exn) :
  _frame self = None ->
  _buffer self ++ data_chunk = mbus_frame c ci data ++ tail ->
  segment_ok c ci data ->
  Z.land ci 0x0F = 0 ->
  parse DLMSApplicationLayer data = Ok d ->
  unhexlify (_key_hex self) = Err e ->
  read self data_chunk = Raised e (extend self data_chunk) /\
  e = (if isascii (_key_hex self) then binascii_Error else ValueError).
Proof.
  intros Hf Hbuf Hok Hci Hd Hkey.
  pose proof (unhexlify_Err _ _ Hkey) as He. split; [|exact He].
  rewrite (read_mbus_frame self data_chunk c ci data tail Hbuf Hok), Hf.
  unfold accumulate, DlmsTinetzFrame.init.
  cbn [TransportLayer mbus_frame_parsed CI_Field Data].
  rewrite Hci, Hd, Hkey. cbn beta iota. rewrite Z.eqb_refl.
  rewrite He. destruct (isascii (_key_hex self)); reflexivity.
Qed.

Lemma first_segment_with_a_bad_key_raises_witness :
  read (init "xy") single_frame = Raised binascii_Error (extend (init "xy") single_frame) /\
  read (init non_ascii_key) single_frame
  = Raised ValueError (extend (init non_ascii_key) single_frame).
Proof.
  destruct (parse DLMSApplicationLayer (ciphered 8 [xaa; xbb; xcc])) as [d|e] eqn:E;
    [|discriminate E].
  split.
  - apply (first_segment_with_a_bad_key_raises (init "xy") single_frame 0x53 0x10
             (ciphered 8 [xaa; xbb; xcc]) [] d binascii_Error).
    + reflexivity.
    + reflexivity.
    + unfold segment_ok. simpl. lia.
    + reflexivity.
    + exact E.
    + reflexivity.
  - apply (first_segment_with_a_bad_key_raises (init non_ascii_key) single_frame 0x53 0x10
             (ciphered 8 [xaa; xbb; xcc]) [] d ValueError).
    + reflexivity.
    + reflexivity.
    + unfold segment_ok. simpl. lia.
    + reflexivity.
    + exact E.
    + reflexivity.
Defined.

(** ** The segments [MBusDataLinkLayer] accepts *)


Lemma MBusDataLinkHeader_inv (buf r6 : list byte) (h : MBusDataLinkHeader_t) :
  MBusDataLinkHeader buf = Ok (h, r6) ->
  buf = x68 :: z2b (L_Field h) :: z2b (L_Field h) :: x68 :: z2b (C_Field h) :: xff :: r6 /\
  h = {| Start_Character := 0x68; L_Field := L_Field h; _L_Field := L_Field h;
         C_Field := C_Field h; A_Field := 0xFF |} /\
  (C_Field h = 0x53 \/ C_Field h = 0x73) /\
  0 <= L_Field h < 256.
Proof.
  intros H.
  assert (Hlen : (6 <= length buf)%nat).
  { apply (MBusDataLinkHeader_length buf h). unfold parse. rewrite H. reflexivity. }
  destruct buf as [|b0 [|b1 [|b2 [|b3 [|b4 [|b5 r]]]]]]; simpl in Hlen; try lia.
  rewrite MBusDataLinkHeader_bytes in H.
  destruct (Z.eqb_spec (b2z b0) 0x68) as [E0|]; [|discriminate].
  destruct (Z.eqb_spec (b2z b2) (b2z b1)) as [E2|]; [|discriminate].
  destruct (Z.eqb_spec (b2z b3) 0x68) as [E3|]; [|discriminate].
  destruct ((b2z b4 =? 0x53) || (b2z b4 =? 0x73)) eqn:E4; [|discriminate].
  destruct (Z.eqb_spec (b2z b5) 0xFF) as [E5|]; [|discriminate].
  simpl in H. injection H as <- <-. cbn [L_Field C_Field].
  assert (E21 : b2 = b1) by (rewrite <- (z2b_b2z b2), E2; apply z2b_b2z).
  subst b2. rewrite !z2b_b2z.
  rewrite (byte_of_b2z _ _ E0), (byte_of_b2z _ _ E3), (byte_of_b2z _ _ E5).
  apply orb_true_iff in E4. rewrite !Z.eqb_eq in E4.
  repeat split; try apply b2z_range; exact E4.
Qed.

Lemma MBusTransportLayer_inv (r6 r9 : list byte) (t : MBusTransportLayer_t) :
  MBusTransportLayer r6 = Ok (t, r9) ->
  r6 = z2b (CI_Field t) :: x01 :: x67 :: r9 /\
  t = {| CI_Field := CI_Field t; STSAP := 0x01; DTSAP := 0x67 |} /\
  0 <= CI_Field t < 0x1F.
Proof.
  unfold MBusTransportLayer, OneOf, Const, bind, Int8ub, ret, fail, raise.
  destruct r6 as [|b6 r7]; [discriminate|]. cbv beta iota.
  destruct (existsb (Z.eqb (b2z b6)) (range 0 31)) eqn:E6; [|discriminate].
  destruct r7 as [|b7 r8]; [discriminate|]. cbv beta iota.
  destruct (Z.eqb_spec (b2z b7) 1) as [E7|]; [|discriminate].
  destruct r8 as [|b8 r]; [discriminate|]. cbv beta iota.
  destruct (Z.eqb_spec (b2z b8) 103) as [E8|]; [|discriminate].
  intros [= <- <-]. cbn [CI_Field]. rewrite z2b_b2z.
  rewrite (byte_of_b2z _ _ E7), (byte_of_b2z _ _ E8).
  apply existsb_range in E6.
  repeat split; lia.
Qed.

Lemma Bytes_inv (n : Z) (s data r : list byte) :
  Bytes n s = Ok (data, r) -> s = data ++ r /\ Z.of_nat (length data) = n.
Proof.
  unfold Bytes. destruct (Z.ltb_spec n 0); [discriminate|].
  destruct (Nat.ltb_spec (length s) (Z.to_nat n)); [discriminate|].
  intros [= <- <-]. rewrite take_drop, length_take. split; [reflexivity|lia].
Qed.

(** X9: [MBusDataLinkLayer] parses a byte string exactly when it starts
    with a segment as the wire format builds it: start byte, the length
    [L = len(data) + 5] twice, start byte, a control field 0x53 or 0x73,
    address 0xFF, a CI field below 0x1F, the access points 0x01 and 0x67,
    at most 250 bytes of data, the sum of the bytes from the control field
    to the data modulo 256, and the stop byte.  What follows the stop byte
    is not looked at, and the parsed value is the one these parts give. *)
Theorem MBusDataLinkLayer_accepts_exactly_segments (buf : list byte)
    (m : MBusDataLinkLayer_t) :
  parse MBusDataLinkLayer buf = Ok m <->
  exists c ci data tail,
    buf = mbus_frame c ci data ++ tail /\ segment_ok c ci data /\
    m = mbus_frame_parsed c ci data.
Proof.
  split.
  - intros H. unfold parse in H. rewrite MBusDataLinkLayer_eq in H. unfold bind at 1 in H.
    destruct (MBusDataLinkHeader buf) as [[h r6]|] eqn:Eh; [|discriminate].
    unfold frame_rest in H. unfold bind at 1 in H.
    destruct (MBusTransportLayer r6) as [[t r9]|] eqn:Et; [|discriminate].
    unfold bind at 1 in H.
    destruct (Bytes (L_Field h - 5) r9) as [[data r']|] eqn:Ed; [|discriminate].
    apply MBusDataLinkHeader_inv in Eh as (-> & Hh & Hc & HL).
    apply MBusTransportLayer_inv in Et as (-> & Ht & Hci).
    apply Bytes_inv in Ed as (-> & Hlen).
    unfold Checksum, Const, bind, Int8ub, ret, fail, raise in H.
    destruct r' as [|cs r'']; [discriminate|].
    match type of H with
    | context [if ?b then _ else _] => destruct b eqn:Ecs; [|discriminate]
    end.
    destruct r'' as [|st tail]; [discriminate|].
    destruct (Z.eqb_spec (b2z st) 22) as [Est|]; [|discriminate].
    injection H as <-.
    apply Z.eqb_eq in Ecs.
    exists (C_Field h), (CI_Field t), data, tail.
    split; [|split].
    + unfold mbus_frame. cbn [app]. rewrite <- app_assoc. cbn [app].
      replace (Z.of_nat (length data) + 5) with (L_Field h) by lia.
      rewrite (byte_of_b2z _ _ Est), (byte_of_b2z _ _ Ecs).
      rewrite Hh, Ht. cbn [C_Field A_Field CI_Field STSAP DTSAP L_Field].
      unfold sum. cbn [fold_right]. 
      replace (sum_bytes data + (C_Field h + (255 + (CI_Field t + (1 + (103 + 0))))))
        with (sum_bytes data + C_Field h + 255 + CI_Field t + 1 + 103) by lia.
      reflexivity.
    + unfold segment_ok. split; [exact Hc|split; [exact Hci|lia]].
    + unfold mbus_frame_parsed. rewrite Hh at 1. rewrite Ht at 1.
      replace (Z.of_nat (length data) + 5) with (L_Field h) by lia.
      f_equal. 
      * rewrite Ecs. rewrite Hh, Ht. cbn [C_Field A_Field CI_Field STSAP DTSAP L_Field].
        unfold sum. cbn [fold_right]. f_equal. lia.
      * exact Est.
  - intros (c & ci & data & tail & -> & Hok & ->). apply mbus_frame_layer, Hok.
Qed.

(** * Further properties of the Kaifa decoder *)

Lemma GreedyRange_Array {A} (p : Construct A) (fuel : nat) (s r : list byte)
    (items : list A) :
  GreedyRange fuel p s = Some (Ok (items, r)) ->
  Array (length items) p s = Ok (items, r) /\
  exists e, p r = Err e /\ e <> ConstructErr ExplicitError.
Proof.
  revert s items; induction fuel as [|n IH]; intros s items; simpl; [discriminate|].
  destruct (p s) as [[x s1]|e] eqn:E.
  - destruct (GreedyRange n p s1) as [[[xs r']|err]|] eqn:Eg; try discriminate.
    intros [= <- <-]. destruct (IH s1 xs Eg) as [Ha He].
    split; [|exact He]. simpl. unfold bind. rewrite E, Ha. reflexivity.
  - destruct e as [[]| | | |]; try discriminate; intros [= <- <-];
      (split; [reflexivity|eexists; split; [exact E|discriminate]]).
Qed.

Section kaifa_tinetz_further.

Variable data_type_of_tag : Z -> CommonDataTypes_t.
Variable ObisCodeOctedStringField : Construct string.
Variable FieldValue : Type.
Variable Field : Construct FieldValue.
Variable VisibleString : Construct string.
Variable OctedStringText : Construct string.
Variable DateTime_t : Type.
Variable DateTime : Construct DateTime_t.
Variable DoubleLongUnsigned : Construct Z.
Variable Long : Construct Z.
Variable LongUnsigned : Construct Z.
Variable ScalerUnitField : Construct ScalerUnit_t.

Local Abbreviation SimpleElement' :=
(SimpleElement data_type_of_tag ObisCodeOctedStringField FieldValue Field).
Local Abbreviation StructElement' :=
(StructElement data_type_of_tag ObisCodeOctedStringField VisibleString OctedStringText
   DateTime_t DateTime DoubleLongUnsigned Long LongUnsigned ScalerUnitField).
Local Abbreviation Element' :=
(Element data_type_of_tag ObisCodeOctedStringField FieldValue Field VisibleString
   OctedStringText DateTime_t DateTime DoubleLongUnsigned Long LongUnsigned
   ScalerUnitField).
Local Abbreviation StructContent' :=
(StructContent VisibleString OctedStringText DateTime_t DateTime
   DoubleLongUnsigned Long LongUnsigned ScalerUnitField).
Local Abbreviation ScaledContent' :=
(ScaledContent DateTime_t DoubleLongUnsigned Long LongUnsigned ScalerUnitField).
Local Abbreviation NotificationBodyObisElements' :=
(NotificationBodyObisElements data_type_of_tag ObisCodeOctedStringField FieldValue Field
   VisibleString OctedStringText DateTime_t DateTime DoubleLongUnsigned Long
   LongUnsigned ScalerUnitField).

(** A content type without a parser of its own leaves [unscaled_value]
  at [None], and the product with the scale is a [TypeError]. *)
Lemma ScaledContent_untyped (content_type : CommonDataTypes_t) (s : list byte) :
unscaled_value_of DoubleLongUnsigned Long LongUnsigned content_type = ret None ->
ScaledContent' content_type s =
  match ScalerUnitField s with
  | Ok _ => Err TypeError
  | Err e => Err e
  end.
Proof.
intros H. unfold ScaledContent. rewrite H. unfold bind, ret, raise.
destruct (ScalerUnitField s) as [[su r]|e]; reflexivity.
Qed.

(** X10: what a structured element exposes is decided by its content
  type.  A visible string gives the text; an octet string gives the
  date-time when it parses as one and the text only when it does not; the
  three numeric types give a number.  With any other content type, a
  nested structure included, the element does not parse. *)
Theorem struct_element_value_by_content_type (s r : list byte)
  (e : StructElement_t DateTime_t) :
StructElement' s = Ok (e, r) ->
exists s1,
  match struct_content_type _ e with
  | visible_string =>
      exists txt, VisibleString s1 = Ok (txt, r) /\ struct_value _ e = Text txt
  | octet_string =>
      (exists d, DateTime s1 = Ok (d, r) /\ struct_value _ e = Timestamp d) \/
      (exists err txt, DateTime s1 = Err err /\ OctedStringText s1 = Ok (txt, r) /\
                       struct_value _ e = Text txt)
  | double_long_unsigned | long | long_unsigned =>
      exists q, struct_value _ e = Number q
  | structure | other_type _ => False
  end.
Proof.
intros H. destruct (StructElement_inv _ _ _ _ _ _ _ _ _ _ _ _ _ H)
  as (s1 & content & Hc & _ & ->).
exists s1. revert Hc.
destruct (struct_content_type _ e); cbn [StructContent].
- rewrite ScaledContent_untyped by reflexivity.
  destruct (ScalerUnitField s1) as [[su r']|err]; discriminate.
- intros Hc. apply Select_Ok in Hc as [Hc|(err & Hd & _ & Hc)]; revert Hc;
    unfold bind, ret.
  + destruct (DateTime s1) as [[d r1]|err] eqn:Ed; [|discriminate].
    intros [= <- <-]. left. eauto.
  + unfold bind, ret in Hd.
    destruct (DateTime s1) as [[d r1]|err1] eqn:Ed; [discriminate Hd|].
    destruct (OctedStringText s1) as [[txt r1]|err'] eqn:Et; [|discriminate].
    intros [= <- <-]. right. eauto.
- unfold bind, ret. destruct (VisibleString s1) as [[txt r1]|err]; [|discriminate].
  intros [= <- <-]. eauto.
- intros Hc.
  destruct (ScaledContent_inv DateTime_t DoubleLongUnsigned Long LongUnsigned ScalerUnitField double_long_unsigned DoubleLongUnsigned _ _ _
              eq_refl Hc) as (u & su & s2 & _ & _ & ->).
  simpl. eauto.
- intros Hc.
  destruct (ScaledContent_inv DateTime_t DoubleLongUnsigned Long LongUnsigned ScalerUnitField long Long _ _ _ eq_refl Hc)
    as (u & su & s2 & _ & _ & ->).
  simpl. eauto.
- intros Hc.
  destruct (ScaledContent_inv DateTime_t DoubleLongUnsigned Long LongUnsigned ScalerUnitField long_unsigned LongUnsigned _ _ _ eq_refl Hc)
    as (u & su & s2 & _ & _ & ->).
  simpl. eauto.
- rewrite ScaledContent_untyped by reflexivity.
  destruct (ScalerUnitField s1) as [[su r']|err]; discriminate.
Qed.

Lemma Element_error (s : list byte) (e : exn) :
  Element' s = Err e ->
  e = ConstructErr SelectError \/ e = ConstructErr ExplicitError.
Proof.
  unfold Element. intros H.
  apply Select_error in H as [H|[H _]]; auto.
Qed.

(** X11: the notification body fails in four ways only.  A
    [StreamError] when fewer than two bytes are there, a [ConstError] when
    the first byte is not the structure tag, an [ExplicitError] that an item
    raises, a [CheckError] from the count check.  An item that does not
    parse for another reason (cut short, a structured element of an unknown
    content type, a [TypeError] of the scaling) never shows as an error of
    its own: it ends the item list. *)
Theorem notification_body_errors (fuel : nat) (s : list byte) (e : exn) :
  NotificationBodyObisElements' fuel s = Some (Err e) ->
  (e = ConstructErr StreamError /\ (length s <= 1)%nat) \/
  (e = ConstructErr ConstError /\
   exists tag rest, s = tag :: rest /\ data_type_of_tag (b2z tag) <> structure) \/
  (e = ConstructErr ExplicitError /\
   exists tag n rest items s',
     s = tag :: n :: rest /\ data_type_of_tag (b2z tag) = structure /\
     Array (length items) Element' rest = Ok (items, s') /\
     Element' s' = Err (ConstructErr ExplicitError)) \/
  (e = ConstructErr CheckError /\
   exists tag n rest items rest',
     s = tag :: n :: rest /\ data_type_of_tag (b2z tag) = structure /\
     GreedyRange fuel Element' rest = Some (Ok (items, rest')) /\
     b2z n <> sum (map _cnt items)).
Proof.
  unfold NotificationBodyObisElements, ConstType, CommonDataTypes.
  unfold bind at 1. unfold bind at 1. unfold Int8ub at 1.
  destruct s as [|tag s1].
  - intros [= <-]. left. split; [reflexivity|simpl; lia].
  - unfold ret at 1.
    destruct (bool_decide_reflect (data_type_of_tag (b2z tag) = structure)) as [Htag|Htag].
    + unfold ret at 1. unfold Int8ub at 1. destruct s1 as [|n rest].
      * intros [= <-]. left. split; [reflexivity|simpl; lia].
      * destruct (GreedyRange fuel Element' rest) as [[[items rest']|err]|] eqn:Eg;
          [| |discriminate].
        -- unfold bind, Check, ret, fail, raise.
           destruct (Z.eqb_spec (b2z n) (sum (map _cnt items))) as [|Hn]; [discriminate|].
           intros [= <-]. right; right; right. split; [reflexivity|].
           exists tag, n, rest, items, rest'. auto.
        -- intros [= <-].
           destruct (GreedyRange_Err _ _ _ _ Eg) as (-> & items & s' & Ha & He).
           right; right; left. split; [reflexivity|].
           exists tag, n, rest, items, s'. auto.
    + unfold fail, raise. intros [= <-]. right; left. split; [reflexivity|eauto].
Qed.

(** X12: a notification body that parses is a structure tag, the count
  byte, and the items one after the other: as many as parse, read as an
  array of that many elements, with the count equal to the sum of their
  weights.  The bytes left over begin where no element parses; they are
  not looked at. *)
Theorem notification_body_items (fuel : nat) (s r : list byte)
  (body : NotificationBodyObisElements_t FieldValue DateTime_t) :
NotificationBodyObisElements' fuel s = Some (Ok (body, r)) ->
exists tag n rest,
  s = tag :: n :: rest /\
  data_type_of_tag (b2z tag) = structure /\
  _fields _ _ body = b2z n /\
  Array (length (list_items _ _ body)) Element' rest = Ok (list_items _ _ body, r) /\
  Element' r = Err (ConstructErr SelectError) /\
  b2z n = sum (map weight (list_items _ _ body)).
Proof.
unfold NotificationBodyObisElements, ConstType, CommonDataTypes.
unfold bind at 1. unfold bind at 1. unfold Int8ub at 1.
destruct s as [|tag s1]; [discriminate|].
unfold ret at 1.
destruct (bool_decide_reflect (data_type_of_tag (b2z tag) = structure)) as [Htag|Htag];
  [|discriminate].
unfold ret at 1. unfold Int8ub at 1. destruct s1 as [|n rest]; [discriminate|].
destruct (GreedyRange fuel Element' rest) as [[[items rest']|err0]|] eqn:Eg;
  try discriminate.
unfold bind, Check, ret, fail, raise.
destruct (Z.eqb_spec (b2z n) (sum (map _cnt items))) as [Hn|]; [|discriminate].
intros [= <- <-]. cbn [_fields list_items].
destruct (GreedyRange_Array _ _ _ _ _ Eg) as [Ha (err & He & Hne)].
destruct (Element_error _ _ He) as [->| ->]; [|contradiction].
exists tag, n, rest. repeat split; try assumption.
rewrite Hn. f_equal.
pose proof (GreedyRange_cnt _ _ _ _ _ _ _ _ _ _ _ _ _ _ _ _ Eg) as Hcnt.
clear -Hcnt. induction Hcnt as [|item l H _ IH]; simpl; [reflexivity|].
rewrite H, IH. reflexivity.
Qed.

End kaifa_tinetz_further.

Lemma struct_element_value_by_content_type_witness :
  exists e r,
    example_cosem.StructElement example_cosem.voltage_element = Ok (e, r) /\
    struct_content_type _ e = long_unsigned /\
    exists q, struct_value _ e = Number q.
Proof.
  destruct (example_cosem.StructElement example_cosem.voltage_element) as [[e r]|err] eqn:E;
    [|vm_compute in E; discriminate E].
  assert (Hct : struct_content_type _ e = long_unsigned)
    by (vm_compute in E; injection E as <- _; reflexivity).
  exists e, r. split; [reflexivity|split; [exact Hct|]].
  destruct (struct_element_value_by_content_type
              example_cosem.data_type_of_tag example_cosem.ObisCodeOctedStringField
              example_cosem.VisibleString example_cosem.OctedStringText (list byte)
              example_cosem.DateTime example_cosem.Int32ub example_cosem.Int16sb Int16ub
              example_cosem.ScalerUnitField example_cosem.voltage_element r e E)
    as [s1 H].
  rewrite Hct in H. exact H.
Defined.

Lemma notification_body_errors_witness :
  (ConstructErr ExplicitError = ConstructErr StreamError /\
   (length ([x02; x00] ++ example_cosem.boolean_element) <= 1)%nat) \/
  (ConstructErr ExplicitError = ConstructErr ConstError /\
   exists tag rest, [x02; x00] ++ example_cosem.boolean_element = tag :: rest /\
                    example_cosem.data_type_of_tag (b2z tag) <> structure) \/
  (ConstructErr ExplicitError = ConstructErr ExplicitError /\
   exists tag n rest items s',
     [x02; x00] ++ example_cosem.boolean_element = tag :: n :: rest /\
     example_cosem.data_type_of_tag (b2z tag) = structure /\
     Array (length items) example_cosem.Element rest = Ok (items, s') /\
     example_cosem.Element s' = Err (ConstructErr ExplicitError)) \/
  (ConstructErr ExplicitError = ConstructErr CheckError /\
   exists tag n rest items rest',
     [x02; x00] ++ example_cosem.boolean_element = tag :: n :: rest /\
     example_cosem.data_type_of_tag (b2z tag) = structure /\
     GreedyRange 5 example_cosem.Element rest = Some (Ok (items, rest')) /\
     b2z n <> sum (map _cnt items)).
Proof.
  apply (notification_body_errors
           example_cosem.data_type_of_tag example_cosem.ObisCodeOctedStringField
           Z example_cosem.Field example_cosem.VisibleString
           example_cosem.OctedStringText (list byte) example_cosem.DateTime
           example_cosem.Int32ub example_cosem.Int16sb Int16ub
           example_cosem.ScalerUnitField 5 ([x02; x00] ++ example_cosem.boolean_element)
           (ConstructErr ExplicitError)).
  reflexivity.
Defined.

Lemma notification_body_items_witness :
  exists body r,
    example_cosem.NotificationBodyObisElements 30
      ([x02; x03] ++ example_cosem.simple_element ++ example_cosem.voltage_element
       ++ [xff])
    = Some (Ok (body, r)) /\
    exists tag n rest,
      [x02; x03] ++ example_cosem.simple_element ++ example_cosem.voltage_element ++ [xff]
      = tag :: n :: rest /\
      example_cosem.data_type_of_tag (b2z tag) = structure /\
      _fields _ _ body = b2z n /\
      Array (length (list_items _ _ body)) example_cosem.Element rest
      = Ok (list_items _ _ body, r) /\
      example_cosem.Element r = Err (ConstructErr SelectError) /\
      b2z n = sum (map weight (list_items _ _ body)).
Proof.
  destruct (example_cosem.NotificationBodyObisElements 30
              ([x02; x03] ++ example_cosem.simple_element
               ++ example_cosem.voltage_element ++ [xff]))
    as [[[body r]|err]|] eqn:E;
    [|vm_compute in E; discriminate E|vm_compute in E; discriminate E].
  exists body, r. split; [reflexivity|].
  exact (notification_body_items
           example_cosem.data_type_of_tag example_cosem.ObisCodeOctedStringField
           Z example_cosem.Field example_cosem.VisibleString
           example_cosem.OctedStringText (list byte) example_cosem.DateTime
           example_cosem.Int32ub example_cosem.Int16sb Int16ub
           example_cosem.ScalerUnitField 30 _ r body E).
Defined.

(** * The dictionary of measures *)

Lemma dict_get_setitem {V} (d : dict.t V) (k k' : string) (v : V) :
  dict.get (dict.setitem d k v) k' = if String.eqb k k' then Some v else dict.get d k'.
Proof.
  induction d as [|[k0 v0] d IH]; simpl.
  - destruct (String.eqb_spec k k'); reflexivity.
  - destruct (String.eqb_spec k0 k) as [->|Hk]; simpl.
    + destruct (String.eqb_spec k k'); reflexivity.
    + rewrite IH. destruct (String.eqb_spec k0 k') as [->|]; [|reflexivity].
      destruct (String.eqb_spec k k'); [congruence|reflexivity].
Qed.

Lemma existsb_eqb_In (k : string) (l : list string) :
  existsb (String.eqb k) l = true <-> In k l.
Proof.
  rewrite existsb_exists. split.
  - intros (x & Hx & E). apply String.eqb_eq in E. subst. exact Hx.
  - intros H. exists k. split; [exact H|apply String.eqb_refl].
Qed.

Lemma dict_keys_setitem {V} (d : dict.t V) (k : string) (v : V) :
  dict.keys (dict.setitem d k v)
  = if existsb (String.eqb k) (dict.keys d) then dict.keys d else dict.keys d ++ [k].
Proof.
  unfold dict.keys. induction d as [|[k0 v0] d IH]; simpl; [reflexivity|].
  rewrite (String.eqb_sym k k0).
  destruct (String.eqb_spec k0 k) as [->|Hk]; simpl; [reflexivity|].
  rewrite IH. destruct (existsb (String.eqb k) (map fst d)); reflexivity.
Qed.

Lemma find_snoc {A} (f : A -> bool) (l : list A) (x : A) :
  List.find f (l ++ [x]) =
    match List.find f l with
    | Some y => Some y
    | None => if f x then Some x else None
    end.
Proof.
  induction l as [|a l IH]; simpl; [reflexivity|].
  destruct (f a); [reflexivity|exact IH].
Qed.

Section normalize_properties.

Variable FieldValue : Type.
Variable DateTime_t : Type.
Variable datetime_t : Type.
Variable to_group_cdr_str : string -> result string.
Variable obis_name_map : dict.t string.
Variable FIELD_METER_MANUFACTURER : string.
Variable DateTime_datetime : DateTime_t -> option datetime_t.
Variable Field_datetime : FieldValue -> option datetime_t.

Local Abbreviation value_t' := (py_value FieldValue DateTime_t datetime_t).
Local Abbreviation entry' :=
(entry FieldValue DateTime_t datetime_t to_group_cdr_str obis_name_map
   DateTime_datetime Field_datetime).
Local Abbreviation normalize_loop' :=
(normalize_loop FieldValue DateTime_t datetime_t to_group_cdr_str obis_name_map
   DateTime_datetime Field_datetime).
Local Abbreviation normalize' :=
(_normalize_parsed_obis_elements_frame FieldValue DateTime_t datetime_t
   to_group_cdr_str obis_name_map FIELD_METER_MANUFACTURER DateTime_datetime
   Field_datetime).

Local Abbreviation last_stored' := (@last_stored FieldValue DateTime_t datetime_t).

Lemma normalize_loop_spec (list_items : list (Element_t FieldValue DateTime_t))
  (d0 d : dict.t value_t') :
normalize_loop' list_items d0 = Ok d ->
exists entries,
  Forall2 (fun measure e => entry' measure = Ok e) list_items entries /\
  (forall k, dict.get d k =
             match last_stored' entries k with
             | Some v => Some v
             | None => dict.get d0 k
             end) /\
  (List.NoDup (dict.keys d0) -> List.NoDup (dict.keys d)) /\
  (exists new, dict.keys d = dict.keys d0 ++ new) /\
  (forall k, In k (dict.keys d) <-> In k (dict.keys d0) \/ In k (map fst entries)).
Proof.
revert d0; induction list_items as [|measure rest IH]; intros d0; simpl.
- intros [= <-]. exists []. split; [constructor|].
  split; [reflexivity|]. split; [auto|]. split.
  + exists []. rewrite app_nil_r. reflexivity.
  + intros k. simpl. tauto.
- destruct (entry' measure) as [[name v]|e] eqn:E; [|discriminate].
  intros H. destruct (IH _ H) as (entries & Hall & Hget & Hnd & [new Hnew] & Hin).
  exists ((name, v) :: entries). split; [constructor; assumption|].
  pose proof (dict_keys_setitem d0 name v) as Hk.
  split; [|split; [|split]].
  + intros k. rewrite Hget. unfold last_stored. cbn [rev]. rewrite find_snoc.
    destruct (List.find _ (rev entries)) as [e|]; [reflexivity|]. cbn [fst snd fmap option_fmap option_map].
    rewrite dict_get_setitem. destruct (String.eqb name k); reflexivity.
  + intros Hd0. apply Hnd. rewrite Hk.
    destruct (existsb (String.eqb name) (dict.keys d0)) eqn:Hi; [exact Hd0|].
    assert (Hni : ~ In name (dict.keys d0))
      by (rewrite <- existsb_eqb_In, Hi; discriminate).
    apply List.NoDup_app; [exact Hd0|constructor; [intros []|constructor]|].
    intros a Ha [<-|[]]. exact (Hni Ha).
  + rewrite Hnew, Hk.
    destruct (existsb (String.eqb name) (dict.keys d0)); [eauto|].
    exists ([name] ++ new). rewrite app_assoc. reflexivity.
  + intros k. rewrite Hin, Hk. cbn [map fst In].
    destruct (existsb (String.eqb name) (dict.keys d0)) eqn:Hi.
    * apply existsb_eqb_In in Hi.
      split; [intros [?|?]; auto|]. intros [?|[<-|?]]; auto.
    * rewrite in_app_iff. cbn [In]. tauto.
Qed.

(** X13: the dictionary of a notification.  Under every key it holds the
  value of the last measure stored under that name; the manufacturer
  key holds the text KaifaTINETZ unless a measure is stored under that
  very name, which then replaces it; no other key is there.  The name of
  a measure is the one the name map gives for its OBIS group, or the
  group itself, and a value with a [datetime] attribute is stored as
  that attribute. *)
Theorem normalized_frame_holds_the_last_value_of_each_name
  (frame : LlcPdu_t FieldValue DateTime_t) (d : dict.t value_t') :
normalize' frame = Ok d ->
exists entries,
  Forall2 (fun measure e => entry' measure = Ok e)
    (list_items _ _ (notification_body _ _ frame)) entries /\
  forall k,
    dict.get d k =
      match last_stored' entries k with
      | Some v => Some v
      | None => if String.eqb FIELD_METER_MANUFACTURER k
                then Some (PyStr "KaifaTINETZ") else None
      end.
Proof.
unfold _normalize_parsed_obis_elements_frame. intros H.
destruct (normalize_loop_spec _ _ _ H) as (entries & Hall & Hget & _).
exists entries. split; [exact Hall|]. intros k. rewrite Hget. reflexivity.
Qed.

(** X14: the shape of the dictionary.  The manufacturer key comes first,
  no key appears twice, the keys are the manufacturer key and the names
  of the measures, and so there are at most one more than there are
  measures. *)
Theorem normalized_frame_keys (frame : LlcPdu_t FieldValue DateTime_t)
  (d : dict.t value_t') :
normalize' frame = Ok d ->
head (dict.keys d) = Some FIELD_METER_MANUFACTURER /\
List.NoDup (dict.keys d) /\
(length d <= 1 + length (list_items _ _ (notification_body _ _ frame)))%nat /\
exists entries,
  Forall2 (fun measure e => entry' measure = Ok e)
    (list_items _ _ (notification_body _ _ frame)) entries /\
  forall k, In k (dict.keys d) <->
            k = FIELD_METER_MANUFACTURER \/ In k (map fst entries).
Proof.
unfold _normalize_parsed_obis_elements_frame. intros H.
destruct (normalize_loop_spec _ _ _ H) as (entries & Hall & _ & Hnd & [new Hnew] & Hin).
assert (Hnd' : List.NoDup (dict.keys d)).
{ apply Hnd. simpl. constructor; [intros []|constructor]. }
split; [rewrite Hnew; reflexivity|split; [exact Hnd'|split]].
- assert (Hsub : forall k, In k (dict.keys d) ->
                           In k (FIELD_METER_MANUFACTURER :: map fst entries)).
  { intros k Hk. apply Hin in Hk as [[<-|[]]|Hk]; [left; reflexivity|right; exact Hk]. }
  pose proof (List.NoDup_incl_length Hnd' Hsub) as Hlen.
  unfold dict.keys in Hlen. rewrite length_map in Hlen. cbn [length] in Hlen.
  rewrite length_map in Hlen. apply Forall2_length in Hall as Hl2. lia.
- exists entries. split; [exact Hall|]. intros k. rewrite Hin. simpl.
  split; [intros [[<-|[]]|?]; auto|intros [->|?]; auto].
Qed.

(** X15: the function fails only where the OBIS code of a measure is
  refused, with the exception of the first such measure; the measures
  after it are not looked at. *)
Theorem normalize_fails_at_the_first_bad_obis (frame : LlcPdu_t FieldValue DateTime_t)
  (e : exn) :
normalize' frame = Err e <->
exists before measure after,
  list_items _ _ (notification_body _ _ frame) = before ++ measure :: after /\
  Forall (fun m => exists g, to_group_cdr_str (measure_obis _ _ m) = Ok g) before /\
  to_group_cdr_str (measure_obis _ _ measure) = Err e.
Proof.
unfold _normalize_parsed_obis_elements_frame.
generalize [(FIELD_METER_MANUFACTURER, @PyStr FieldValue DateTime_t datetime_t "KaifaTINETZ")].
induction (list_items _ _ (notification_body _ _ frame)) as [|m l IH]; intros d0; simpl.
- split; [discriminate|]. intros (before & measure & after & H & _).
  destruct before; discriminate.
- unfold entry at 1.
  destruct (to_group_cdr_str (measure_obis _ _ m)) as [g|e'] eqn:E.
  + rewrite IH. split.
    * intros (before & measure & after & -> & Hb & He).
      exists (m :: before), measure, after. split; [reflexivity|].
      split; [constructor; eauto|exact He].
    * intros (before & measure & after & Hl & Hb & He).
      destruct before as [|m' before].
      -- injection Hl as <- <-. congruence.
      -- injection Hl as <- ->. inversion Hb as [|? ? _ Hb']; subst. eauto 6.
  + split.
    * intros [= <-]. exists [], m, l. repeat split; [constructor|exact E].
    * intros (before & measure & after & Hl & Hb & He).
      destruct before as [|m' before].
      -- injection Hl as <- <-. congruence.
      -- injection Hl as <- ->. inversion Hb as [|? ? [g Hg] _]; subst. congruence.
Qed.

End normalize_properties.

Lemma normalized_frame_holds_the_last_value_of_each_name_witness :
  exists entries,
    Forall2 (fun measure e => example_obis.entry measure = Ok e)
      (list_items _ _ (notification_body _ _ example_obis.frame)) entries /\
    forall k,
      dict.get example_obis.dictionary k =
        match last_stored _ _ _ entries k with
        | Some v => Some v
        | None => if String.eqb example_obis.FIELD_METER_MANUFACTURER k
                  then Some (PyStr "KaifaTINETZ") else None
        end.
Proof.
  apply (normalized_frame_holds_the_last_value_of_each_name Z (list byte) (list byte)
           example_obis.to_group_cdr_str example_obis.obis_name_map
           example_obis.FIELD_METER_MANUFACTURER (fun d => Some d) (fun _ => None)
           example_obis.frame example_obis.dictionary).
  reflexivity.
Defined.

Lemma normalized_frame_keys_witness :
  example_obis._normalize_parsed_obis_elements_frame example_obis.frame
  = Ok example_obis.dictionary /\
  head (dict.keys example_obis.dictionary) = Some example_obis.FIELD_METER_MANUFACTURER /\
  List.NoDup (dict.keys example_obis.dictionary) /\
  (length example_obis.dictionary <= 1 + 3)%nat.
Proof.
  split; [reflexivity|].
  destruct (normalized_frame_keys Z (list byte) (list byte)
              example_obis.to_group_cdr_str example_obis.obis_name_map
              example_obis.FIELD_METER_MANUFACTURER (fun d => Some d) (fun _ => None)
              example_obis.frame example_obis.dictionary)
    as (H1 & H2 & H3 & _).
  - reflexivity.
  - split; [exact H1|split; [exact H2|exact H3]].
Defined.

(** * The host argument of the command line *)

Lemma str_split_cons (sep : ascii) (s : string) :
  exists part parts, reader_async.str_split sep s = part :: parts.
Proof.
  destruct s as [|c s]; simpl; [eauto|].
  destruct (Ascii.eqb c sep); [eauto|].
  destruct (reader_async.str_split sep s); eauto.
Qed.

(** A string without the separator is one piece. *)
Lemma str_split_one (sep : ascii) (s : string) :
  ~ In sep (list_ascii_of_string s) -> reader_async.str_split sep s = [s].
Proof.
  induction s as [|c s IH]; simpl; [reflexivity|]. intros H.
  destruct (Ascii.eqb_spec c sep) as [->|_]; [tauto|].
  rewrite IH by tauto. reflexivity.
Qed.

(** The first piece ends at the first separator. *)
Lemma str_split_app (sep : ascii) (h p : string) :
  ~ In sep (list_ascii_of_string h) ->
  reader_async.str_split sep (String.append h (String sep p))
  = h :: reader_async.str_split sep p.
Proof.
  induction h as [|c h IH]; simpl.
  - intros _. rewrite Ascii.eqb_refl. reflexivity.
  - intros H. destruct (Ascii.eqb_spec c sep) as [->|_]; [tauto|].
    rewrite IH by tauto. reflexivity.
Qed.

Lemma str_split_inv (sep : ascii) (s h : string) (rest : list string) :
  reader_async.str_split sep s = h :: rest ->
  ~ In sep (list_ascii_of_string h) /\
  ((rest = [] /\ s = h) \/
   exists p, s = String.append h (String sep p) /\ reader_async.str_split sep p = rest).
Proof.
  revert h rest; induction s as [|c s IH]; intros h rest; simpl.
  - intros [= <- <-]. split; [intros []|left; auto].
  - destruct (Ascii.eqb_spec c sep) as [->|Hc].
    + intros [= <- <-]. split; [intros []|right]. exists s. auto.
    + destruct (reader_async.str_split sep s) as [|part parts] eqn:E.
      { destruct (str_split_cons sep s) as (? & ? & E'). congruence. }
      intros [= <- <-]. destruct (IH part parts eq_refl) as [Hn Hs].
      split; [simpl; intros [?|?]; [congruence|tauto]|].
      destruct Hs as [[-> ->]|(p & -> & Hp)]; [left; auto|right].
      exists p. auto.
Qed.

(** X16: [valid_host_port] accepts exactly the arguments with one colon,
    and returns what stands before it and what stands after it, which put
    together with a colon give the argument back.  Neither part is looked
    at further: both may be empty, and the port need not be a number.
    Every other argument raises [ArgumentTypeError] with the argument in
    its message. *)
Theorem valid_host_port_accepts_exactly_one_colon (host_port : string) :
  (forall host port,
     reader_async.valid_host_port host_port = inr (host, port) <->
     host_port = String.append host (String ":" port) /\
     ~ In ":"%char (list_ascii_of_string host) /\
     ~ In ":"%char (list_ascii_of_string port)) /\
  ((exists host port, reader_async.valid_host_port host_port = inr (host, port)) \/
   reader_async.valid_host_port host_port =
     inl (reader_async.ArgumentTypeError_
            (String.append "Not a valid host and port: '"
               (String.append host_port "'.")))).
Proof.
  split.
  - intros host port. unfold reader_async.valid_host_port. split.
    + destruct (reader_async.str_split ":" host_port) as [|h [|p [|q rest]]] eqn:E;
        try discriminate.
      intros [= <- <-].
      destruct (str_split_inv _ _ _ _ E) as [Hh [[[=] _]|(p' & -> & Hp')]].
      destruct (str_split_inv _ _ _ _ Hp') as [Hp [[_ ->]|(q & _ & Hq)]].
      * auto.
      * destruct (str_split_cons ":" q) as (? & ? & Hq'). congruence.
    + intros (-> & Hh & Hp). rewrite (str_split_app _ _ _ Hh), (str_split_one _ _ Hp).
      reflexivity.
  - unfold reader_async.valid_host_port.
    destruct (reader_async.str_split ":" host_port) as [|h [|p [|q rest]]];
      try (right; reflexivity).
    left. eauto.
Qed.

(** * The key and the payload *)

Lemma hex_decode_length (hexstr : string) (key : list byte) :
  hex_decode hexstr = Some key -> String.length hexstr = (2 * length key)%nat.
Proof.
  revert key. induction hexstr as [hexstr IH] using (induction_ltof1 _ String.length).
  unfold ltof in IH. intros key.
  destruct hexstr as [|a [|b rest]]; simpl.
  - intros [= <-]. reflexivity.
  - discriminate.
  - destruct (hex_digit a), (hex_digit b); try discriminate.
    destruct (hex_decode rest) as [bs|] eqn:E; [|discriminate].
    intros [= <-]. simpl. rewrite (IH rest ltac:(simpl; lia) bs E). lia.
Qed.

Lemma unhexlify_length (hexstr : string) (key : list byte) :
  unhexlify hexstr = Ok key -> String.length hexstr = (2 * length key)%nat.
Proof.
  unfold unhexlify. destruct (isascii hexstr); [|discriminate].
  destruct (hex_decode hexstr) as [bs|] eqn:E; [|discriminate].
  intros [= <-]. apply hex_decode_length, E.
Qed.

(** X17: the reader never checks the length of its key.  Every frame
    that [read] returns carries the decoded key; its [payload] is the
    counter-mode decryption when the hexadecimal key has 32, 48 or 64
    characters, and raises [ValueError] for a key of any other length. *)
Theorem payload_raises_for_a_key_of_another_length
    (AES_encrypt_block ghash_j0 : list byte -> list byte -> list byte)
    (key_hex : string) (chunks : list (list byte))
    (frames : list DlmsTinetzFrame.t) (self' : t) :
  read_chunks (init key_hex) chunks = Returned frames self' ->
  Forall (fun f =>
            if existsb (Nat.eqb (String.length key_hex)) [32; 48; 64]%nat
            then payload AES_encrypt_block ghash_j0 f =
                   inr (gcm_decrypt AES_encrypt_block ghash_j0 (DlmsTinetzFrame._key f)
                          (DlmsTinetzFrame._system_title f ++ DlmsTinetzFrame._frame_counter f)
                          (DlmsTinetzFrame._frame_data f))
            else payload AES_encrypt_block ghash_j0 f = inl ValueError) frames.
Proof.
  intros H.
  pose proof (read_chunks_valid _ _ _ _ H) as Hv.
  apply (read_chunks_frame_of_reader (init key_hex)) in H; [|intros f; discriminate].
  apply Forall_forall. intros f Hf. rewrite Forall_forall in H, Hv.
  destruct (H f Hf) as (Ht & Hc & Hk & Hl). specialize (Hv f Hf).
  apply unhexlify_length in Hk.
  change (_key_hex (init key_hex)) with key_hex in Hk.
  unfold payload, AES_new_GCM, decrypt. rewrite length_app, Ht, Hc, Hk. cbn [existsb].
  destruct (Z.ltb_spec (2 ^ 36) (Z.of_nat (length (DlmsTinetzFrame._frame_data f))));
    [lia|].
  set (n := length (DlmsTinetzFrame._key f)).
  replace (2 * n =? 32)%nat with (n =? 16)%nat
    by (destruct (Nat.eqb_spec n 16), (Nat.eqb_spec (2 * n) 32); lia || reflexivity).
  replace (2 * n =? 48)%nat with (n =? 24)%nat
    by (destruct (Nat.eqb_spec n 24), (Nat.eqb_spec (2 * n) 48); lia || reflexivity).
  replace (2 * n =? 64)%nat with (n =? 32)%nat
    by (destruct (Nat.eqb_spec n 32), (Nat.eqb_spec (2 * n) 64); lia || reflexivity).
  destruct (_ || _); reflexivity.
Qed.

Lemma payload_raises_for_a_key_of_another_length_witness :
  Forall (fun f => payload (fun _ _ => repeat x5a 16) (fun _ nonce => nonce) f
                   = inl ValueError)
    [frame_of_header [x00]
       {| Ciphering_Service := 0xDB; System_Title_Length := 8;
          System_Title := [1; 2; 3; 4; 5; 6; 7; 8]; _length_peek := Some 8;
          Length_Prefix := None; Length := 8; Security_Control_Byte := 0x21;
          Frame_Counter := [0; 0; 0; 0x2a]; Encrypted_Payload := [xaa; xbb; xcc] |}].
Proof.
  apply (payload_raises_for_a_key_of_another_length
           (fun _ _ => repeat x5a 16) (fun _ nonce => nonce) "00"
           [single_frame] _ (init "00")).
  reflexivity.
Defined.
